(** * Radio station editor: the document codec, parser, writer and link manager

    A shallow embedding of [radio_editor.py] (the part above the Qt
    presentation layer) and the proofs of its specified properties.

    Conventions of the embedding.
    - A Python [str] is a list of Unicode code points ([N]).  The file
      system [Fs] stores the content of a file as it is given.  Most of the
      development works on the text of the files: there a file holds the
      text that [read_text] returns.  The switch between text and bytes
      (UTF-8, universal newlines, the line separator of the platform) is
      the layer [OnDisk], in which a file holds its bytes.
    - Exceptions are values of [exn]; a function that can raise returns a
      [result].  Functions that touch the disk pass the file system along.
    - The clock, the environment and the elevated child process are inputs. *)

From Stdlib Require Import ZArith NArith Ascii String Lia.
From stdpp Require Import base option list sorting gmap.

Local Open Scope N_scope.

(** ** The Python runtime, as far as the program uses it *)

Module Py.

Definition str := list N.

(** An ASCII literal of the source, as code points. *)
Definition lit (s : string) : str :=
  (λ a, N_of_ascii a) <$> list_ascii_of_string s.

Definition between (lo hi c : N) : bool := (lo <=? c) && (c <=? hi).

(** [str.isspace] on one character, which is also the class [\s] of [re]
    on [str] patterns (Unicode 14.0, the table of CPython 3.11). *)
Definition isspace (c : N) : bool :=
  between 9 13 c || between 28 32 c || (c =? 133) || (c =? 160)
  || (c =? 5760) || between 8192 8202 c || (c =? 8232) || (c =? 8233)
  || (c =? 8239) || (c =? 8287) || (c =? 12288).

(** The code points of digit zero of every decimal-digit block (category Nd,
    Unicode 14.0); each block is ten consecutive code points. *)
Definition decimal_zeros : list N :=
  [ 48; 1632; 1776; 1984; 2406; 2534; 2662; 2790; 2918; 3046; 3174; 3302;
    3430; 3558; 3664; 3792; 3872; 4160; 4240; 6112; 6160; 6470; 6608; 6784;
    6800; 6992; 7088; 7232; 7248; 42528; 43216; 43264; 43472; 43504; 43600;
    44016; 65296; 66720; 68912; 69734; 69872; 69942; 70096; 70384; 70736;
    70864; 71248; 71360; 71472; 71904; 72016; 72784; 73040; 73120; 92768;
    92864; 93008; 120782; 120792; 120802; 120812; 120822; 123200; 123632;
    125264; 130032 ].

(** [unicodedata.decimal]: the value of a decimal digit. *)
Definition decimal_value (c : N) : option N :=
  (λ z, c - z) <$> List.find (λ z, between z (z + 9) c) decimal_zeros.

(** [str.isdecimal] on one character, the class [\d] of [re]. *)
Definition isdecimal (c : N) : bool :=
  match decimal_value c with Some _ => true | None => false end.

(** The line boundaries of [str.splitlines]. *)
Definition is_linebreak (c : N) : bool :=
  between 10 13 c || between 28 30 c || (c =? 133) || (c =? 8232)
  || (c =? 8233).

(** [s.splitlines(True)]: the lines with their terminators; CR LF is one
    terminator.  [cur] is the current line, reversed. *)
Fixpoint splitlines_from (cur : str) (s : str) : list str :=
  match s with
  | [] => match cur with [] => [] | _ => [rev cur] end
  | c :: s' =>
      if c =? 13 then
        match s' with
        | 10 :: s'' => rev (10 :: 13 :: cur) :: splitlines_from [] s''
        | _ => rev (13 :: cur) :: splitlines_from [] s'
        end
      else if is_linebreak c then rev (c :: cur) :: splitlines_from [] s'
      else splitlines_from (c :: cur) s'
  end.

Definition splitlines (s : str) : list str := splitlines_from [] s.

Fixpoint drop_while (f : N → bool) (s : str) : str :=
  match s with
  | c :: s' => if f c then drop_while f s' else s
  | [] => []
  end.

Fixpoint take_while (f : N → bool) (s : str) : str :=
  match s with
  | c :: s' => if f c then c :: take_while f s' else []
  | [] => []
  end.

Definition lstrip (s : str) : str := drop_while isspace s.
Definition rstrip (s : str) : str := rev (drop_while isspace (rev s)).
(** [s.strip()] *)
Definition strip (s : str) : str := rstrip (lstrip s).

(** [s.rstrip(chars)] for a one-character [chars]. *)
Definition rstrip_char (c : N) (s : str) : str :=
  rev (drop_while (N.eqb c) (rev s)).

(** [s.endswith(c)] for a one-character suffix. *)
Definition endswith_char (c : N) (s : str) : bool :=
  match last s with Some x => x =? c | None => false end.

(** [c in s] for a one-character needle. *)
Definition contains_char (c : N) (s : str) : bool := existsb (N.eqb c) s.

(** [s.split(sep)] for a one-character separator: never an empty list. *)
Fixpoint split (sep : N) (s : str) : list str :=
  match s with
  | [] => [[]]
  | c :: s' =>
      if c =? sep then [] :: split sep s'
      else match split sep s' with
           | p :: ps => (c :: p) :: ps
           | [] => [[c]]
           end
  end.

(** *** Integers and text *)

(** Decimal digits of a natural number, most significant first. *)
Fixpoint dec_digits (fuel : nat) (n : N) : list N :=
  match fuel with
  | O => []
  | S f => if n <? 10 then [n] else dec_digits f (n / 10) ++ [n mod 10]
  end.

Definition digit_char (d : N) : N := 48 + d.

Definition str_of_N (n : N) : str :=
  digit_char <$> dec_digits (S (N.to_nat (N.log2 n))) n.

(** [str(n)] for a list length or an index: these fit a machine word, far
    below the conversion limit of [int_max_str_digits]. *)
Definition str_of_nat (n : nat) : str := str_of_N (N.of_nat n).

(** CPython's default limit on the digits of an [int] converted from or to
    decimal text ([sys.int_info.default_max_str_digits]). *)
Definition int_max_str_digits : N := 4300.

(** [str(z)] for an arbitrary [int]: fails (ValueError) beyond the limit. *)
Definition str_of_int (z : Z) : option str :=
  let ds := str_of_N (Z.abs_N z) in
  if int_max_str_digits <? N.of_nat (length ds) then None
  else Some (if (z <? 0)%Z then 45 :: ds else ds).

(** The white space of C's [Py_ISSPACE], used by the integer parser. *)
Definition c_isspace (c : N) : bool := between 9 13 c || (c =? 32).

Definition is_ascii_digit (c : N) : bool := between 48 57 c.

(** [int] first maps every non-ASCII white space to a blank and every
    non-ASCII decimal digit to its ASCII digit; other non-ASCII characters
    make the literal invalid. *)
Definition to_ascii (c : N) : option N :=
  if c <? 127 then Some c
  else if isspace c then Some 32
  else digit_char <$> decimal_value c.

(** Digits and underscores: it starts and ends with a digit and has no two
    underscores in a row. *)
Fixpoint digits_ok (prev_us : bool) (tok : str) : bool :=
  match tok with
  | [] => negb prev_us
  | c :: tok' =>
      if c =? 95 then negb prev_us && digits_ok true tok'
      else digits_ok false tok'
  end.

Definition digits_value (ds : str) : N :=
  fold_left (λ acc c, 10 * acc + (c - 48)) ds 0.

(** An optional sign: whether it is a minus, and the text after it. *)
Definition split_sign (s : str) : bool * str :=
  match s with
  | 45 :: r => (true, r)
  | 43 :: r => (false, r)
  | _ => (false, s)
  end.

Definition int_of_ascii (s : str) : option Z :=
  let s1 := drop_while c_isspace s in
  let '(neg, s2) := split_sign s1 in
  let is_tok := λ c, is_ascii_digit c || (c =? 95) in
  let tok := take_while is_tok s2 in
  let s3 := drop_while is_tok s2 in
  let ds := List.filter is_ascii_digit tok in
  match tok with
  | [] => None
  | c :: _ =>
      if (c =? 95) || negb (digits_ok false tok) then None
      else if negb (forallb c_isspace s3) then None
      else if int_max_str_digits <? N.of_nat (length ds) then None
      else
        let v := Z.of_N (digits_value ds) in
        Some (if neg then (- v)%Z else v)
  end.

(** [int(s)] for a [str] in base ten: [None] stands for ValueError. *)
Definition int_of_str (s : str) : option Z :=
  mapM to_ascii s ≫= int_of_ascii.

End Py.

(** ** Regular expressions: the backtracking matcher of [re.match]

    The patterns of the program are sequences of literal characters, greedy
    repetitions of one character class, anchors and capture groups that do
    not nest; a pattern is the list of these instructions. *)

Module Re.

Inductive instr :=
| Chr (c : N)            (* a literal character *)
| Star (cls : N → bool)  (* x*, greedy *)
| Plus (cls : N → bool)  (* x+, greedy *)
| Bol                    (* ^ *)
| Eol                    (* $ *)
| Open                   (* ( *)
| Close.                 (* ) *)

Definition pattern := list instr.

(** [.] without DOTALL: anything but a line feed. *)
Definition dot (c : N) : bool := negb (c =? 10).

(** Greedy repetition: take one more character when the class allows it and
    the rest of the pattern matches after it, otherwise go on from here.
    [seen] is the consumed text, reversed. *)
Fixpoint star {R} (cls : N → bool) (k : Py.str → Py.str → option R)
    (seen rest : Py.str) : option R :=
  match rest with
  | c :: rest' =>
      if cls c then
        match star cls k (c :: seen) rest' with
        | Some r => Some r
        | None => k seen rest
        end
      else k seen rest
  | [] => k seen rest
  end.

(** [opens] holds the start offsets of the groups that are open; [caps] the
    texts of the closed groups, last closed first. *)
Fixpoint run (p : pattern) (opens : list nat) (caps : list Py.str)
    (seen rest : Py.str) {struct p} : option (list Py.str) :=
  match p with
  | [] => Some (rev caps)
  | Chr c :: p' =>
      match rest with
      | x :: rest' => if x =? c then run p' opens caps (x :: seen) rest' else None
      | [] => None
      end
  | Star cls :: p' => star cls (run p' opens caps) seen rest
  | Plus cls :: p' =>
      match rest with
      | x :: rest' =>
          if cls x then star cls (run p' opens caps) (x :: seen) rest' else None
      | [] => None
      end
  | Bol :: p' => match seen with [] => run p' opens caps seen rest | _ => None end
  | Eol :: p' =>
      match rest with
      | [] | [10] => run p' opens caps seen rest
      | _ => None
      end
  | Open :: p' => run p' (length seen :: opens) caps seen rest
  | Close :: p' =>
      match opens with
      | o :: opens' =>
          run p' opens' (rev (take (length seen - o) seen) :: caps) seen rest
      | [] => None
      end
  end.

(** [pattern.match(s)]: the groups of the match at the start of [s]. *)
Definition re_match (p : pattern) (s : Py.str) : option (list Py.str) :=
  run p [] [] [] s.

(** [m.group(n)], for [n >= 1]. *)
Definition group (n : nat) (caps : list Py.str) : Py.str :=
  default [] (caps !! pred n).

Definition chars (s : string) : pattern := Chr <$> Py.lit s.

End Re.

(** ** Exceptions and results *)

Inductive exn :=
| ValueError (msg : string)
| RuntimeError (msg : string)
| IndexError
| FileNotFoundError
| FileExistsError
| IsADirectoryError
| NotADirectoryError
| PermissionError
| UnicodeEncodeError
| OSError.

Inductive result (A : Type) :=
| Ok (a : A)
| Raise (e : exn).
Arguments Ok {A} a.
Arguments Raise {A} e.

#[global] Instance result_ret : MRet result := λ A a, Ok a.
#[global] Instance result_bind : MBind result := λ A B k r,
  match r with Ok a => k a | Raise e => Raise e end.

(** ** The file system *)

Module Fs.
Import Py.

(** A path is the list of its components, outermost first. *)
Definition path := list str.

Inductive node :=
| File (data : str)
| Dir
| Symlink (target : path).

Abbreviation fs := (gmap path node).

(** [p.parent] and [p.name] *)
Definition parent (p : path) : path := take (length p - 1) p.
Definition name (p : path) : str := default [] (last p).
(** [p.with_name(n)] *)
Definition with_name (p : path) (n : str) : path := parent p ++ [n].
(** [str(p)] of a Windows path *)
Fixpoint path_str (p : path) : str :=
  match p with
  | [] => []
  | [c] => c
  | c :: p' => c ++ 92 :: path_str p'
  end.

(** The entry at a path, links not followed; the root is a directory. *)
Definition lstat (σ : fs) (p : path) : option node :=
  match p with [] => Some Dir | _ => σ !! p end.

(** The system follows at most this many links. *)
Definition link_fuel : nat := 40.

Fixpoint resolve (fuel : nat) (σ : fs) (p : path) : option path :=
  match lstat σ p with
  | Some (Symlink t) =>
      match fuel with O => None | S f => resolve f σ t end
  | _ => Some p
  end.

(** The entry at a path, links followed. *)
Definition stat (σ : fs) (p : path) : option node :=
  resolve link_fuel σ p ≫= lstat σ.

(** [p.exists()], [p.is_dir()], [p.is_file()], [p.is_symlink()] *)
Definition exists_ (σ : fs) (p : path) : bool :=
  match stat σ p with Some _ => true | None => false end.
Definition is_dir (σ : fs) (p : path) : bool :=
  match stat σ p with Some Dir => true | _ => false end.
Definition is_file (σ : fs) (p : path) : bool :=
  match stat σ p with Some (File _) => true | _ => false end.
Definition is_symlink (σ : fs) (p : path) : bool :=
  match lstat σ p with Some (Symlink _) => true | _ => false end.

(** Programs that act on the file system and may raise. *)
Definition io (A : Type) : Type := fs → fs * result A.

Definition pure {A} (a : A) : io A := λ σ, (σ, Ok a).
#[global] Instance io_ret : MRet io := @pure.
#[global] Instance io_bind : MBind io := λ A B k c σ,
  match c σ with
  | (σ', Ok a) => k a σ'
  | (σ', Raise e) => (σ', Raise e)
  end.
Definition raise {A} (e : exn) : io A := λ σ, (σ, Raise e).
(** [try: c  except Exception: h] *)
Definition catch {A} (c : io A) (h : exn → io A) : io A :=
  λ σ, match c σ with
       | (σ', Ok a) => (σ', Ok a)
       | (σ', Raise e) => h e σ'
       end.
Definition get {A} (f : fs → A) : io A := λ σ, (σ, Ok (f σ)).
Definition lift {A} (r : result A) : io A := λ σ, (σ, r).

(** [p.read_text()] *)
Definition read_text (p : path) : io str :=
  λ σ, match stat σ p with
       | Some (File d) => (σ, Ok d)
       | Some Dir => (σ, Raise IsADirectoryError)
       | _ => (σ, Raise FileNotFoundError)
       end.

(** [p.write_text(data)]: creates or truncates the file a link chain ends
    at; the directory it lies in must exist. *)
Definition write_text (p : path) (data : str) : io unit :=
  λ σ, match resolve link_fuel σ p with
       | None => (σ, Raise OSError)
       | Some q =>
           match lstat σ q with
           | Some (File _) => (<[q := File data]> σ, Ok ())
           | Some _ => (σ, Raise IsADirectoryError)
           | None =>
               if is_dir σ (parent q) then (<[q := File data]> σ, Ok ())
               else (σ, Raise FileNotFoundError)
           end
       end.

(** [p.mkdir(parents=True, exist_ok=True)], one component after another. *)
Fixpoint mkdir_from (base : path) (comps : list str) : io unit :=
  λ σ, match comps with
       | [] => (σ, Ok ())
       | c :: cs =>
           let d := base ++ [c] in
           match lstat σ d with
           | None => mkdir_from d cs (<[d := Dir]> σ)
           | Some _ =>
               if is_dir σ d then mkdir_from d cs σ
               else (σ, Raise match cs with
                              | [] => FileExistsError
                              | _ => NotADirectoryError
                              end)
           end
       end.
Definition mkdir_parents (p : path) : io unit := mkdir_from [] p.

(** [p.unlink(missing_ok)]: removes a file or a link, never a directory. *)
Definition unlink (missing_ok : bool) (p : path) : io unit :=
  λ σ, match lstat σ p with
       | None => (σ, if missing_ok then Ok () else Raise FileNotFoundError)
       | Some Dir => (σ, Raise PermissionError)
       | Some _ => (delete p σ, Ok ())
       end.

Definition has_children (σ : fs) (p : path) : bool :=
  bool_decide (∃ q, q ∈ dom σ ∧ p `prefix_of` q ∧ q ≠ p).

(** [os.rmdir]: removes an empty directory (on Windows also a directory
    link). *)
Definition rmdir (p : path) : io unit :=
  λ σ, match σ !! p with
       | None => (σ, Raise FileNotFoundError)
       | Some (File _) => (σ, Raise NotADirectoryError)
       | Some Dir =>
           if has_children σ p then (σ, Raise OSError) else (delete p σ, Ok ())
       | Some (Symlink _) => (delete p σ, Ok ())
       end.

(** [shutil.rmtree(p, ignore_errors=False)]: the directory and all below. *)
Definition rmtree (p : path) : io unit :=
  λ σ, match lstat σ p with
       | Some Dir => (filter (λ e, ¬ p `prefix_of` e.1) σ, Ok ())
       | Some _ => (σ, Raise NotADirectoryError)
       | None => (σ, Raise FileNotFoundError)
       end.

(** Moving a directory takes everything below it along. *)
Definition relocate (a b : path) (σ : fs) : fs :=
  let moved q := if bool_decide (a `prefix_of` q)
                 then b ++ drop (length a) q else q in
  list_to_map (prod_map moved id <$> map_to_list σ).

(** [a.rename(b)] on Windows: never replaces an existing entry. *)
Definition rename (a b : path) : io unit :=
  λ σ, match σ !! a with
       | None => (σ, Raise FileNotFoundError)
       | Some n =>
           if bool_decide (is_Some (σ !! b)) then (σ, Raise FileExistsError)
           else if negb (is_dir σ (parent b)) then (σ, Raise FileNotFoundError)
           else match n with
                | Dir => (relocate a b σ, Ok ())
                | _ => (<[b := n]> (delete a σ), Ok ())
                end
       end.

End Fs.

(** ** The clock *)

Record datetime := {
  year : N; month : N; day : N;
  hour : N; minute : N; second : N; microsecond : N
}.

(** A number in decimal, padded with zeros to a width. *)
Definition zpad (w : nat) (n : N) : Py.str :=
  let s := Py.str_of_N n in replicate (w - length s) 48 ++ s.

(** [now.strftime("%Y%m%d_%H%M%S")] *)
Definition strftime_seconds (t : datetime) : Py.str :=
  zpad 4 (year t) ++ zpad 2 (month t) ++ zpad 2 (day t) ++ [95]
  ++ zpad 2 (hour t) ++ zpad 2 (minute t) ++ zpad 2 (second t).

(** [now.strftime("%Y%m%d_%H%M%S_%f")] *)
Definition strftime_micros (t : datetime) : Py.str :=
  strftime_seconds t ++ [95] ++ zpad 6 (microsecond t).

(** ** Parsing and writing *)

Import Py Re.

Definition STREAM_RE : pattern :=
  [Bol; Star isspace] ++ chars "stream_data[" ++ [Open; Plus isdecimal; Close]
  ++ [Chr 93; Star isspace; Chr 58; Star isspace; Chr 34]
  ++ [Open; Star dot; Close; Chr 34; Star isspace; Eol].

Definition STREAM_COUNT_RE : pattern :=
  [Bol; Open; Star isspace] ++ chars "stream_data"
  ++ [Star isspace; Chr 58; Star isspace; Close]
  ++ [Open; Plus isdecimal; Close; Open; Star isspace; Close; Eol].

Record Station := {
  url : str;
  name : str;
  genre : str;
  language : str;
  bitrate : Z;
  favorite : bool
}.

(** The body of the loop of [parse_live_streams]: the station of a line, or
    [None] where the loop says [continue]. *)
Definition decode_line (line : str) : option Station :=
  match re_match STREAM_RE (rstrip_char 10 line) with
  | None => None
  | Some m =>
      let payload := group 2 m in
      match Py.split 124 payload with
      | [url; name; genre; lang; bitrate; fav] =>
          let bitrate_i := default 0%Z (int_of_str bitrate) in
          Some {| url := strip url;
                  name := strip name;
                  genre := strip genre;
                  language := strip lang;
                  bitrate := bitrate_i;
                  favorite := bool_decide (strip fav = lit "1") |}
      | _ => None
      end
  end.

(** The loop of [parse_live_streams] over [enumerate(lines)], from index
    [i] on: the indexes of the station lines and their stations. *)
Fixpoint scan_lines (i : nat) (lines : list str) : list nat * list Station :=
  match lines with
  | [] => ([], [])
  | line :: rest =>
      let '(idxs, stations) := scan_lines (S i) rest in
      match decode_line line with
      | Some s => (i :: idxs, s :: stations)
      | None => (idxs, stations)
      end
  end.

Definition parse_live_streams (path : Fs.path)
    : Fs.io (list str * list nat * list Station) :=
  found ← Fs.get (λ σ, Fs.exists_ σ path);
  if negb found then Fs.raise (ValueError "File does not exist.") else
  text ← Fs.read_text path;
  let lines := splitlines text in
  let '(station_line_indexes, stations) := scan_lines 0 lines in
  match stations with
  | [] =>
      Fs.raise
        (ValueError "No stream_data[...] station entries found in this file.")
  | _ => Fs.pure (lines, station_line_indexes, stations)
  end.

Definition station_to_line (i : nat) (s : Station) : result str :=
  if existsb (contains_char 124) [url s; name s; genre s; language s]
  then Raise (ValueError "Fields cannot contain the '|' character.")
  else
    match str_of_int (bitrate s) with
    | None => Raise (ValueError "Exceeds the limit for integer string conversion")
    | Some b =>
        let fav := if favorite s then lit "1" else lit "0" in
        Ok (lit "stream_data[" ++ str_of_nat i ++ lit "]: " ++ [34]
            ++ url s ++ [124] ++ name s ++ [124] ++ genre s ++ [124]
            ++ language s ++ [124] ++ b ++ [124] ++ fav ++ [34; 10])
    end.

(** The lines the loop of [_find_trailing_brace_tail_start] steps over. *)
Definition is_tail_line (line : str) : bool :=
  let t := strip line in
  bool_decide (t = []) || bool_decide (t = lit "}").

(** The loop, walking the lines from the last one: how many it steps over. *)
Fixpoint brace_tail_length (reversed_lines : list str) : nat :=
  match reversed_lines with
  | line :: before =>
      if is_tail_line line then S (brace_tail_length before) else O
  | [] => O
  end.

Definition _find_trailing_brace_tail_start (lines : list str) : nat :=
  length lines - brace_tail_length (rev lines).

(** The list after the call, and the flag the call returns. *)
Fixpoint _update_stream_data_count_line (lines : list str) (count : nat)
    : list str * bool :=
  match lines with
  | [] => ([], false)
  | line :: rest =>
      match re_match STREAM_COUNT_RE (rstrip_char 10 line) with
      | None =>
          let '(rest', found) := _update_stream_data_count_line rest count in
          (line :: rest', found)
      | Some m =>
          let prefix := group 1 m in
          let suffix := group 3 m in
          let newline := if endswith_char 10 line then [10] else [] in
          ((prefix ++ str_of_nat count ++ suffix ++ newline) :: rest, true)
      end
  end.

(** [sorted] on indexes. *)
Fixpoint insert_sorted (x : nat) (l : list nat) : list nat :=
  match l with
  | [] => [x]
  | y :: l' => if (x <=? y)%nat then x :: l else y :: insert_sorted x l'
  end.
Definition sorted (l : list nat) : list nat := foldr insert_sorted [] l.

(** [del lines[i]] *)
Definition del_item (i : nat) (lines : list str) : result (list str) :=
  if decide (i < length lines)%nat then Ok (delete i lines) else Raise IndexError.

(** [for i in idxs: del lines[i]] *)
Fixpoint del_items (idxs : list nat) (lines : list str) : result (list str) :=
  match idxs with
  | [] => Ok lines
  | i :: idxs' => lines' ← del_item i lines; del_items idxs' lines'
  end.

(** [lines.insert(i, line)] *)
Definition list_insert_at (i : nat) (line : str) (lines : list str) : list str :=
  take i lines ++ line :: drop i lines.

(** [for offset, line in enumerate(new): lines.insert(first + offset, line)] *)
Fixpoint insert_block (first : nat) (new : list str) (lines : list str)
    : list str :=
  match new with
  | [] => lines
  | line :: new' => insert_block (S first) new' (list_insert_at first line lines)
  end.

(** [[station_to_line(i, s) for i, s in enumerate(stations)]], from index [i]. *)
Fixpoint encode_from (i : nat) (stations : list Station) : result (list str) :=
  match stations with
  | [] => Ok []
  | s :: rest =>
      line ← station_to_line i s;
      lines ← encode_from (S i) rest;
      Ok (line :: lines)
  end.

(** [l[-1].strip() != ""] for a list that is not empty. *)
Definition ends_nonblank (l : list str) : bool :=
  match last l with
  | Some line => negb (bool_decide (strip line = []))
  | None => false
  end.

(** The lines of [write_live_streams] from the encoding of the stations to
    the placement of the new block: the working line sequence, or the
    exception raised on the way. *)
Definition arrange_lines (original_lines : list str)
    (station_line_indexes : list nat) (stations : list Station)
    (strategy : str) : result (list str) :=
  new_station_lines ← encode_from 0 stations;
  let idxs := sorted station_line_indexes in
  lines ← del_items (rev idxs) original_lines;
  if bool_decide (strategy = lit "new_slot") then
    let tail_start := _find_trailing_brace_tail_start lines in
    let prefix := take tail_start lines in
    let tail := drop tail_start lines in
    let prefix := if ends_nonblank prefix then prefix ++ [[10]] else prefix in
    let station_block := new_station_lines in
    let station_block :=
      match tail with
      | t :: _ =>
          if bool_decide (strip t = lit "}") && ends_nonblank station_block
          then station_block ++ [[10]] else station_block
      | [] => station_block
      end in
    Ok (prefix ++ station_block ++ tail)
  else
    match idxs with
    | [] => Raise IndexError
    | first :: _ =>
        let first := Nat.max 0 (Nat.min first (length lines)) in
        Ok (insert_block first new_station_lines lines)
    end.

(** The line sequence that [write_live_streams] joins and writes: the
    working sequence with its count line fixed. *)
Definition rewrite_lines (original_lines : list str)
    (station_line_indexes : list nat) (stations : list Station)
    (strategy : str) : result (list str) :=
  lines ← arrange_lines original_lines station_line_indexes stations strategy;
  Ok (_update_stream_data_count_line lines (length stations)).1.

Definition backup_dir_of (p : Fs.path) : Fs.path :=
  Fs.parent p ++ [lit "live_streams_backup"].

Definition backup_file_of (p : Fs.path) (now : datetime) : Fs.path :=
  backup_dir_of p ++ [Fs.name p ++ lit ".bak_" ++ strftime_seconds now].

Definition write_live_streams (now : datetime) (path : Fs.path)
    (original_lines : list str) (station_line_indexes : list nat)
    (stations : list Station) (strategy : str) : Fs.io Fs.path :=
  let backup_dir := backup_dir_of path in
  Fs.mkdir_parents backup_dir;;
  let backup := backup_file_of path now in
  Fs.write_text backup (concat original_lines);;
  lines ← Fs.lift (rewrite_lines original_lines station_line_indexes
                     stations strategy);
  Fs.write_text path (concat lines);;
  Fs.pure backup.

(** ** Linking *)

Definition _path_exists_any (p : Fs.path) : Fs.io bool :=
  Fs.get (λ σ, Fs.exists_ σ p || Fs.is_symlink σ p).

Definition _remove_path_any (p : Fs.path) : Fs.io unit :=
  found ← _path_exists_any p;
  if negb found then Fs.pure () else
  link ← Fs.get (λ σ, Fs.is_symlink σ p);
  if (link : bool) then
    Fs.catch (Fs.unlink false p)
      (λ e, match e with IsADirectoryError => Fs.rmdir p | _ => Fs.raise e end)
  else
    dir ← Fs.get (λ σ, Fs.is_dir σ p);
    if (dir : bool) then Fs.rmtree p else Fs.unlink false p.

Definition _safe_backup_existing_dest (now : datetime) (dest : Fs.path)
    : Fs.io (option Fs.path) :=
  found ← _path_exists_any dest;
  if negb found then Fs.pure None else
  gone ← Fs.get (λ σ, Fs.is_dir σ dest || Fs.is_symlink σ dest);
  if (gone : bool) then _remove_path_any dest;; Fs.pure None else
  let backup := Fs.with_name dest (Fs.name dest ++ lit ".backup") in
  taken ← _path_exists_any backup;
  let backup :=
    if (taken : bool)
    then Fs.with_name dest (Fs.name dest ++ lit ".backup_" ++ strftime_seconds now)
    else backup in
  Fs.rename dest backup;;
  Fs.pure (Some backup).

(** What [subprocess.run(..., capture_output=True, text=True)] returns. *)
Record CompletedProcess := { stdout : str; stderr : str }.

(** [a or b] on strings *)
Definition str_or (a b : str) : str := match a with [] => b | _ => a end.

Section Elevation.

(** The value of [Path(os.environ.get("TEMP", str(Path.home())))]. *)
Variable temp_dir : Fs.path.
(** [subprocess.run(["powershell", ..., "-Command", ps])]: what the child
    process (and the elevated script it starts) does to the disk, and what
    it prints; it raises when the program cannot be started. *)
Variable powershell : str → Fs.io CompletedProcess.

(** [temp_dir / f"radio_link_{ts}{ext}"] *)
Definition radio_link_file (now : datetime) (ext : str) : Fs.path :=
  temp_dir ++ [lit "radio_link_" ++ strftime_micros now ++ ext].

Definition _mklink_symlink_admin (now : datetime) (dest src : Fs.path)
    : Fs.io (bool * str) :=
  let cmd_file := radio_link_file now (lit ".cmd") in
  let log_file := radio_link_file now (lit ".log") in
  let quoted p := [34] ++ Fs.path_str p ++ [34] in
  let mk_cmd := lit "mklink " ++ quoted dest ++ lit " " ++ quoted src in
  let cmd_contents :=
    lit "@echo off" ++ [10]
    ++ mk_cmd ++ lit " > " ++ quoted log_file ++ lit " 2>&1" ++ [10]
    ++ lit "exit /b %errorlevel%" ++ [10] in
  Fs.write_text cmd_file cmd_contents;;
  let ps := lit "Start-Process -FilePath " ++ quoted cmd_file
            ++ lit " -Verb RunAs -WindowStyle Hidden -Wait" in
  r ← powershell ps;
  have_log ← Fs.get (λ σ, Fs.exists_ σ log_file);
  output ←
    (if (have_log : bool)
     then Fs.catch (text ← Fs.read_text log_file; Fs.pure (strip text))
            (λ _, Fs.pure [])
     else Fs.pure []);
  (* cleanup cmd (keep log for debugging if you want) *)
  Fs.catch (Fs.unlink true cmd_file)
    (λ _, Fs.catch
            (still ← Fs.get (λ σ, Fs.exists_ σ cmd_file);
             if (still : bool) then Fs.unlink false cmd_file else Fs.pure ())
            (λ _, Fs.pure ()));;
  ok ← Fs.get (λ σ, Fs.exists_ σ dest || Fs.is_symlink σ dest);
  if (ok : bool) then Fs.pure (true, str_or output (lit "mklink completed.")) else
  let extra := strip (str_or (stderr r) (str_or (stdout r) [])) in
  let output :=
    match extra, output with
    | _ :: _, _ :: _ => output ++ [10; 10] ++ extra
    | _ :: _, [] => extra
    | [], _ => output
    end in
  Fs.pure (false, str_or output (lit "mklink failed or was canceled.")).

End Elevation.

(** ** The link function *)

(** What [link_live_streams_force_admin_symlink] ends in when no exception
    of the file system passes through it: the pair it returns, or the
    [RuntimeError] it raises, whose text is made at run time. *)
Inductive link_outcome :=
| Linked (backup : option Fs.path) (msg : str)
| Refused (msg : str).

(** The note on the backup that both success messages end in. *)
Definition backup_note (backup : option Fs.path) : str :=
  match backup with
  | Some b =>
      [10] ++ lit "Renamed existing destination to:" ++ [10] ++ Fs.path_str b
  | None => []
  end.

Section Link.

(** [_is_windows()], [p.drive], [s.lower()] and [os.link] are inputs, like
    the temp directory and the child process of the elevated step. *)
Variable is_windows : bool.
Variable drive : Fs.path → str.
Variable lower : str → str.
Variable os_link : Fs.path → Fs.path → Fs.io unit.
Variable temp_dir : Fs.path.
Variable powershell : str → Fs.io CompletedProcess.

(** The condition of the hard-link attempt. *)
Definition same_drive (src_path dest_path : Fs.path) : bool :=
  negb (bool_decide (drive src_path = []))
  && negb (bool_decide (drive dest_path = []))
  && bool_decide (lower (drive src_path) = lower (drive dest_path)).

(** [now] is the clock read by the backup step, [now'] the one read by the
    elevated step. *)
Definition link_live_streams_force_admin_symlink (now now' : datetime)
    (src_path dest_path : Fs.path) : Fs.io link_outcome :=
  if negb is_windows
  then Fs.pure (Refused (lit "This feature is Windows-only.")) else
  src_ok ← Fs.get (λ σ, Fs.exists_ σ src_path && Fs.is_file σ src_path);
  if negb src_ok
  then Fs.pure (Refused (lit "Source file not found or not a file:" ++ [10]
                         ++ Fs.path_str src_path)) else
  Fs.mkdir_parents (Fs.parent dest_path);;
  backup ← _safe_backup_existing_dest now dest_path;
  found ← _path_exists_any dest_path;
  (if (found : bool) then _remove_path_any dest_path else Fs.pure ());;
  hard ← Fs.catch
           (if same_drive src_path dest_path
            then os_link src_path dest_path;;
                 Fs.pure (Some (Linked backup
                                  (lit "Created sync successfully (hardlink)."
                                   ++ backup_note backup)))
            else Fs.pure None)
           (λ _, Fs.pure None);
  match hard with
  | Some outcome => Fs.pure outcome
  | None =>
      r ← _mklink_symlink_admin temp_dir powershell now' dest_path src_path;
      let '(ok, out) := r in
      if (ok : bool)
      then Fs.pure (Linked backup
                      (lit "Created sync successfully (symlink, elevated)."
                       ++ backup_note backup))
      else Fs.pure (Refused
                      (lit "Failed to create symlink (elevated)." ++ [10; 10]
                       ++ lit "Attempted:" ++ [10] ++ lit "mklink "
                       ++ [34] ++ Fs.path_str dest_path ++ [34] ++ lit " "
                       ++ [34] ++ Fs.path_str src_path ++ [34] ++ [10; 10]
                       ++ lit "Output:" ++ [10] ++ out))
  end.

End Link.

(** ** Finding the game files *)

Section Documents.

(** The Documents location that Qt reports ([None] when the call raises or
    gives an empty text), the home directory, [platform.system()] being
    Windows, and [s.lower()] are inputs. *)
Variable qt_docs : option Fs.path.
Variable home : Fs.path.
Variable is_windows : bool.
Variable lower : str → str.

(** The loop that drops the candidates whose lower-case text was seen. *)
Fixpoint unseen (seen : gset str) (cands : list Fs.path) : list Fs.path :=
  match cands with
  | [] => []
  | p :: rest =>
      let key := lower (Fs.path_str p) in
      if bool_decide (key ∈ seen) then unseen seen rest
      else p :: unseen ({[key]} ∪ seen) rest
  end.

Definition _candidate_documents_dirs : Fs.io (list Fs.path) :=
  let cands := match qt_docs with Some p => [p] | None => [] end in
  let cands := cands ++ [home ++ [lit "Documents"]] in
  let one := home ++ [lit "OneDrive"; lit "Documents"] in
  one_exists ← Fs.get (λ σ, Fs.exists_ σ one);
  let cands := if is_windows && one_exists then cands ++ [one] else cands in
  Fs.pure (unseen ∅ cands).

(** The loop of [find_game_file] over the candidates. *)
Fixpoint first_existing (σ : Fs.fs) (game_folder_name : str)
    (docs : list Fs.path) : option Fs.path :=
  match docs with
  | [] => None
  | d :: rest =>
      let p := d ++ [game_folder_name; lit "live_streams.sii"] in
      if Fs.exists_ σ p then Some p
      else first_existing σ game_folder_name rest
  end.

(** [game_folder_name] is one path component, as at the two call sites. *)
Definition find_game_file (game_folder_name : str)
    : Fs.io (option Fs.path) :=
  docs ← _candidate_documents_dirs;
  Fs.get (λ σ, first_existing σ game_folder_name docs).

End Documents.

(** ** Copying the stations of one game to the other *)

(** The body of the [try] block of [OpenPage.copy_stations], its message
    boxes apart: the backup path that [write_live_streams] returns. *)
Definition copy_stations (now : datetime) (src_path dst_path : Fs.path)
    : Fs.io Fs.path :=
  src ← parse_live_streams src_path;
  let '(_, _, src_stations) := src in
  dst ← parse_live_streams dst_path;
  let '(dst_lines, dst_idxs, _) := dst in
  write_live_streams now dst_path dst_lines dst_idxs src_stations
    (lit "in_place").

(** ** The editor: the form, the row moves and the recent files *)

(** [s.startswith(prefix)] *)
Definition startswith (prefix s : str) : bool :=
  bool_decide (take (length prefix) s = prefix).

(** [EditorPage._validate_form], on the texts of the four line edits, the
    value of the spin box and the state of the check box. *)
Definition _validate_form (name_text url_text genre_text lang_text : str)
    (bitrate_value : Z) (fav_checked : bool) : result Station :=
  let name := strip name_text in
  let url := strip url_text in
  let genre := strip genre_text in
  let lang := strip lang_text in
  if bool_decide (url = [])
     || negb (startswith (lit "http://") url || startswith (lit "https://") url)
  then Raise (ValueError "URL missing or must contain http:// or https://.")
  else if contains_char 124 name
  then Raise (ValueError "Name cannot contain the '|' character.")
  else if contains_char 124 url
  then Raise (ValueError "URL cannot contain the '|' character.")
  else if contains_char 124 genre
  then Raise (ValueError "Genre cannot contain the '|' character.")
  else if contains_char 124 lang
  then Raise (ValueError "Language cannot contain the '|' character.")
  else Ok {| url := url; name := name; genre := genre; language := lang;
             bitrate := bitrate_value; favorite := fav_checked |}.

(** [[s for i, s in enumerate(l) if keep(i)]], from index [i] on. *)
Fixpoint pick {A} (keep : nat → bool) (i : nat) (l : list A) : list A :=
  match l with
  | [] => []
  | x :: rest =>
      if keep i then x :: pick keep (S i) rest else pick keep (S i) rest
  end.

(** [StationModel.dropMimeData] from the row numbers read from the MIME
    data on: the new station list, or [None] where the method returns
    [False].  [parent_row] is [parent.row()] when the parent is valid. *)
Definition dropMimeData {A} (stations : list A) (rows : list nat) (row : Z)
    (parent_row : option Z) : option (list A) :=
  let src_rows := sorted (remove_dups rows) in
  match src_rows with
  | [] => None
  | first :: _ =>
      if existsb (λ r, length stations <=? r)%nat src_rows then None else
      let dst := if (row =? -1)%Z
                 then default (Z.of_nat (length stations)) parent_row
                 else row in
      let dst := Z.to_nat (Z.max 0 (Z.min dst (Z.of_nat (length stations)))) in
      if ((first <=? dst) && (dst <=? List.last src_rows first + 1))%nat
      then None else
      let removed_before_dst :=
        length (List.filter (λ r, r <? dst)%nat src_rows) in
      let dst_adj := (dst - removed_before_dst)%nat in
      let in_src i := bool_decide (i ∈ src_rows) in
      let dragged := pick in_src 0 stations in
      let remaining := pick (λ i, negb (in_src i)) 0 stations in
      let dst_adj := Nat.min dst_adj (length remaining) in
      Some (take dst_adj remaining ++ dragged ++ drop dst_adj remaining)
  end.

Section Recent.

(** [str.lower] is an input. *)
Variable lower : str → str.

(** [OpenPage.add_recent] on the stored value ([None]: not a list): the
    list that is stored back. *)
Definition add_recent (stored : option (list str)) (path : str) : list str :=
  let recents := default [] stored in
  let recents := filter (λ p, lower p ≠ lower path) recents in
  take 5 (path :: recents).

End Recent.

(** ** The files as bytes

    [p.read_text(encoding="utf-8", errors="replace")] opens the file in
    text mode and reads all of it: the bytes are decoded as UTF-8, every
    ill-formed sequence giving U+FFFD, and the line ends CR LF and CR become
    LF (universal newlines).  [p.write_text(data, encoding="utf-8")] opens
    the file for writing, which creates or empties it, writes [os.linesep]
    for every LF of the text and encodes the result; a text with a lone
    surrogate cannot be encoded.  In this layer a file of [Fs] holds its
    bytes, and [Fs.read_text] and [Fs.write_text] move them as they are. *)

Module OnDisk.

Definition bytes := list N.

(** *** UTF-8 *)

(** The bytes of one code point; surrogates have none. *)
Definition utf8_char (c : N) : option bytes :=
  if c <? 128 then Some [c]
  else if c <? 2048 then Some [192 + c / 64; 128 + c mod 64]
  else if between 55296 57343 c then None
  else if c <? 65536
  then Some [224 + c / 4096; 128 + c / 64 mod 64; 128 + c mod 64]
  else if c <? 1114112
  then Some [240 + c / 262144; 128 + c / 4096 mod 64; 128 + c / 64 mod 64;
             128 + c mod 64]
  else None.

(** [s.encode("utf-8")]: [None] stands for UnicodeEncodeError. *)
Definition utf8_encode (s : str) : option bytes :=
  (λ parts : list bytes, concat parts) <$> mapM utf8_char s.

(** A sequence that has begun: the number of bytes still to come, the range
    of the next one, and the bits read so far. *)
Definition pending : Type := nat * N * N * N.

(** What a lead byte announces.  The range of the byte after it excludes
    the overlong forms, the surrogates and the code points above U+10FFFF. *)
Definition utf8_lead (b : N) : option pending :=
  if between 194 223 b then Some (1%nat, 128, 191, b - 192)
  else if b =? 224 then Some (2%nat, 160, 191, 0)
  else if b =? 237 then Some (2%nat, 128, 159, 13)
  else if between 225 239 b then Some (2%nat, 128, 191, b - 224)
  else if b =? 240 then Some (3%nat, 144, 191, 0)
  else if b =? 244 then Some (3%nat, 128, 143, 4)
  else if between 241 243 b then Some (3%nat, 128, 191, b - 240)
  else None.

(** A byte where a sequence may begin: the text it gives at once, and the
    sequence it begins. *)
Definition utf8_first (b : N) : str * option pending :=
  if b <? 128 then ([b], None)
  else match utf8_lead b with
       | Some st => ([], Some st)
       | None => ([65533], None)
       end.

(** The decoder with [errors="replace"]: the bytes of a sequence that is
    broken off, by a byte that does not continue it or by the end of the
    data, give one U+FFFD, and the byte that broke it off is looked at
    again. *)
Fixpoint utf8_decode_from (st : option pending) (bs : bytes) : str :=
  match bs with
  | [] => match st with Some _ => [65533] | None => [] end
  | b :: bs' =>
      match st with
      | Some (need, lo, hi, acc) =>
          if between lo hi b then
            let acc := 64 * acc + (b - 128) in
            match need with
            | S (S _ as n) => utf8_decode_from (Some (n, 128, 191, acc)) bs'
            | _ => acc :: utf8_decode_from None bs'
            end
          else 65533 :: (utf8_first b).1 ++ utf8_decode_from (utf8_first b).2 bs'
      | None => (utf8_first b).1 ++ utf8_decode_from (utf8_first b).2 bs'
      end
  end.

(** [b.decode("utf-8", errors="replace")] *)
Definition utf8_decode (bs : bytes) : str := utf8_decode_from None bs.

(** *** Line ends *)

(** Reading with [newline=None]: CR LF and CR become LF.  [after_cr] says
    that the character before was a CR. *)
Fixpoint newlines_from (after_cr : bool) (s : str) : str :=
  match s with
  | [] => []
  | c :: s' =>
      if c =? 13 then 10 :: newlines_from true s'
      else if (c =? 10) && after_cr then newlines_from false s'
      else c :: newlines_from false s'
  end.

Definition universal_newlines (s : str) : str := newlines_from false s.

(** [os.linesep] *)
Definition linesep (windows : bool) : str :=
  if windows then [13; 10] else [10].

(** Writing with [newline=None]: every LF becomes [os.linesep]. *)
Definition translate_newlines (windows : bool) (s : str) : str :=
  s ≫= (λ c, if c =? 10 then linesep windows else [c]).

(** What [read_text] gives for the bytes of a file, and the bytes that
    [write_text] gives a file for a text. *)
Definition text_of (data : bytes) : str :=
  universal_newlines (utf8_decode data).
Definition bytes_of (windows : bool) (text : str) : option bytes :=
  utf8_encode (translate_newlines windows text).

(** *** Reading and writing text *)

(** [p.read_text(encoding="utf-8", errors="replace")] *)
Definition read_text (p : Fs.path) : Fs.io str :=
  data ← Fs.read_text p;
  Fs.pure (text_of data).

(** [p.write_text(data, encoding="utf-8")]: the file is opened, which
    creates or empties it, before the text is encoded. *)
Definition write_text (windows : bool) (p : Fs.path) (data : str)
    : Fs.io unit :=
  Fs.write_text p [];;
  match bytes_of windows data with
  | Some b => Fs.write_text p b
  | None => Fs.raise UnicodeEncodeError
  end.

(** *** The parser and the writer *)

Definition parse_live_streams (path : Fs.path)
    : Fs.io (list str * list nat * list Station) :=
  found ← Fs.get (λ σ, Fs.exists_ σ path);
  if negb found then Fs.raise (ValueError "File does not exist.") else
  text ← read_text path;
  let lines := splitlines text in
  let '(station_line_indexes, stations) := scan_lines 0 lines in
  match stations with
  | [] =>
      Fs.raise
        (ValueError "No stream_data[...] station entries found in this file.")
  | _ => Fs.pure (lines, station_line_indexes, stations)
  end.

Definition write_live_streams (windows : bool) (now : datetime)
    (path : Fs.path) (original_lines : list str)
    (station_line_indexes : list nat) (stations : list Station)
    (strategy : str) : Fs.io Fs.path :=
  let backup_dir := backup_dir_of path in
  Fs.mkdir_parents backup_dir;;
  let backup := backup_file_of path now in
  write_text windows backup (concat original_lines);;
  lines ← Fs.lift (rewrite_lines original_lines station_line_indexes
                     stations strategy);
  write_text windows path (concat lines);;
  Fs.pure backup.

End OnDisk.

(** * Vocabulary of the statements *)

(** ** Vocabulary of the statements *)

(** A text without line boundaries. *)
Definition nobreak (b : str) : Prop := Forall (λ c, is_linebreak c = false) b.

(** A line terminator. *)
Definition eol (t : str) : Prop :=
  t = [13; 10] ∨ ∃ c, t = [c] ∧ is_linebreak c = true.

(** A terminated line, and a line that lacks its terminator. *)
Definition terminated (l : str) : Prop :=
  ∃ b t, l = b ++ t ∧ nobreak b ∧ eol t.
Definition unterminated (l : str) : Prop := l ≠ [] ∧ nobreak l.

(** The lines of a text: all terminated, but possibly the last. *)
Inductive text_lines : list str → Prop :=
| text_lines_nil : text_lines []
| text_lines_last l : unterminated l → text_lines [l]
| text_lines_cons l L : terminated l → text_lines L → text_lines (l :: L).

(** Line sequences that read back line by line when joined: a line that
    lacks its terminator is the last one or is followed by a bare line
    feed. *)
Inductive joinable : list str → Prop :=
| joinable_nil : joinable []
| joinable_cons l L : terminated l → joinable L → joinable (l :: L)
| joinable_last l : unterminated l → joinable [l]
| joinable_fed l L : unterminated l → joinable L → joinable (l :: [10] :: L).

(** Where a greedy repetition over a class has to stop. *)
Definition stops (cls : N → bool) (rest : Py.str) : Prop :=
  match rest with c :: _ => cls c = false | [] => True end.

Ltac compute_lits :=
  repeat match goal with
  | |- context [Py.lit ?s] =>
      let v := eval vm_compute in (Py.lit s) in change (Py.lit s) with v
  | H : context [Py.lit ?s] |- _ =>
      let v := eval vm_compute in (Py.lit s) in change (Py.lit s) with v in H
  end.

(** The lines that are not at one of the given indexes; [i] is the index
    of the first line. *)
Fixpoint lines_except (idxs : list nat) (i : nat) (lines : list str)
    : list str :=
  match lines with
  | [] => []
  | line :: rest =>
      if bool_decide (i ∈ idxs) then lines_except idxs (S i) rest
      else line :: lines_except idxs (S i) rest
  end.

(** A line that is no station line. *)
Definition opaque (line : str) : bool :=
  match decode_line line with Some _ => false | None => true end.

(** A text field that survives the codec: trimmed, and on one line. *)
Definition clean_field (f : str) : Prop := strip f = f ∧ nobreak f.

Definition clean_station (s : Station) : Prop :=
  clean_field (url s) ∧ clean_field (name s) ∧ clean_field (genre s)
  ∧ clean_field (language s).

(** A station with the delimiter in one of its text fields. *)
Definition has_delimiter (s : Station) : Prop :=
  124 ∈ url s ∨ 124 ∈ name s ∨ 124 ∈ genre s ∨ 124 ∈ language s.

(** The count pattern on a line, as [_update_stream_data_count_line]
    applies it. *)
Definition count_match (line : str) : option (list str) :=
  Re.re_match STREAM_COUNT_RE (rstrip_char 10 line).

(** A line with at most one line feed at its end. *)
Definition lf_once (line : str) : Prop :=
  rstrip_char 10 line ++ (if endswith_char 10 line then [10] else []) = line.

(** An entry that is a link. *)
Definition is_link (o : option Fs.node) : Prop :=
  match o with Some (Fs.Symlink _) => True | _ => False end.


(** ** A small disk to run the program on *)

Module Example.

Definition root : Fs.path := [lit "C:"].
Definition dir : Fs.path := [lit "C:"; lit "game"].
Definition file : Fs.path := dir ++ [lit "radio.sii"].

Definition station_line (i payload : string) : str :=
  lit " stream_data[" ++ lit i ++ lit "]: " ++ [34] ++ lit payload ++ [34; 10].

Definition text : str :=
  lit "SiiNunit" ++ [10] ++ lit "{" ++ [10]
  ++ lit " stream_data: 2" ++ [10]
  ++ station_line "0" "http://a.example/s|Alpha|pop|en|128|1"
  ++ station_line "1" "http://b.example/s|Beta|rock|de|-5|0"
  ++ lit "}" ++ [10].

Definition disk : Fs.fs :=
  {[ root := Fs.Dir; dir := Fs.Dir; file := Fs.File text ]}.

(** A file without station lines, and a path that is not there. *)
Definition notes : Fs.path := dir ++ [lit "notes.txt"].
Definition disk_notes : Fs.fs :=
  <[notes := Fs.File (lit "stream_data: 0" ++ [10])]> disk.

Definition now : datetime :=
  {| year := 2024; month := 3; day := 7;
     hour := 9; minute := 5; second := 0; microsecond := 1234 |}.

Definition lines : list str := splitlines text.
Definition idxs : list nat := [3; 4]%nat.

Definition alpha : Station :=
  {| url := lit "http://a.example/s"; name := lit "Alpha"; genre := lit "pop";
     language := lit "en"; bitrate := 128; favorite := true |}.
Definition beta : Station :=
  {| url := lit "http://b.example/s"; name := lit "Beta"; genre := lit "rock";
     language := lit "de"; bitrate := -5; favorite := false |}.
Definition gamma : Station :=
  {| url := lit "http://c.example/s"; name := lit "Gamma"; genre := lit "jazz";
     language := lit "fr"; bitrate := 96; favorite := true |}.
(** [gamma] with a blank before its name, and with a delimiter in it. *)
Definition padded : Station :=
  {| url := url gamma; name := lit " Gamma"; genre := genre gamma;
     language := language gamma; bitrate := 96; favorite := true |}.
Definition piped : Station :=
  {| url := url gamma; name := lit "Ga|mma"; genre := genre gamma;
     language := language gamma; bitrate := 96; favorite := true |}.

Definition in_place : str := lit "in_place".
Definition new_slot : str := lit "new_slot".

(** The disk after [alpha] and [gamma] were written in place, and after
    [padded] was. *)
Definition disk_written : Fs.fs :=
  (write_live_streams now file lines idxs [alpha; gamma] in_place disk).1.
Definition disk_padded : Fs.fs :=
  (write_live_streams now file lines idxs [padded] in_place disk).1.
Definition backup : Fs.path :=
  dir ++ [lit "live_streams_backup"; lit "radio.sii.bak_20240307_090500"].

End Example.

(** ** Disks to link on *)

Module LinkExample.

Definition src : Fs.path := [lit "C:"; lit "ets2"; lit "live_streams.sii"].
Definition dest : Fs.path := [lit "C:"; lit "ats"; lit "live_streams.sii"].
Definition dest_backup : Fs.path :=
  [lit "C:"; lit "ats"; lit "live_streams.sii.backup"].
Definition dest_stamped : Fs.path :=
  [lit "C:"; lit "ats"; lit "live_streams.sii.backup_20240307_090500"].

(** No destination; a file there; a link there; a directory with a file in
    it there; a file there and its [.backup] name taken. *)
Definition bare : Fs.fs :=
  {[ [lit "C:"] := Fs.Dir;
     [lit "C:"; lit "ets2"] := Fs.Dir;
     src := Fs.File Example.text;
     [lit "C:"; lit "ats"] := Fs.Dir ]}.
Definition with_file : Fs.fs := <[dest := Fs.File (lit "old")]> bare.
Definition with_link : Fs.fs := <[dest := Fs.Symlink src]> bare.
Definition with_dir : Fs.fs :=
  <[dest ++ [lit "inner.txt"] := Fs.File (lit "x")]> (<[dest := Fs.Dir]> bare).
Definition with_taken : Fs.fs :=
  <[dest_backup := Fs.File (lit "older")]> with_file.

(** The temp directory, and two child processes: one whose elevated
    script makes the link and writes its log, one that the user declines. *)
Definition temp : Fs.path := [lit "C:"; lit "Temp"].
Definition cmd_file : Fs.path :=
  temp ++ [lit "radio_link_20240307_090500_001234.cmd"].
Definition log_file : Fs.path :=
  temp ++ [lit "radio_link_20240307_090500_001234.log"].
Definition with_temp : Fs.fs := <[temp := Fs.Dir]> bare.
Definition log_text : str :=
  lit "symbolic link created for C:\ats\live_streams.sii" ++ [13; 10].
Definition elevated (ps : str) : Fs.io CompletedProcess :=
  λ σ, (<[log_file := Fs.File log_text]> (<[dest := Fs.Symlink src]> σ),
        Ok {| stdout := []; stderr := [] |}).
Definition declined (ps : str) : Fs.io CompletedProcess :=
  λ σ, (σ, Ok {| stdout := [];
                 stderr := lit "The operation was canceled by the user." |}).
Definition linked : Fs.fs :=
  (_mklink_symlink_admin temp elevated Example.now dest src with_temp).1.

End LinkExample.

(** A station as the parser reads it back: its text fields trimmed. *)
Definition trimmed (s : Station) : Station :=
  {| url := strip (url s); name := strip (name s); genre := strip (genre s);
     language := strip (language s); bitrate := bitrate s;
     favorite := favorite s |}.

(** A station that [station_to_line] can write. *)
Definition encodable (s : Station) : Prop :=
  ¬ has_delimiter s ∧ is_Some (str_of_int (bitrate s)).

(** *** A run of the link function *)

Module LinkRun.

(** The drive as the first component, ASCII lower case, an [os.link] that
    makes the destination a file with the content of the source when the
    destination is free, and one that always fails. *)
Definition drive_of (p : Fs.path) : str := default [] (head p).
Definition lower_ascii (s : str) : str :=
  (λ c, if between 65 90 c then c + 32 else c) <$> s.
Definition hard_link (src dest : Fs.path) : Fs.io unit :=
  λ σ, match Fs.stat σ src, Fs.lstat σ dest with
       | Some (Fs.File d), None => (<[dest := Fs.File d]> σ, Ok ())
       | _, _ => (σ, Raise OSError)
       end.
Definition no_hard_link (src dest : Fs.path) : Fs.io unit := Fs.raise OSError.

(** The disk with a file at the destination and a temp directory, after
    the backup step, after the hard link, and after the elevated step. *)
Definition start : Fs.fs :=
  <[LinkExample.temp := Fs.Dir]> LinkExample.with_file.
Definition after_backup : Fs.fs :=
  (_safe_backup_existing_dest Example.now LinkExample.dest start).1.
Definition after_hard_link : Fs.fs :=
  (hard_link LinkExample.src LinkExample.dest after_backup).1.
Definition after_elevated : Fs.fs :=
  (_mklink_symlink_admin LinkExample.temp LinkExample.elevated Example.now
     LinkExample.dest LinkExample.src after_backup).1.
Definition after_declined : Fs.fs :=
  (_mklink_symlink_admin LinkExample.temp LinkExample.declined Example.now
     LinkExample.dest LinkExample.src after_backup).1.

End LinkRun.

(** Two game files on one disk, and the disk after the stations of the
    first were copied to the second. *)
Module CopyExample.

Definition other_text : str :=
  lit "SiiNunit" ++ [10] ++ lit "{" ++ [10]
  ++ lit " stream_data: 1" ++ [10]
  ++ Example.station_line "0" "http://c.example/s|Gamma|jazz|fr|96|1"
  ++ lit "}" ++ [10].
Definition two_games : Fs.fs :=
  <[LinkExample.dest := Fs.File other_text]> LinkExample.bare.
Definition copied : Fs.fs :=
  (copy_stations Example.now LinkExample.src LinkExample.dest two_games).1.
Definition backup : Fs.path :=
  [lit "C:"; lit "ats"; lit "live_streams_backup";
   lit "live_streams.sii.bak_20240307_090500"].

End CopyExample.


(** The text that [read_text] gives for a file that [write_text] wrote. *)
Definition read_back (windows : bool) (s : str) : str :=
  OnDisk.universal_newlines (OnDisk.translate_newlines windows s).

(** A text that ends where a line ends. *)
Definition closed (s : str) : Prop :=
  s = [] ∨ ∃ c, last s = Some c ∧ is_linebreak c = true.





(** ** Disks of bytes to run the program on *)

Module DiskExample.

(** The example file as [write_text] makes it on Windows, with CR LF at the
    end of each line, and a disk with it. *)
Definition crlf_bytes : OnDisk.bytes :=
  default [] (OnDisk.bytes_of true Example.text).
Definition disk_crlf : Fs.fs :=
  {[ Example.root := Fs.Dir; Example.dir := Fs.Dir;
     Example.file := Fs.File crlf_bytes ]}.
Definition written_crlf : Fs.fs :=
  (OnDisk.write_live_streams true Example.now Example.file Example.lines
     Example.idxs [Example.alpha; Example.gamma] Example.in_place
     disk_crlf).1.

(** The example disk, whose file has LF at the end of each line, after its
    own stations were written back on Windows. *)
Definition written_windows : Fs.fs :=
  (OnDisk.write_live_streams true Example.now Example.file Example.lines
     Example.idxs [Example.alpha; Example.beta] Example.in_place
     Example.disk).1.


(** The example disk after the lines of another document were written to
    its file. *)
Definition other_lines : list str := splitlines CopyExample.other_text.
Definition written_stale : Fs.fs :=
  (OnDisk.write_live_streams false Example.now Example.file other_lines
     [3%nat] [Example.gamma] Example.in_place Example.disk).1.

(** A file that begins with a byte that is no UTF-8, and the disk after
    its own document was written back. *)
Definition bad_bytes : OnDisk.bytes := 255 :: Example.text.
Definition bad_lines : list str := splitlines (OnDisk.text_of bad_bytes).
Definition disk_bad : Fs.fs :=
  {[ Example.root := Fs.Dir; Example.dir := Fs.Dir;
     Example.file := Fs.File bad_bytes ]}.
Definition written_bad : Fs.fs :=
  (OnDisk.write_live_streams false Example.now Example.file bad_lines
     Example.idxs [Example.alpha; Example.beta] Example.in_place
     disk_bad).1.

End DiskExample.

(** A document with two count lines. *)
Module CountExample.

Definition text : str :=
  lit "SiiNunit" ++ [10]
  ++ lit " stream_data: 2" ++ [10]
  ++ Example.station_line "0" "http://a.example/s|Alpha|pop|en|128|1"
  ++ Example.station_line "1" "http://b.example/s|Beta|rock|de|-5|0"
  ++ lit " stream_data: 7" ++ [10]
  ++ lit "}" ++ [10].
Definition lines : list str := splitlines text.
Definition idxs : list nat := [2; 3]%nat.
Definition disk : Fs.fs :=
  {[ Example.root := Fs.Dir; Example.dir := Fs.Dir;
     Example.file := Fs.File text ]}.
Definition written : Fs.fs :=
  (write_live_streams Example.now Example.file lines idxs [Example.gamma]
     Example.in_place disk).1.
Definition written_text : str :=
  lit "SiiNunit" ++ [10]
  ++ lit " stream_data: 1" ++ [10]
  ++ lit "stream_data[0]: " ++ [34]
  ++ lit "http://c.example/s|Gamma|jazz|fr|96|1" ++ [34; 10]
  ++ lit " stream_data: 7" ++ [10]
  ++ lit "}" ++ [10].

End CountExample.

(** What a directory shows of an entry: its kind and, for a link, where it
    points; not the content of a file. *)
Inductive entry_kind :=
| IsFile
| IsDir
| IsLink (target : Fs.path).

Definition kind_of (n : Fs.node) : entry_kind :=
  match n with
  | Fs.File _ => IsFile
  | Fs.Dir => IsDir
  | Fs.Symlink t => IsLink t
  end.

(** A station whose name holds a lone surrogate, which UTF-8 cannot
    encode, and the example disk after the attempt to write it. *)
Module SurrogateExample.

Definition station : Station :=
  {| url := url Example.gamma; name := lit "Ga" ++ [55296];
     genre := genre Example.gamma; language := language Example.gamma;
     bitrate := 96; favorite := true |}.
Definition attempt : Fs.fs * result Fs.path :=
  OnDisk.write_live_streams false Example.now Example.file Example.lines
    Example.idxs [station] Example.in_place Example.disk.

End SurrogateExample.

(** The disk of texts that a disk of bytes is read as: every file with the
    text that [read_text] gives for its bytes. *)
Definition node_text (n : Fs.node) : Fs.node :=
  match n with
  | Fs.File b => Fs.File (OnDisk.text_of b)
  | n => n
  end.
Definition text_view (d : Fs.fs) : Fs.fs := node_text <$> d.

(** * Facts about the runtime *)

Section PyFacts.
Import Py.

Lemma between_true lo hi c : between lo hi c = true ↔ lo ≤ c ∧ c ≤ hi.
Proof. unfold between. rewrite andb_true_iff, !N.leb_le. tauto. Qed.

Lemma between_false lo hi c : between lo hi c = false ↔ c < lo ∨ hi < c.
Proof. unfold between. rewrite andb_false_iff, !N.leb_gt. tauto. Qed.

Lemma is_linebreak_true c :
  is_linebreak c = true ↔
  (10 ≤ c ∧ c ≤ 13) ∨ (28 ≤ c ∧ c ≤ 30) ∨ c = 133 ∨ c = 8232 ∨ c = 8233.
Proof.
  unfold is_linebreak.
  rewrite !orb_true_iff, !between_true, !N.eqb_eq. tauto.
Qed.

Lemma is_linebreak_isspace c : is_linebreak c = true → isspace c = true.
Proof.
  rewrite is_linebreak_true. unfold isspace.
  rewrite !orb_true_iff, !between_true, !N.eqb_eq. lia.
Qed.

Lemma decimal_value_Some c d :
  decimal_value c = Some d →
  ∃ z, In z decimal_zeros ∧ z ≤ c ∧ c ≤ z + 9 ∧ d = c - z.
Proof.
  unfold decimal_value. intros H.
  destruct (List.find _ _) as [z|] eqn:E; [|done].
  apply find_some in E as [Hin Hb]. apply between_true in Hb.
  exists z. simpl in H. injection H as <-. tauto.
Qed.

Lemma decimal_zeros_not_linebreak :
  Forall (λ z, ∀ c, z ≤ c → c ≤ z + 9 → is_linebreak c = false) decimal_zeros.
Proof.
  unfold decimal_zeros.
  repeat (constructor; [intros c H1 H2;
    destruct (is_linebreak c) eqn:E; [apply is_linebreak_true in E; lia | done] |]).
  constructor.
Qed.

Lemma isdecimal_not_linebreak c : isdecimal c = true → is_linebreak c = false.
Proof.
  unfold isdecimal. destruct (decimal_value c) as [d|] eqn:E; [|done].
  intros _. apply decimal_value_Some in E as (z & Hin & H1 & H2 & _).
  pose proof decimal_zeros_not_linebreak as HF.
  rewrite Forall_forall in HF. apply (HF z); [by apply list_elem_of_In | done..].
Qed.

Lemma isdecimal_ascii c : is_ascii_digit c = true → isdecimal c = true.
Proof.
  unfold is_ascii_digit. intros H. unfold isdecimal, decimal_value, decimal_zeros.
  cbn [List.find]. change (48 + 9) with 57. by rewrite H.
Qed.

(** ** Trailing line feeds *)

Lemma rstrip_char_snoc c s : rstrip_char c (s ++ [c]) = rstrip_char c s.
Proof.
  unfold rstrip_char. rewrite rev_app_distr. simpl. by rewrite N.eqb_refl.
Qed.

Lemma rstrip_char_keep c s x : x ≠ c → rstrip_char c (s ++ [x]) = s ++ [x].
Proof.
  intros Hx. unfold rstrip_char. rewrite rev_app_distr. simpl.
  destruct (N.eqb_spec c x) as [->|_]; [done|].
  simpl. by rewrite rev_involutive.
Qed.

Lemma rstrip_char_nil c : rstrip_char c [] = [].
Proof. done. Qed.

(** A text and its trailing run of [c]. *)
Lemma rstrip_char_split c s :
  ∃ k, s = rstrip_char c s ++ replicate k c.
Proof.
  induction s as [|x s IH] using rev_ind.
  - by exists O.
  - destruct (N.eq_dec x c) as [->|Hx].
    + rewrite rstrip_char_snoc. destruct IH as [k IH]. exists (S k).
      rewrite IH at 1. rewrite <- app_assoc. f_equal.
      change [c] with (replicate 1 c). rewrite <- replicate_add.
      by rewrite Nat.add_comm.
    + exists O. rewrite rstrip_char_keep by done. by rewrite app_nil_r.
Qed.

Lemma rstrip_char_last c s : last (rstrip_char c s) ≠ Some c.
Proof.
  induction s as [|x s IH] using rev_ind; [done|].
  destruct (N.eq_dec x c) as [->|Hx].
  - by rewrite rstrip_char_snoc.
  - rewrite rstrip_char_keep by done. rewrite last_snoc. congruence.
Qed.

Lemma rstrip_char_id c s : last s ≠ Some c → rstrip_char c s = s.
Proof.
  destruct s as [|x s _] using rev_ind; [done|].
  rewrite last_snoc. intros H. apply rstrip_char_keep. congruence.
Qed.

Lemma rstrip_char_app c a b :
  last a ≠ Some c → a ≠ [] → ∃ r, rstrip_char c (a ++ b) = a ++ r.
Proof.
  intros Ha Hne. induction b as [|x b IH] using rev_ind.
  - exists []. rewrite !app_nil_r. by apply rstrip_char_id.
  - rewrite app_assoc. destruct (N.eq_dec x c) as [->|Hx].
    + rewrite rstrip_char_snoc. done.
    + rewrite rstrip_char_keep by done. exists (b ++ [x]). by rewrite app_assoc.
Qed.

(** ** Splitting at a separator *)

Lemma split_no_sep sep s :
  contains_char sep s = false → split sep s = [s].
Proof.
  unfold contains_char. induction s as [|x s IH]; simpl; [done|].
  rewrite orb_false_iff. intros [Hx Hs].
  rewrite N.eqb_sym in Hx. rewrite Hx, IH by done. done.
Qed.

Lemma split_app sep a b :
  contains_char sep a = false → split sep (a ++ sep :: b) = a :: split sep b.
Proof.
  unfold contains_char. induction a as [|x a IH]; simpl.
  - intros _. by rewrite N.eqb_refl.
  - rewrite orb_false_iff. intros [Hx Hs].
    rewrite N.eqb_sym in Hx. rewrite Hx, IH by done. done.
Qed.

(** ** Integers and their decimal text *)

Lemma digits_value_snoc ds d :
  digits_value (ds ++ [d]) = 10 * digits_value ds + (d - 48).
Proof. unfold digits_value. by rewrite fold_left_app. Qed.

Lemma dec_digits_digit fuel n : Forall (λ d, d < 10) (dec_digits fuel n).
Proof.
  revert n. induction fuel as [|f IH]; intros n; simpl; [constructor|].
  destruct (N.ltb_spec n 10).
  - by repeat constructor.
  - apply Forall_app. split; [apply IH|]. repeat constructor.
    apply N.mod_lt. lia.
Qed.

Lemma dec_digits_nonempty fuel n : dec_digits (S fuel) n ≠ [].
Proof.
  simpl. destruct (n <? 10); [done|]. by destruct (dec_digits fuel (n / 10)).
Qed.

Lemma dec_digits_value fuel n :
  n < 2 ^ N.of_nat fuel →
  digits_value (digit_char <$> dec_digits fuel n) = n.
Proof.
  revert n. induction fuel as [|f IH]; intros n Hn.
  - change (N.of_nat 0) with 0 in Hn. rewrite N.pow_0_r in Hn.
    assert (n = 0) as -> by lia. done.
  - cbn [dec_digits]. destruct (N.ltb_spec n 10).
    + unfold digits_value, digit_char. cbn [fmap list_fmap fold_left]. lia.
    + rewrite fmap_app. cbn [fmap list_fmap]. rewrite digits_value_snoc, IH.
      * unfold digit_char. rewrite (N.add_comm 48), N.add_sub.
        symmetry. apply N.Div0.div_mod.
      * rewrite Nat2N.inj_succ, N.pow_succ_r' in Hn.
        apply N.Div0.div_lt_upper_bound. lia.
Qed.

Lemma str_of_N_fuel n : n < 2 ^ N.of_nat (S (N.to_nat (N.log2 n))).
Proof.
  rewrite Nat2N.inj_succ, N2Nat.id.
  destruct (N.eq_dec n 0) as [->|Hn]; [done|].
  apply N.log2_spec. lia.
Qed.

Lemma str_of_N_value n : digits_value (str_of_N n) = n.
Proof. apply dec_digits_value, str_of_N_fuel. Qed.

Lemma str_of_N_digits n : Forall (λ c, is_ascii_digit c = true) (str_of_N n).
Proof.
  unfold str_of_N. apply Forall_fmap.
  eapply Forall_impl; [apply dec_digits_digit|].
  intros d Hd. simpl in *. unfold is_ascii_digit, digit_char.
  apply between_true. lia.
Qed.

Lemma str_of_N_nonempty n : str_of_N n ≠ [].
Proof.
  unfold str_of_N. intros H. apply fmap_nil_inv in H.
  by apply dec_digits_nonempty in H.
Qed.

Lemma ascii_digit_facts c :
  is_ascii_digit c = true →
(c <? 127) = true ∧ c_isspace c = false ∧ (c =? 95) = false
  ∧ (c =? 45) = false ∧ (c =? 43) = false ∧ is_linebreak c = false
  ∧ (c =? 124) = false ∧ isspace c = false.
Proof.
  unfold is_ascii_digit. rewrite between_true. intros [H1 H2].
  unfold c_isspace, is_linebreak, isspace.
  rewrite N.ltb_lt, !orb_false_iff, !between_false, !N.eqb_neq. lia.
Qed.

Lemma mapM_to_ascii_digits ds :
  Forall (λ c, is_ascii_digit c = true) ds → mapM to_ascii ds = Some ds.
Proof.
  intros H. apply mapM_Some. induction H as [|c ds Hc _ IH]; constructor; [|done].
  unfold to_ascii. apply ascii_digit_facts in Hc as (-> & _). done.
Qed.

Lemma take_while_all f (s : str) :
  Forall (λ c, f c = true) s → take_while f s = s ∧ drop_while f s = [].
Proof.
  induction 1 as [|c s Hc _ [IH1 IH2]]; simpl; [done|].
  by rewrite Hc, IH1, IH2.
Qed.

Lemma digits_ok_digits ds :
  Forall (λ c, is_ascii_digit c = true) ds → digits_ok false ds = true.
Proof.
  induction 1 as [|c ds Hc _ IH]; simpl; [done|].
  apply ascii_digit_facts in Hc as (_ & _ & -> & _). done.
Qed.

Lemma filter_digits ds :
  Forall (λ c, is_ascii_digit c = true) ds → List.filter is_ascii_digit ds = ds.
Proof.
  induction 1 as [|c ds Hc _ IH]; simpl; [done|]. by rewrite Hc, IH.
Qed.

Lemma split_sign_other c r :
  c ≠ 45 → c ≠ 43 → split_sign (c :: r) = (false, c :: r).
Proof.
  intros H1 H2. unfold split_sign. destruct c as [|p]; [done|].
  do 7 (destruct p as [p|p|]; try done).
Qed.

Lemma int_of_ascii_digits (neg : bool) ds :
  Forall (λ c, is_ascii_digit c = true) ds → ds ≠ [] →
  (int_max_str_digits <? N.of_nat (length ds)) = false →
  int_of_ascii ((if neg then [45] else []) ++ ds)
  = Some (if neg then (- Z.of_N (digits_value ds))%Z else Z.of_N (digits_value ds)).
Proof.
  intros Hds Hne Hlen. destruct ds as [|c ds]; [done|].
  assert (Hc : is_ascii_digit c = true) by by inversion Hds.
  pose proof (ascii_digit_facts c Hc) as (_ & Hsp & Hus & Hm & Hp & _).
  assert (Htok : Forall (λ x, is_ascii_digit x || (x =? 95) = true) (c :: ds)).
  { eapply Forall_impl; [exact Hds|]. intros x Hx. simpl in Hx. by rewrite Hx. }
  apply take_while_all in Htok as [Ht Hd].
  apply N.eqb_neq in Hm, Hp.
  unfold int_of_ascii.
  assert (Hs : split_sign (drop_while c_isspace ((if neg then [45] else []) ++ c :: ds))
               = (neg, c :: ds)).
  { destruct neg; [done|]. cbn [app drop_while]. rewrite Hsp.
    by apply split_sign_other. }
  rewrite Hs. cbv zeta iota beta. rewrite Ht, Hd.
  rewrite Hus, digits_ok_digits, filter_digits, Hlen by done. done.
Qed.

(** Reading back what [str] printed. *)
Lemma int_of_str_of_int z s : str_of_int z = Some s → int_of_str s = Some z.
Proof.
  unfold str_of_int.
  destruct (int_max_str_digits <? _) eqn:Hlen; [done|].
  intros [= <-]. unfold int_of_str.
  pose proof (str_of_N_digits (Z.abs_N z)) as Hds.
  pose proof (str_of_N_nonempty (Z.abs_N z)) as Hne.
  destruct (Z.ltb_spec z 0).
  - assert (Hm : mapM to_ascii (45 :: str_of_N (Z.abs_N z))
                 = Some (45 :: str_of_N (Z.abs_N z))).
    { apply mapM_Some. constructor; [done|]. by apply mapM_Some, mapM_to_ascii_digits. }
    rewrite Hm. cbn [mbind option_bind].
    pose proof (int_of_ascii_digits true _ Hds Hne Hlen) as Hi.
    cbn [app] in Hi. rewrite Hi, str_of_N_value. f_equal. lia.
  - rewrite mapM_to_ascii_digits by done. cbn [mbind option_bind].
    pose proof (int_of_ascii_digits false _ Hds Hne Hlen) as Hi.
    cbn [app] in Hi. rewrite Hi, str_of_N_value. f_equal. lia.
Qed.

(** A negative value needs a minus sign. *)
Lemma int_of_str_negative s z : int_of_str s = Some z → (z < 0)%Z → 45 ∈ s.
Proof.
  unfold int_of_str. destruct (mapM to_ascii s) as [a|] eqn:Ha; [|done].
  simpl. intros Hz Hneg.
  assert (H45 : 45 ∈ a).
  { unfold int_of_ascii in Hz.
    destruct (drop_while c_isspace a) as [|c r] eqn:Hd; [done|].
    assert (Hin : ∀ x, x ∈ drop_while c_isspace a → x ∈ a).
    { clear. induction a as [|y a IH]; simpl; [done|].
      destruct (c_isspace y); intros x Hx; [right; by apply IH | done]. }
    destruct (N.eq_dec c 45) as [->|Hc].
    - apply Hin. rewrite Hd. by left.
    - exfalso.
      assert (Hsign : ∃ s2, split_sign (c :: r) = (false, s2)).
      { destruct (N.eq_dec c 43) as [->|Hc']; [by eexists|].
        eexists. by apply split_sign_other. }
      destruct Hsign as [s2 Hs]. rewrite Hs in Hz. cbv zeta iota beta in Hz.
      destruct (take_while _ s2); [done|].
      repeat match type of Hz with
             | (if ?b then _ else _) = _ => destruct b; [done|]
             end.
      injection Hz as <-. lia. }
  apply mapM_Some in Ha. clear Hz.
  induction Ha as [|x y s a Hxy _ IH]; [by apply elem_of_nil in H45|].
  apply elem_of_cons in H45 as [Hy|H45]; [|right; by apply IH].
  assert (x = 45) as ->; [|by left]. subst y.
  unfold to_ascii in Hxy.
  destruct (x <? 127); [congruence|].
  destruct (isspace x); [done|].
  destruct (decimal_value x) as [d|]; [|done]. simpl in Hxy.
  unfold digit_char in Hxy. injection Hxy. lia.
Qed.

End PyFacts.

(** * Lines *)

Section Lines.
Import Py.

Lemma eol_nonempty t : eol t → t ≠ [].
Proof. intros [->|(c & -> & _)]; done. Qed.

Lemma eol_breaks t : eol t → Forall (λ c, is_linebreak c = true) t.
Proof. intros [->|(c & -> & Hc)]; repeat constructor; done. Qed.

Lemma terminated_nonempty l : terminated l → l ≠ [].
Proof.
  intros (b & t & -> & _ & Ht%eol_nonempty) H.
  apply app_eq_nil in H as [_ H]. done.
Qed.

Lemma terminated_lf : terminated [10].
Proof.
  exists [], [10]. split; [done|]. split; [constructor|]. right. by exists 10.
Qed.

Lemma splitlines_from_nobreak cur b s :
  nobreak b → splitlines_from cur (b ++ s) = splitlines_from (rev b ++ cur) s.
Proof.
  intros Hb. revert cur. induction Hb as [|c b Hc _ IH]; intros cur; [done|].
  cbn [app splitlines_from].
  assert ((c =? 13) = false) as ->.
  { apply N.eqb_neq. intros ->. done. }
  rewrite Hc, IH. simpl. by rewrite <- app_assoc.
Qed.

Lemma splitlines_from_eol cur t s :
  eol t → (head s ≠ Some 10 ∨ last t ≠ Some 13) →
  splitlines_from cur (t ++ s) = (rev cur ++ t) :: splitlines s.
Proof.
  intros [->|(c & -> & Hc)] Hs.
  - simpl. by rewrite <- !app_assoc.
  - cbn [app splitlines_from]. destruct (N.eqb_spec c 13) as [->|Hc13].
    + destruct s as [|x s]; [done|].
      destruct (N.eq_dec x 10) as [->|Hx].
      * destruct Hs as [Hs|Hs]; done.
      * assert (∀ A (u v : A), match x :: s with
                               | 10 :: s'' => u | _ => v end = v) as ->; [|done].
        intros. destruct x as [|p]; [done|].
        do 4 (destruct p as [p|p|]; try done).
    + by rewrite Hc.
Qed.

(** A terminated line at the head of a text is its first line... *)
Lemma splitlines_terminated l s :
  terminated l → (head s ≠ Some 10 ∨ last l ≠ Some 13) →
  splitlines (l ++ s) = l :: splitlines s.
Proof.
  intros (b & t & -> & Hb & Ht) Hs. unfold splitlines.
  rewrite <- app_assoc, splitlines_from_nobreak by done.
  rewrite splitlines_from_eol; [by rewrite app_nil_r, rev_involutive|done|].
  destruct Hs as [Hs|Hs]; [by left|right].
  pose proof (eol_nonempty t Ht). destruct t as [|x t] using rev_ind; [done|].
  by rewrite app_assoc, !last_snoc in *.
Qed.

(** ... unless it ends in CR and a line feed follows, which joins it. *)
Lemma splitlines_terminated_fed l s :
  terminated l →
  splitlines (l ++ 10 :: s) = l :: [10] :: splitlines s
  ∨ splitlines (l ++ 10 :: s) = (l ++ [10]) :: splitlines s.
Proof.
  intros Hl. destruct (decide (last l = Some 13)) as [H13|H13].
  - right. destruct Hl as (b & t & -> & Hb & Ht).
    assert (t = [13]) as ->.
    { destruct Ht as [->|(c & -> & Hc)].
      - change [13; 10] with ([13] ++ [10]) in H13.
        by rewrite app_assoc, last_snoc in H13.
      - rewrite last_snoc in H13. congruence. }
    unfold splitlines. rewrite <- !app_assoc, splitlines_from_nobreak by done.
    simpl. by rewrite app_nil_r, rev_involutive, <- !app_assoc.
  - left. rewrite splitlines_terminated by auto.
    done.
Qed.

Lemma splitlines_unterminated l : unterminated l → splitlines l = [l].
Proof.
  intros [Hne Hl]. unfold splitlines.
  rewrite <- (app_nil_r l), splitlines_from_nobreak by done.
  simpl. rewrite app_nil_r. destruct (rev l) eqn:E.
  - apply (f_equal (@rev N)) in E. rewrite rev_involutive in E. done.
  - by rewrite <- E, rev_involutive, app_nil_r.
Qed.

(** One step of [splitlines]: the text is one unterminated line, or a
    terminated line and the rest. *)
Lemma splitlines_from_step s cur :
  (nobreak s ∧ splitlines_from (rev cur) s
               = match cur ++ s with [] => [] | _ => [cur ++ s] end)
  ∨ (∃ b t s', s = b ++ t ++ s' ∧ nobreak b ∧ eol t
       ∧ splitlines_from (rev cur) s = (cur ++ b ++ t) :: splitlines s').
Proof.
  revert cur. induction s as [|c s IH]; intros cur.
  - left. split; [constructor|]. simpl. rewrite app_nil_r.
    destruct cur as [|x cur] using rev_ind; [done|].
    rewrite rev_app_distr. simpl. rewrite rev_involutive.
    by destruct (cur ++ [x]) eqn:E; [apply app_eq_nil in E as [_ ?]|].
  - destruct (is_linebreak c) eqn:Hc.
    + right. destruct (N.eq_dec c 13) as [->|Hc13].
      * destruct s as [|x s].
        { exists [], [13], []. repeat split; [constructor|right; by exists 13|].
          simpl. by rewrite rev_involutive. }
        destruct (N.eq_dec x 10) as [->|Hx].
        { exists [], [13; 10], s. repeat split; [constructor|by left|].
          simpl. by rewrite rev_involutive, <- !app_assoc. }
        exists [], [13], (x :: s). repeat split; [constructor|right; by exists 13|].
        pose proof (splitlines_from_eol (rev cur) [13] (x :: s)) as E.
        cbn [app] in E. rewrite E; [by rewrite rev_involutive| |].
        -- right. by exists 13.
        -- left. simpl. congruence.
      * exists [], [c], s. repeat split; [constructor|right; by exists c|].
        pose proof (splitlines_from_eol (rev cur) [c] s) as E.
        cbn [app] in E. rewrite E; [by rewrite rev_involutive| |].
        -- right. by exists c.
        -- right. simpl. congruence.
    + assert ((c =? 13) = false) as Hc13.
      { apply N.eqb_neq. intros ->. done. }
      cbn [splitlines_from]. rewrite Hc13, Hc.
      specialize (IH (cur ++ [c])). rewrite rev_app_distr in IH. simpl in IH.
      destruct IH as [[Hs IH]|(b & t & s' & -> & Hb & Ht & IH)].
      * left. split; [by constructor|]. rewrite IH, <- app_assoc. done.
      * right. exists (c :: b), t, s'. repeat split; [by constructor|done|].
        rewrite IH, <- !app_assoc. done.
Qed.

Lemma splitlines_step s :
  (s = [] ∧ splitlines s = [])
  ∨ (unterminated s ∧ splitlines s = [s])
  ∨ (∃ l s', s = l ++ s' ∧ terminated l ∧ splitlines s = l :: splitlines s').
Proof.
  destruct (splitlines_from_step s []) as [[Hs H]|(b & t & s' & -> & Hb & Ht & H)].
  - simpl in H. destruct s as [|c s]; [by left|].
    right; left. by repeat split.
  - right; right. exists (b ++ t), s'. rewrite <- app_assoc.
    repeat split; [by exists b, t|done].
Qed.

Lemma splitlines_ind (P : str → Prop) :
  P [] →
  (∀ s, unterminated s → P s) →
  (∀ l s, terminated l → splitlines (l ++ s) = l :: splitlines s → P s → P (l ++ s)) →
  ∀ s, P s.
Proof.
  intros Hnil Hlast Hcons s.
  remember (length s) as n eqn:Hn. revert s Hn.
  induction n as [n IH] using lt_wf_ind. intros s ->.
  destruct (splitlines_step s) as [[-> _]|[[Hs _]|(l & s' & -> & Hl & Hs)]]; auto.
  apply Hcons; [done..|]. apply (IH (length s')); [|done].
  rewrite length_app. apply terminated_nonempty in Hl.
  destruct l; [done|]. simpl. lia.
Qed.

Lemma splitlines_text_lines s : text_lines (splitlines s).
Proof.
  induction s as [|s Hs|l s Hl E IH] using splitlines_ind.
  - constructor.
  - rewrite splitlines_unterminated by done. by constructor.
  - rewrite E. by constructor.
Qed.

(** Joining the lines gives the text back. *)
Lemma concat_splitlines s : concat (splitlines s) = s.
Proof.
  induction s as [|s Hs|l s Hl E IH] using splitlines_ind.
  - done.
  - rewrite splitlines_unterminated by done. simpl. by rewrite app_nil_r.
  - rewrite E. simpl. by rewrite IH.
Qed.

Lemma text_lines_joinable L : text_lines L → joinable L.
Proof. induction 1; by constructor. Qed.

Lemma joinable_app A B : Forall terminated A → joinable B → joinable (A ++ B).
Proof. induction 1; simpl; [done|]. intros. constructor; auto. Qed.

Lemma joinable_terminated A : Forall terminated A → joinable A.
Proof.
  intros. rewrite <- (app_nil_r A). apply joinable_app; [done|constructor].
Qed.

(** A line feed after the lines of a text completes its last line. *)
Lemma text_lines_fed A B :
  text_lines A → joinable B → joinable (A ++ [10] :: B).
Proof.
  induction 1 as [|l Hl|l L Hl _ IH]; intros HB; simpl.
  - constructor; [apply terminated_lf|done].
  - by constructor.
  - constructor; auto.
Qed.

Lemma text_lines_app_inv A B :
  text_lines (A ++ B) → B ≠ [] → Forall terminated A ∧ text_lines B.
Proof.
  intros H HB. induction A as [|l A IH]; simpl in *; [by split|].
  inversion H as [|l' Hl E|l' L Hl HL]; subst.
  - destruct A; [|done]. simpl in *. by subst.
  - destruct (IH HL) as [? ?]. split; [by constructor|done].
Qed.

Lemma text_lines_app_l A B : text_lines (A ++ B) → text_lines A.
Proof.
  destruct (decide (B = [])) as [->|HB]; [by rewrite app_nil_r|].
  intros [H _]%text_lines_app_inv; [|done].
  clear -H. induction H; constructor; auto.
Qed.

Lemma text_lines_filter (f : str → bool) L :
  text_lines L → text_lines (List.filter f L).
Proof.
  assert (HT : ∀ L, Forall terminated L → text_lines L).
  { clear. induction 1; constructor; auto. }
  induction 1 as [|l Hl|l L Hl HL IH]; simpl.
  - constructor.
  - destruct (f l); by constructor.
  - destruct (f l); [by constructor|done].
Qed.

Lemma joinable_nonempty L : joinable L → Forall (λ l, l ≠ []) L.
Proof.
  induction 1 as [|l L Hl _ IH|l [Hl _]|l L [Hl _] _ IH];
    repeat constructor; auto using terminated_nonempty.
Qed.

(** ** Reading a joined line sequence back *)

Section Resplit.
Context {A : Type} (f : str → option A).
Hypothesis f_fed : ∀ l, f (l ++ [10]) = f l.
Hypothesis f_nil : f [] = None.

Lemma f_lf : f [10] = None.
Proof. by rewrite <- (f_fed []) in f_nil. Qed.

Lemma joinable_head_lf l L s :
  joinable (l :: L) → l ++ concat L = 10 :: s → l = [10] ∧ s = concat L.
Proof.
  intros HJ E.
  assert (Hhead : ∀ l, unterminated l → head l ≠ Some 10).
  { intros [|c l'] [? Hl']; [done|]. inversion Hl'; subst. simpl.
    intros [= ->]. done. }
  inversion HJ as [|l' L' Hl _| l' Hl | l' L' Hl _]; subst.
  - destruct Hl as (b & t & -> & Hb & Ht).
    destruct b as [|c b].
    + destruct Ht as [->|(c & -> & Hc)]; simpl in E; [done|].
      injection E as -> ->. done.
    + simpl in E. injection E as -> _. inversion Hb; subst. done.
  - destruct l as [|c l]; [by destruct Hl|].
    injection E as -> _. exfalso. by apply (Hhead _ Hl).
  - destruct l as [|c l]; [by destruct Hl|].
    injection E as -> _. exfalso. by apply (Hhead _ Hl).
Qed.

Lemma omap_resplit L :
  joinable L → omap f (splitlines (concat L)) = omap f L.
Proof.
  remember (length L) as n eqn:Hn. revert L Hn.
  induction n as [n IH] using lt_wf_ind. intros L -> HJ.
  inversion HJ as [|l L' Hl HL| l Hl | l L' Hl HL]; subst.
  - done.
  - simpl. destruct (concat L') as [|c s] eqn:E.
    + assert (L' = []) as ->.
      { apply joinable_nonempty in HL. destruct L' as [|x L']; [done|].
        inversion HL; subst. simpl in E. by apply app_eq_nil in E as [? _]. }
      rewrite app_nil_r.
      rewrite <- (app_nil_r l) at 1.
      rewrite splitlines_terminated; [done|done|by left].
    + destruct (N.eq_dec c 10) as [->|Hc].
      * destruct L' as [|x L'']; [done|]. simpl in E.
        apply joinable_head_lf in E as [-> ->]; [|done].
        assert (HL'' : joinable L'').
        { assert (Hnu : ¬ unterminated [10]).
          { intros [_ Hu]. inversion Hu; subst. done. }
          inversion HL; subst; [done|by exfalso..]. }
        assert (IH' := IH (length L'') ltac:(simpl; lia) L'' eq_refl HL'').
        cbn [omap list_omap]. rewrite f_lf.
        destruct (splitlines_terminated_fed l (concat L'') Hl) as [->| ->];
          cbn [omap list_omap]; rewrite ?f_lf, ?f_fed, IH'; done.
      * rewrite splitlines_terminated; [|done|left; simpl; congruence].
        cbn [omap list_omap]. rewrite <- E.
        by rewrite (IH (length L') ltac:(simpl; lia) L' eq_refl HL).
  - simpl. rewrite app_nil_r, splitlines_unterminated by done. done.
  - assert (IH' := IH (length L') ltac:(simpl; lia) L' eq_refl HL).
    assert (Ht : terminated (l ++ [10])).
    { destruct Hl as [_ Hl]. exists l, [10]. repeat split; [done|].
      right. by exists 10. }
    simpl. change (l ++ 10 :: concat L') with (l ++ [10] ++ concat L').
    rewrite app_assoc, splitlines_terminated; [|done|right; by rewrite last_snoc].
    cbn [omap list_omap]. by rewrite f_fed, f_lf, IH'.
Qed.

End Resplit.

End Lines.

(** * Facts about the matcher *)

Section ReFacts.
Import Py Re.

Implicit Types (p : pattern) (o : list nat) (cs : list str) (pre rest : str).

Lemma capture_rev pre n : rev (take (length (rev pre) - n) (rev pre)) = drop n pre.
Proof.
  rewrite firstn_rev, !length_rev, rev_involutive.
  destruct (decide (n ≤ length pre)%nat).
  - f_equal. lia.
  - rewrite !drop_ge by lia. done.
Qed.

(** ** One instruction at a time *)

Lemma run_nil o cs seen rest : run [] o cs seen rest = Some (rev cs).
Proof. done. Qed.

Lemma run_bol p o cs rest :
  run (Bol :: p) o cs (rev []) rest = run p o cs (rev []) rest.
Proof. done. Qed.

Lemma run_open p o cs pre rest :
  run (Open :: p) o cs (rev pre) rest = run p (length pre :: o) cs (rev pre) rest.
Proof. simpl. by rewrite length_rev. Qed.

Lemma run_close p n o cs pre rest :
  run (Close :: p) (n :: o) cs (rev pre) rest
  = run p o (drop n pre :: cs) (rev pre) rest.
Proof. cbn [run]. by rewrite capture_rev. Qed.

Lemma run_chr c p o cs pre rest :
  run (Chr c :: p) o cs (rev pre) (c :: rest) = run p o cs (rev (pre ++ [c])) rest.
Proof. cbn [run]. by rewrite N.eqb_refl, rev_unit. Qed.

Lemma run_chars l p o cs pre rest :
  run ((Chr <$> l) ++ p) o cs (rev pre) (l ++ rest)
  = run p o cs (rev (pre ++ l)) rest.
Proof.
  revert pre. induction l as [|c l IH]; intros pre.
  - by rewrite app_nil_r.
  - cbn [fmap list_fmap app]. rewrite run_chr, IH, <- app_assoc. done.
Qed.

Lemma run_eol p o cs seen : run (Eol :: p) o cs seen [] = run p o cs seen [].
Proof. done. Qed.

(** ** Greedy repetition, forwards *)

(** The longest run is taken when the pattern matches after it. *)
Lemma star_max {R} cls (k : str → str → option R) pre m rest r :
  Forall (λ c, cls c = true) m → stops cls rest →
  k (rev (pre ++ m)) rest = Some r →
  star cls k (rev pre) (m ++ rest) = Some r.
Proof.
  intros Hm Hrest. revert pre. induction Hm as [|c m Hc _ IH]; intros pre Hk.
  - rewrite app_nil_r in Hk. destruct rest as [|c rest]; [done|].
    simpl in *. by rewrite Hrest.
  - cbn [app star]. rewrite Hc.
    specialize (IH (pre ++ [c])). rewrite rev_unit, <- app_assoc in IH.
    by rewrite IH.
Qed.

(** When the pattern fails after the longest run and matches one
    character earlier, that match is taken. *)
Lemma star_last {R} cls (k : str → str → option R) pre m c r :
  Forall (λ c, cls c = true) m → cls c = true →
  k (rev (pre ++ m ++ [c])) [] = None →
  k (rev (pre ++ m)) [c] = Some r →
  star cls k (rev pre) (m ++ [c]) = Some r.
Proof.
  intros Hm Hc. revert pre. induction Hm as [|x m Hx _ IH]; intros pre Hnone Hk.
  - rewrite app_nil_r in Hk. cbn [app star] in *. rewrite Hc.
    rewrite <- rev_unit. by rewrite Hnone.
  - cbn [app star]. rewrite Hx.
    specialize (IH (pre ++ [x])). rewrite rev_unit, <- !app_assoc in IH.
    by rewrite IH.
Qed.

Lemma run_star_max cls p o cs pre m rest r :
  Forall (λ c, cls c = true) m → stops cls rest →
  run p o cs (rev (pre ++ m)) rest = Some r →
  run (Star cls :: p) o cs (rev pre) (m ++ rest) = Some r.
Proof. intros. cbn [run]. by apply star_max. Qed.

Lemma run_star_last cls p o cs pre m c r :
  Forall (λ c, cls c = true) m → cls c = true →
  run p o cs (rev (pre ++ m ++ [c])) [] = None →
  run p o cs (rev (pre ++ m)) [c] = Some r →
  run (Star cls :: p) o cs (rev pre) (m ++ [c]) = Some r.
Proof. intros. cbn [run]. by apply star_last. Qed.

Lemma run_star_skip cls p o cs pre rest r :
  stops cls rest →
  run p o cs (rev pre) rest = Some r →
  run (Star cls :: p) o cs (rev pre) rest = Some r.
Proof.
  intros Hs Hk. apply (run_star_max cls p o cs pre [] rest r); [constructor|done|].
  by rewrite app_nil_r.
Qed.

Lemma run_plus_max cls p o cs pre m rest r :
  Forall (λ c, cls c = true) m → m ≠ [] → stops cls rest →
  run p o cs (rev (pre ++ m)) rest = Some r →
  run (Plus cls :: p) o cs (rev pre) (m ++ rest) = Some r.
Proof.
  intros Hm Hne Hs Hk. destruct Hm as [|c m Hc Hm]; [done|].
  cbn [app run]. rewrite Hc, <- rev_unit. apply star_max; [done..|].
  by rewrite <- app_assoc.
Qed.

(** ** Greedy repetition, backwards *)

Lemma star_inv {R} cls (k : str → str → option R) pre rest r :
  star cls k (rev pre) rest = Some r →
  ∃ m rest', rest = m ++ rest' ∧ Forall (λ c, cls c = true) m
    ∧ k (rev (pre ++ m)) rest' = Some r.
Proof.
  revert pre. induction rest as [|c rest IH]; intros pre H.
  - exists [], []. rewrite !app_nil_r. repeat split; [constructor|done].
  - cbn [star] in H. destruct (cls c) eqn:Hc.
    + destruct (star cls k (c :: rev pre) rest) as [r'|] eqn:E.
      * injection H as ->. rewrite <- rev_unit in E.
        apply IH in E as (m & rest' & -> & Hm & Hk).
        exists (c :: m), rest'. rewrite <- app_assoc in Hk.
        repeat split; [by constructor|done].
      * exists [], (c :: rest). rewrite !app_nil_r. repeat split; [constructor|done].
    + exists [], (c :: rest). rewrite !app_nil_r. repeat split; [constructor|done].
Qed.

Lemma run_inv_bol p o cs pre rest r :
  run (Bol :: p) o cs (rev pre) rest = Some r →
  pre = [] ∧ run p o cs (rev pre) rest = Some r.
Proof.
  cbn [run]. destruct (rev pre) eqn:E; [|done].
  apply (f_equal (@rev N)) in E. rewrite rev_involutive in E. by subst.
Qed.

Lemma run_inv_chr c p o cs pre rest r :
  run (Chr c :: p) o cs (rev pre) rest = Some r →
  ∃ rest', rest = c :: rest' ∧ run p o cs (rev (pre ++ [c])) rest' = Some r.
Proof.
  cbn [run]. destruct rest as [|x rest]; [done|].
  destruct (N.eqb_spec x c) as [->|]; [|done].
  intros H. exists rest. by rewrite rev_unit.
Qed.

Lemma run_inv_chars l p o cs pre rest r :
  run ((Chr <$> l) ++ p) o cs (rev pre) rest = Some r →
  ∃ rest', rest = l ++ rest' ∧ run p o cs (rev (pre ++ l)) rest' = Some r.
Proof.
  revert pre rest. induction l as [|c l IH]; intros pre rest H.
  - exists rest. by rewrite app_nil_r.
  - cbn [fmap list_fmap app] in H.
    apply run_inv_chr in H as (rest1 & -> & H).
    apply IH in H as (rest' & -> & H). exists rest'.
    by rewrite <- app_assoc in H.
Qed.

Lemma run_inv_star cls p o cs pre rest r :
  run (Star cls :: p) o cs (rev pre) rest = Some r →
  ∃ m rest', rest = m ++ rest' ∧ Forall (λ c, cls c = true) m
    ∧ run p o cs (rev (pre ++ m)) rest' = Some r.
Proof. apply star_inv. Qed.

Lemma run_inv_plus cls p o cs pre rest r :
  run (Plus cls :: p) o cs (rev pre) rest = Some r →
  ∃ m rest', rest = m ++ rest' ∧ Forall (λ c, cls c = true) m ∧ m ≠ []
    ∧ run p o cs (rev (pre ++ m)) rest' = Some r.
Proof.
  cbn [run]. destruct rest as [|c rest]; [done|].
  destruct (cls c) eqn:Hc; [|done]. rewrite <- rev_unit.
  intros (m & rest' & -> & Hm & H)%star_inv.
  exists (c :: m), rest'. rewrite <- app_assoc in H.
  repeat split; [by constructor|done..].
Qed.

Lemma run_inv_eol p o cs seen rest r :
  run (Eol :: p) o cs seen rest = Some r →
  (rest = [] ∨ rest = [10]) ∧ run p o cs seen rest = Some r.
Proof.
  cbn [run]. destruct rest as [|c rest]; [by auto|].
  destruct (N.eq_dec c 10) as [->|Hc].
  - destruct rest; [by auto|done].
  - destruct c as [|q]; [done|]. do 4 (destruct q as [q|q|]; try done).
Qed.

(** ** The two patterns of the program *)

Lemma re_match_unfold p s : re_match p s = run p [] [] (rev []) s.
Proof. done. Qed.

Lemma stream_re_shape s m :
  re_match STREAM_RE s = Some m →
  ∃ ws r, s = ws ++ lit "stream_data[" ++ r
    ∧ Forall (λ c, isspace c = true) ws.
Proof.
  rewrite re_match_unfold. unfold STREAM_RE.
  cbn [app]. intros [_ H]%run_inv_bol.
  apply run_inv_star in H as (ws & r1 & -> & Hws & H).
  apply run_inv_chars in H as (r & -> & _).
  by exists ws, r.
Qed.

(** What a match of the count pattern looks like. *)
Lemma count_re_shape s m :
  re_match STREAM_COUNT_RE s = Some m →
  ∃ ws ws2 ws3 old suf tail,
    m = [ws ++ lit "stream_data" ++ ws2 ++ 58 :: ws3; old; suf]
    ∧ s = (ws ++ lit "stream_data" ++ ws2 ++ 58 :: ws3) ++ old ++ suf ++ tail
    ∧ (tail = [] ∨ tail = [10])
    ∧ Forall (λ c, isspace c = true) ws
    ∧ Forall (λ c, isspace c = true) ws2
    ∧ Forall (λ c, isspace c = true) ws3
    ∧ Forall (λ c, isdecimal c = true) old ∧ old ≠ []
    ∧ Forall (λ c, isspace c = true) suf.
Proof.
  rewrite re_match_unfold. unfold STREAM_COUNT_RE.
  cbn [app]. intros [_ H]%run_inv_bol.
  rewrite run_open in H.
  apply run_inv_star in H as (ws & r1 & -> & Hws & H).
  apply run_inv_chars in H as (r2 & -> & H). cbn [app] in H.
  apply run_inv_star in H as (ws2 & r3 & -> & Hws2 & H).
  apply run_inv_chr in H as (r4 & -> & H).
  apply run_inv_star in H as (ws3 & r5 & -> & Hws3 & H).
  rewrite run_close, run_open in H.
  apply run_inv_plus in H as (old & r6 & -> & Hold & Hne & H).
  rewrite run_close, run_open in H.
  apply run_inv_star in H as (suf & tail & -> & Hsuf & H).
  rewrite run_close in H.
  apply run_inv_eol in H as [Htail H]. rewrite run_nil in H.
  injection H as <-.
  exists ws, ws2, ws3, old, suf, tail.
  rewrite !drop_app_length. cbn [drop rev app].
  repeat split; try done.
  - by rewrite <- !app_assoc.
  - by rewrite <- !app_assoc.
Qed.

(** A line that the station pattern matches is not a count line. *)
Lemma stream_re_not_count s m :
  re_match STREAM_RE s = Some m → re_match STREAM_COUNT_RE s = None.
Proof.
  intros (ws & r & -> & Hws)%stream_re_shape.
  destruct (re_match STREAM_COUNT_RE _) as [m'|] eqn:E; [exfalso|done].
  apply count_re_shape in E
    as (ws' & ws2 & ws3 & old & suf & tail & _ & E & _ & Hws' & Hws2 & _).
  rewrite <- !app_assoc in E.
  assert (Hsame : ∀ (a b : str) x y c,
            Forall (λ c, isspace c = true) a → Forall (λ c, isspace c = true) b →
            isspace c = false → a ++ c :: x = b ++ c :: y → x = y).
  { clear. intros a. induction a as [|c1 a IH]; intros b x y c Ha Hb Hc E.
    - destruct b as [|c2 b]; simpl in E; [congruence|].
      injection E as -> _. inversion Hb; subst. congruence.
    - destruct b as [|c2 b]; simpl in E.
      + injection E as -> _. inversion Ha; subst. congruence.
      + injection E as -> E. inversion Ha; inversion Hb; subst. eauto. }
  compute_lits. cbn [app] in E.
  apply (Hsame _ _ _ _ 115) in E; [|done..].
  assert (E' : 91 :: r = ws2 ++ 58 :: ws3 ++ old ++ suf ++ tail) by congruence.
  destruct Hws2 as [|c ws2 Hc _]; cbn [app] in E'; [done|].
  injection E' as <- _. done.
Qed.

(** The station pattern on a line as [station_to_line] lays it out. *)
Lemma stream_re_encoded digits payload :
  Forall (λ c, isdecimal c = true) digits → digits ≠ [] →
  Forall (λ c, dot c = true) payload →
  re_match STREAM_RE
    (lit "stream_data[" ++ digits ++ lit "]: " ++ [34] ++ payload ++ [34])
  = Some [digits; payload].
Proof.
  intros Hd Hne Hp.
  rewrite re_match_unfold. unfold STREAM_RE.
  cbn [app]. rewrite run_bol.
  apply run_star_skip; [done|].
  unfold chars. rewrite run_chars. cbn [app]. rewrite run_open.
  apply run_plus_max; [done..|].
  rewrite run_close, drop_app_length.
  change (lit "]: ") with [93; 58; 32]. cbn [app].
  rewrite run_chr. apply run_star_skip; [done|]. rewrite run_chr.
  change (32 :: 34 :: payload ++ [34]) with ([32] ++ 34 :: payload ++ [34]).
  apply run_star_max; [by repeat constructor|done|].
  rewrite run_chr, run_open.
  apply run_star_last; [done|done|by rewrite run_close|].
  rewrite run_close, drop_app_length.
  rewrite run_chr. apply run_star_skip; [done|].
  rewrite run_eol, run_nil. done.
Qed.

(** No count line begins like a station line. *)
Lemma count_re_station_line r :
  re_match STREAM_COUNT_RE (lit "stream_data[" ++ r) = None.
Proof. done. Qed.

End ReFacts.

(** * The codec and the parser *)

Section Codec.

Lemma dot_true c : dot c = true ↔ c ≠ 10.
Proof. unfold dot. rewrite negb_true_iff, N.eqb_neq. done. Qed.

Lemma nobreak_dot f : nobreak f → Forall (λ c, dot c = true) f.
Proof.
  intros H. eapply Forall_impl; [exact H|].
  intros c Hc. apply dot_true. intros ->. done.
Qed.

Lemma contains_char_false c s : contains_char c s = false ↔ c ∉ s.
Proof.
  unfold contains_char. induction s as [|x s IH]; simpl.
  - split; [intros _ H; by apply elem_of_nil in H|done].
  - rewrite orb_false_iff, IH, not_elem_of_cons, N.eqb_neq. done.
Qed.

Lemma contains_char_true c s : contains_char c s = true ↔ c ∈ s.
Proof.
  destruct (contains_char c s) eqn:E.
  - split; [intros _|done]. destruct (decide (c ∈ s)) as [|H]; [done|].
    apply contains_char_false in H. congruence.
  - apply contains_char_false in E. split; [done|]. intros; done.
Qed.

Lemma str_of_int_chars z b :
  str_of_int z = Some b →
  Forall (λ c, c = 45 ∨ is_ascii_digit c = true) b.
Proof.
  unfold str_of_int. destruct (_ <? _); [done|]. intros [= <-].
  pose proof (str_of_N_digits (Z.abs_N z)) as H.
  assert (H' : Forall (λ c, c = 45 ∨ is_ascii_digit c = true) (str_of_N (Z.abs_N z))).
  { eapply Forall_impl; [exact H|]. auto. }
  destruct (z <? 0)%Z; [constructor; auto|done].
Qed.

(** What [station_to_line] returns. *)
Lemma station_to_line_Ok i s line :
  station_to_line i s = Ok line →
  ∃ b, str_of_int (bitrate s) = Some b
    ∧ (124 ∉ url s) ∧ (124 ∉ name s) ∧ (124 ∉ genre s) ∧ (124 ∉ language s)
    ∧ line = lit "stream_data[" ++ str_of_nat i ++ lit "]: " ++ [34]
             ++ (url s ++ [124] ++ name s ++ [124] ++ genre s ++ [124]
                 ++ language s ++ [124] ++ b ++ [124]
                 ++ (if favorite s then lit "1" else lit "0"))
             ++ [34; 10].
Proof.
  unfold station_to_line. cbn [existsb].
  destruct (contains_char 124 (url s)) eqn:E1; [done|].
  destruct (contains_char 124 (name s)) eqn:E2; [done|].
  destruct (contains_char 124 (genre s)) eqn:E3; [done|].
  destruct (contains_char 124 (language s)) eqn:E4; [done|].
  cbn [orb]. destruct (str_of_int (bitrate s)) as [b|]; [|done].
  intros [= <-]. exists b. apply contains_char_false in E1, E2, E3, E4.
  repeat split; try done. by rewrite <- !app_assoc.
Qed.

Lemma station_to_line_delimiter i s :
  has_delimiter s →
  station_to_line i s = Raise (ValueError "Fields cannot contain the '|' character.").
Proof.
  unfold has_delimiter, station_to_line. rewrite <- !contains_char_true.
  intros H. cbn [existsb].
  destruct (contains_char 124 (url s)); [done|].
  destruct (contains_char 124 (name s)); [done|].
  destruct (contains_char 124 (genre s)); [done|].
  destruct (contains_char 124 (language s)); [done|].
  destruct H as [|[|[|]]]; done.
Qed.

(** A station line is terminated, ends in one line feed and starts like
    no count line. *)
Lemma station_line_count i s line :
  station_to_line i s = Ok line → count_match line = None.
Proof.
  intros (b & _ & _ & _ & _ & _ & ->)%station_to_line_Ok.
  unfold count_match.
  edestruct (rstrip_char_app 10 (lit "stream_data[")) as [r ->]; [done..|].
  apply count_re_station_line.
Qed.

Lemma strip_fav (b : bool) :
  bool_decide (strip (if b then lit "1" else lit "0") = lit "1") = b.
Proof. by destruct b. Qed.

(** Decoding the line of a clean station gives the station back. *)
Lemma decode_station_line i s line :
  station_to_line i s = Ok line → clean_station s → decode_line line = Some s.
Proof.
  intros (b & Hb & H1 & H2 & H3 & H4 & ->)%station_to_line_Ok
         ([U1 U2] & [N1 N2] & [G1 G2] & [L1 L2]).
  set (payload := url s ++ _).
  assert (Hbc := str_of_int_chars _ _ Hb).
  assert (Hb124 : 124 ∉ b).
  { intros Hin. rewrite Forall_forall in Hbc.
    destruct (Hbc _ Hin) as [?|Hd]; [done|].
    by apply ascii_digit_facts in Hd as (_ & _ & _ & _ & _ & _ & ? & _). }
  assert (Hbdot : Forall (λ c, dot c = true) b).
  { eapply Forall_impl; [exact Hbc|]. intros c [->|Hd]; [done|].
    apply dot_true. intros ->. done. }
  assert (Hpay : Forall (λ c, dot c = true) payload).
  { unfold payload. repeat (apply Forall_app; split);
      try (by apply nobreak_dot); try done; try (by repeat constructor).
    destruct (favorite s); by repeat constructor. }
  unfold decode_line.
  assert (rstrip_char 10
            (lit "stream_data[" ++ str_of_nat i ++ lit "]: " ++ [34] ++ payload ++ [34; 10])
          = lit "stream_data[" ++ str_of_nat i ++ lit "]: " ++ [34] ++ payload ++ [34]) as ->.
  { change [34; 10] with ([34] ++ [10]).
    rewrite !app_assoc, rstrip_char_snoc.
    rewrite rstrip_char_keep by done. done. }
  rewrite stream_re_encoded; [|
    eapply Forall_impl; [apply str_of_N_digits|apply isdecimal_ascii] |
    apply str_of_N_nonempty | done].
  change (group 2 [str_of_nat i; payload]) with payload.
  unfold payload. cbn [app].
  rewrite !split_app by (by apply contains_char_false).
  rewrite split_no_sep by (by destruct (favorite s)).
  rewrite U1, N1, G1, L1, (int_of_str_of_int _ _ Hb), strip_fav.
  by destruct s.
Qed.

End Codec.

(** * The parser's indexes and the writer's list surgery *)

Section Surgery.
Local Open Scope nat_scope.

Lemma scan_lines_stations i lines :
  (scan_lines i lines).2 = omap decode_line lines.
Proof.
  revert i. induction lines as [|l lines IH]; intros i; [done|].
  cbn [scan_lines omap list_omap]. specialize (IH (S i)).
  destruct (scan_lines (S i) lines) as [idxs sts]. simpl in IH.
  destruct (decode_line l); simpl; by rewrite IH.
Qed.

Lemma scan_lines_bounds i lines :
  Forall (λ j, i ≤ j < i + length lines) (scan_lines i lines).1.
Proof.
  revert i. induction lines as [|l lines IH]; intros i; [constructor|].
  cbn [scan_lines]. specialize (IH (S i)).
  destruct (scan_lines (S i) lines) as [idxs sts]. simpl in IH.
  assert (Forall (λ j, i ≤ j < i + length (l :: lines)) idxs).
  { eapply Forall_impl; [exact IH|]. simpl. lia. }
  destruct (decode_line l); simpl; [|done].
  constructor; [simpl; lia|done].
Qed.

Lemma scan_lines_sorted i lines : StronglySorted lt (scan_lines i lines).1.
Proof.
  revert i. induction lines as [|l lines IH]; intros i; [constructor|].
  cbn [scan_lines]. specialize (IH (S i)).
  pose proof (scan_lines_bounds (S i) lines) as Hb.
  destruct (scan_lines (S i) lines) as [idxs sts]. simpl in *.
  destruct (decode_line l); simpl; [|done].
  constructor; [done|]. eapply Forall_impl; [exact Hb|]. simpl. lia.
Qed.

Lemma lines_except_above idxs i lines :
  Forall (λ j, j < i) idxs → lines_except idxs i lines = lines.
Proof.
  intros H. revert i H. induction lines as [|l lines IH]; intros i H; [done|].
  cbn [lines_except]. rewrite bool_decide_eq_false_2.
  - rewrite IH; [done|]. eapply Forall_impl; [exact H|]. simpl. lia.
  - intros Hin. rewrite Forall_forall in H. apply H in Hin. lia.
Qed.

Lemma lines_except_cons_below j idxs i lines :
  j < i → lines_except (j :: idxs) i lines = lines_except idxs i lines.
Proof.
  revert i. induction lines as [|l lines IH]; intros i Hj; [done|].
  cbn [lines_except]. rewrite IH by lia.
  destruct (decide (i ∈ idxs)) as [Hin|Hin].
  - rewrite !bool_decide_eq_true_2; [done..|by right].
  - rewrite !bool_decide_eq_false_2; [done..|].
    rewrite not_elem_of_cons. split; [lia|done].
Qed.

(** The lines off the parser's indexes are those that do not decode. *)
Lemma scan_lines_except i lines :
  lines_except (scan_lines i lines).1 i lines = List.filter opaque lines.
Proof.
  revert i. induction lines as [|l lines IH]; intros i; [done|].
  cbn [scan_lines lines_except List.filter]. specialize (IH (S i)).
  pose proof (scan_lines_bounds (S i) lines) as Hb.
  destruct (scan_lines (S i) lines) as [idxs sts]. simpl in *.
  unfold opaque at 1. destruct (decode_line l); simpl.
  - rewrite bool_decide_eq_true_2 by left.
    rewrite lines_except_cons_below by lia. done.
  - rewrite bool_decide_eq_false_2, IH; [done|].
    intros Hin. rewrite Forall_forall in Hb. apply Hb in Hin. lia.
Qed.

(** The first index is the length of the opaque lines before the first
    station line. *)
Lemma scan_lines_first i lines :
  match (scan_lines i lines).1 with
  | [] => Forall (λ l, opaque l = true) lines
  | first :: _ =>
      ∃ P s R, lines = P ++ s :: R ∧ first = i + length P
        ∧ Forall (λ l, opaque l = true) P ∧ opaque s = false
  end.
Proof.
  revert i. induction lines as [|l lines IH]; intros i; [constructor|].
  cbn [scan_lines]. specialize (IH (S i)).
  destruct (scan_lines (S i) lines) as [idxs sts]. simpl in *.
  destruct (decode_line l) eqn:E; simpl.
  - exists [], l, lines. repeat split; [simpl; lia|constructor|].
    unfold opaque. by rewrite E.
  - assert (Hl : opaque l = true) by (unfold opaque; by rewrite E).
    destruct idxs as [|first idxs]; [by constructor|].
    destruct IH as (P & s & R & -> & -> & HP & Hs).
    exists (l :: P), s, R. repeat split; [simpl; lia|by constructor|done].
Qed.

(** ** Deleting the station lines *)

Lemma insert_sorted_le x l :
  Forall (λ y, x < y) l → insert_sorted x l = x :: l.
Proof.
  destruct 1 as [|y l Hy _]; [done|]. simpl.
  destruct (Nat.leb_spec x y); [done|lia].
Qed.

Lemma sorted_id l : StronglySorted lt l → sorted l = l.
Proof.
  induction 1 as [|x l _ IH Hx]; [done|].
  simpl. fold (sorted l). rewrite IH. by apply insert_sorted_le.
Qed.

Lemma lines_except_delete idxs m k lines :
  Forall (λ j, j < m) idxs → k ≤ m →
  lines_except idxs k (delete (m - k) lines) = lines_except (idxs ++ [m]) k lines.
Proof.
  intros Hidxs. revert k. induction lines as [|l lines IH]; intros k Hk; [done|].
  destruct (decide (k = m)) as [->|Hne].
  - rewrite Nat.sub_diag. change (delete 0 (l :: lines)) with lines.
    cbn [lines_except].
    rewrite bool_decide_eq_true_2 by (apply elem_of_app; right; by left).
    rewrite !lines_except_above; [done| |].
    + apply Forall_app. split; [|repeat constructor].
      eapply Forall_impl; [exact Hidxs|]. simpl. lia.
    + done.
  - replace (m - k) with (S (m - S k)) by lia.
    change (delete (S (m - S k)) (l :: lines)) with (l :: delete (m - S k) lines).
    cbn [lines_except]. rewrite (IH (S k)) by lia.
    destruct (decide (k ∈ idxs)) as [Hin|Hin].
    + rewrite !bool_decide_eq_true_2; [done| |done].
      apply elem_of_app. by left.
    + rewrite !bool_decide_eq_false_2; [done| |done].
      rewrite elem_of_app, list_elem_of_singleton. intros [?|?]; done.
Qed.

(** Deleting from the highest index down leaves the other lines. *)
Lemma del_items_spec idxs lines K :
  StronglySorted lt idxs →
  del_items (rev idxs) lines = Ok K ↔
  Forall (λ j, j < length lines) idxs ∧ K = lines_except idxs 0 lines.
Proof.
  revert lines K. induction idxs as [|m idxs IH] using rev_ind; intros lines K Hs.
  - simpl. rewrite lines_except_above by constructor.
    split; [intros [= ->]; by split|intros [_ ->]; done].
  - assert (Hs' : StronglySorted lt idxs ∧ Forall (λ j, j < m) idxs).
    { clear -Hs. induction idxs as [|x idxs IH]; [by split; constructor|].
      simpl in Hs. inversion Hs as [|? ? Hs1 Hx]; subst.
      destruct (IH Hs1) as [? ?]. apply Forall_app in Hx as [Hx1 Hx2].
      inversion Hx2; subst. split; constructor; auto. }
    destruct Hs' as [Hs1 Hm].
    rewrite rev_unit. cbn [del_items]. unfold del_item.
    destruct (decide (m < length lines)) as [Hlt|Hge].
    + cbn [mbind result_bind]. rewrite IH by done.
      rewrite length_delete by (by apply lookup_lt_is_Some_2).
      pose proof (lines_except_delete idxs m 0 lines Hm ltac:(lia)) as E.
      rewrite Nat.sub_0_r in E. rewrite E.
      rewrite Forall_app, Forall_singleton.
      split; intros [H ->]; (split; [|done]).
      * split; [|done]. eapply Forall_impl; [exact H|]. simpl. lia.
      * eapply Forall_impl; [exact Hm|]. simpl. lia.
    + cbn [mbind result_bind]. split; [done|].
      rewrite Forall_app, Forall_singleton. intros [[_ ?] _]. lia.
Qed.

(** ** Inserting the new block *)

Lemma insert_block_spec first new lines :
  first ≤ length lines →
  insert_block first new lines = take first lines ++ new ++ drop first lines.
Proof.
  revert first lines. induction new as [|l new IH]; intros first lines Hf.
  - simpl. by rewrite take_drop.
  - cbn [insert_block]. unfold list_insert_at. rewrite IH.
    + assert (E : take first lines ++ l :: drop first lines
                  = (take first lines ++ [l]) ++ drop first lines)
        by (by rewrite <- app_assoc).
      rewrite E, take_app_length', drop_app_length'
        by (rewrite length_app, length_take; simpl; lia).
      by rewrite <- app_assoc.
    + rewrite length_app, length_take. simpl. rewrite length_drop. lia.
Qed.

End Surgery.

(** * The working line sequence *)

Section Arrange.
Local Open Scope nat_scope.

Lemma encode_from_Ok i stations new :
  encode_from i stations = Ok new →
  Forall2 (λ s l, ∃ j, station_to_line j s = Ok l) stations new.
Proof.
  revert i new. induction stations as [|s stations IH]; intros i new.
  - intros [= <-]. constructor.
  - cbn [encode_from mbind result_bind].
    destruct (station_to_line i s) as [l|] eqn:El; [|done].
    destruct (encode_from (S i) stations) as [ls|] eqn:Els; [|done].
    intros [= <-]. constructor; eauto.
Qed.

Lemma encode_from_delimiter i stations :
  Exists has_delimiter stations →
  ∃ msg, encode_from i stations = Raise (ValueError msg).
Proof.
  intros H. revert i. induction H as [s stations Hs|s stations _ IH]; intros i.
  - cbn [encode_from mbind result_bind].
    rewrite station_to_line_delimiter by done. eauto.
  - cbn [encode_from mbind result_bind].
    destruct (station_to_line i s) as [l|e] eqn:El.
    + destruct (IH (S i)) as [msg ->]. eauto.
    + unfold station_to_line in El.
      destruct (existsb _ _); [injection El as <-; eauto|].
      destruct (str_of_int _); [done|]. injection El as <-; eauto.
Qed.

(** The loop of [_find_trailing_brace_tail_start] stops after a line that
    is neither blank nor a brace, or at the top. *)
Lemma tail_start_spec K :
  let n := _find_trailing_brace_tail_start K in
  n ≤ length K ∧
  match last (take n K) with
  | Some l => is_tail_line l = false
  | None => take n K = []
  end.
Proof.
  unfold _find_trailing_brace_tail_start.
  induction K as [|x K IH] using rev_ind; [done|].
  rewrite rev_unit, length_app. cbn [brace_tail_length length].
  destruct (is_tail_line x) eqn:Hx.
  - destruct IH as [IH1 IH2].
    replace (length K + 1 - S (brace_tail_length (rev K)))
      with (length K - brace_tail_length (rev K)) by lia.
    split; [lia|]. rewrite take_app_le by lia. done.
  - rewrite Nat.sub_0_r. split; [lia|].
    rewrite firstn_all2 by (rewrite length_app; simpl; lia).
    by rewrite last_snoc.
Qed.

Lemma ends_nonblank_tail_start K :
  let A := take (_find_trailing_brace_tail_start K) K in
  A = [] ∨ ends_nonblank A = true.
Proof.
  intros A. destruct (tail_start_spec K) as [_ H]. fold A in H.
  unfold ends_nonblank. destruct (last A) as [l|]; [right|by left].
  unfold is_tail_line in H. apply orb_false_iff in H as [H _].
  by rewrite H.
Qed.

Lemma ends_nonblank_nil : ends_nonblank [] = false.
Proof. done. Qed.

(** The working sequence: the kept lines, cut in two, with the new station
    lines and at most two bare line feeds in between. *)
Lemma arrange_lines_inv lines idxs stations strategy W :
  StronglySorted lt idxs →
  arrange_lines lines idxs stations strategy = Ok W →
  ∃ new A B S1 S2,
    encode_from 0 stations = Ok new
    ∧ Forall (λ j, j < length lines) idxs
    ∧ lines_except idxs 0 lines = A ++ B
    ∧ W = A ++ S1 ++ new ++ S2 ++ B
    ∧ (S1 = [] ∨ S1 = [[10%N]]) ∧ (S2 = [] ∨ S2 = [[10%N]])
    ∧ (if bool_decide (strategy = lit "new_slot")
       then (A = [] ∨ S1 = [[10%N]]) ∧ (B = [] → S2 = [])
       else S1 = [] ∧ S2 = []
            ∧ ∃ first, head idxs = Some first ∧ A = take first (A ++ B)).
Proof.
  intros Hs. unfold arrange_lines. rewrite (sorted_id idxs Hs).
  destruct (encode_from 0 stations) as [new|] eqn:Enew; [|done].
  cbn [mbind result_bind].
  destruct (del_items (rev idxs) lines) as [K|] eqn:EK; [|done].
  cbn [mbind result_bind].
  apply del_items_spec in EK as [Hlt ->]; [|done].
  set (K := lines_except idxs 0 lines).
  destruct (bool_decide (strategy = lit "new_slot")) eqn:Estr.
  - intros [= <-].
    set (n := _find_trailing_brace_tail_start K).
    pose proof (ends_nonblank_tail_start K) as HA. cbv zeta in HA. fold n in HA.
    exists new, (take n K), (drop n K),
      (if ends_nonblank (take n K) then [[10%N]] else []),
      (match drop n K with
       | t :: _ => if bool_decide (strip t = lit "}") && ends_nonblank new
                   then [[10%N]] else []
       | [] => []
       end).
    rewrite take_drop. repeat split; try done.
    + destruct (ends_nonblank (take n K)); rewrite <- ?app_assoc.
      * f_equal. f_equal. destruct (drop n K) as [|t tl]; [by rewrite app_nil_l|].
        destruct (_ && _); by rewrite <- ?app_assoc.
      * f_equal. cbn [app]. destruct (drop n K) as [|t tl]; [done|].
        destruct (_ && _); by rewrite <- ?app_assoc.
    + destruct (ends_nonblank _); auto.
    + destruct (drop n K) as [|t tl]; [auto|]. destruct (_ && _); auto.
    + destruct HA as [HA|HA]; rewrite HA; auto.
    + by intros ->.
  - destruct idxs as [|first rest]; [done|]. intros [= <-].
    assert (Hf : Nat.min first (length K) ≤ length K) by lia.
    rewrite insert_block_spec by done.
    exists new, (take (Nat.min first (length K)) K),
      (drop (Nat.min first (length K)) K), [], [].
    rewrite take_drop. repeat split; auto.
    exists first. split; [done|].
    destruct (Nat.min_spec first (length K)) as [[_ ->]|[? ->]]; [done|].
    rewrite !firstn_all2 by lia. done.
Qed.

End Arrange.

(** * The count line *)

Section CountLine.

Lemma update_none W n :
  Forall (λ l, count_match l = None) W →
  _update_stream_data_count_line W n = (W, false).
Proof.
  induction 1 as [|l W Hl _ IH]; [done|].
  cbn [_update_stream_data_count_line]. unfold count_match in Hl.
  by rewrite Hl, IH.
Qed.

Lemma update_first l1 line l2 m n :
  Forall (λ l, count_match l = None) l1 → count_match line = Some m →
  _update_stream_data_count_line (l1 ++ line :: l2) n
  = (l1 ++ (group 1 m ++ str_of_nat n ++ group 3 m
            ++ (if endswith_char 10 line then [10] else [])) :: l2, true).
Proof.
  intros H1 Hm. induction H1 as [|l l1 Hl _ IH].
  - cbn [app _update_stream_data_count_line]. unfold count_match in Hm.
    by rewrite Hm.
  - cbn [app _update_stream_data_count_line]. unfold count_match in Hl.
    by rewrite Hl, IH.
Qed.

Lemma count_line_search W :
  Forall (λ l, count_match l = None) W
  ∨ ∃ l1 line l2 m, W = l1 ++ line :: l2
      ∧ Forall (λ l, count_match l = None) l1 ∧ count_match line = Some m.
Proof.
  induction W as [|l W IH]; [left; constructor|].
  destruct (count_match l) as [m|] eqn:E.
  - right. exists [], l, W, m. repeat split; [constructor|done].
  - destruct IH as [IH|(l1 & line & l2 & m & -> & H1 & Hm)].
    + left. by constructor.
    + right. exists (l :: l1), line, l2, m. repeat split; [by constructor|done].
Qed.

(** ** Lines with one line feed *)

Lemma nobreak_no_lf b : nobreak b → last b ≠ Some 10.
Proof.
  intros Hb. destruct b as [|c b _] using rev_ind; [done|].
  rewrite last_snoc. intros [= ->].
  apply Forall_app in Hb as [_ Hb]. inversion Hb; subst. done.
Qed.

Lemma endswith_char_snoc c s x : endswith_char c (s ++ [x]) = (x =? c).
Proof. unfold endswith_char. by rewrite last_snoc. Qed.

Lemma terminated_lf_once l : terminated l → lf_once l.
Proof.
  intros (b & t & -> & Hb & Ht). unfold lf_once.
  destruct Ht as [->|(c & -> & Hc)].
  - change [13; 10] with ([13] ++ [10]). rewrite !app_assoc.
    rewrite endswith_char_snoc, rstrip_char_snoc, rstrip_char_keep by done. done.
  - rewrite endswith_char_snoc. destruct (N.eqb_spec c 10) as [->|Hc10].
    + rewrite rstrip_char_snoc, rstrip_char_id; [done|by apply nobreak_no_lf].
    + rewrite rstrip_char_keep, app_nil_r by done. done.
Qed.

Lemma unterminated_lf_once l : unterminated l → lf_once l.
Proof.
  intros [_ Hl%nobreak_no_lf]. unfold lf_once, endswith_char.
  rewrite rstrip_char_id by done.
  destruct (last l) as [x|]; [|by rewrite app_nil_r].
  destruct (N.eqb_spec x 10) as [->|]; [done|by rewrite app_nil_r].
Qed.

(** ** The parts of a count line *)

Lemma count_line_parts line m :
  count_match line = Some m → lf_once line →
  ∃ ws ws2 ws3 old suf,
    let pre := ws ++ lit "stream_data" ++ ws2 ++ 58 :: ws3 in
    let nl := if endswith_char 10 line then [10] else [] in
    m = [pre; old; suf] ∧ line = pre ++ old ++ suf ++ nl
    ∧ Forall (λ c, isspace c = true) ws
    ∧ Forall (λ c, isspace c = true) ws2
    ∧ Forall (λ c, isspace c = true) ws3
    ∧ Forall (λ c, isdecimal c = true) old ∧ old ≠ []
    ∧ Forall (λ c, isspace c = true) suf.
Proof.
  unfold count_match, lf_once. intros Hm Hline.
  apply count_re_shape in Hm
    as (ws & ws2 & ws3 & old & suf & tail & -> & Hs & Htail & H).
  assert (tail = []) as ->.
  { destruct Htail as [->| ->]; [done|]. exfalso.
    apply (rstrip_char_last 10 line). rewrite Hs.
    by rewrite !app_assoc, last_snoc. }
  rewrite app_nil_r in Hs.
  exists ws, ws2, ws3, old, suf. cbv zeta. split; [done|]. split; [|done].
  rewrite <- Hline at 1. rewrite Hs. by rewrite <- !app_assoc.
Qed.

(** ** Station lines and count lines exclude each other *)

Lemma station_count_clash (ws ws' ws2 r x : str) :
  Forall (λ c, isspace c = true) ws → Forall (λ c, isspace c = true) ws' →
  Forall (λ c, isspace c = true) ws2 →
  ws ++ lit "stream_data[" ++ r ≠ ws' ++ lit "stream_data" ++ ws2 ++ 58 :: x.
Proof.
  intros Hws Hws' Hws2 E.
  assert (Hsame : ∀ (a b : str) x y c,
            Forall (λ c, isspace c = true) a → Forall (λ c, isspace c = true) b →
            isspace c = false → a ++ c :: x = b ++ c :: y → x = y).
  { clear. intros a. induction a as [|c1 a IH]; intros b x y c Ha Hb Hc E.
    - destruct b as [|c2 b]; simpl in E; [congruence|].
      injection E as -> _. inversion Hb; subst. congruence.
    - destruct b as [|c2 b]; simpl in E.
      + injection E as -> _. inversion Ha; subst. congruence.
      + injection E as -> E. inversion Ha; inversion Hb; subst. eauto. }
  compute_lits. cbn [app] in E.
  apply (Hsame _ _ _ _ 115) in E; [|done..].
  assert (E' : 91 :: r = ws2 ++ 58 :: x) by congruence.
  destruct Hws2 as [|c ws2 Hc _]; cbn [app] in E'; [done|].
  injection E' as <- _. done.
Qed.

Lemma count_line_opaque line m : count_match line = Some m → opaque line = true.
Proof.
  unfold count_match, opaque, decode_line. intros Hm.
  destruct (re_match STREAM_RE _) as [m'|] eqn:E; [|done].
  apply stream_re_not_count in E. congruence.
Qed.

(** The rewritten count line is no station line either. *)
Lemma count_rewrite_opaque (ws ws2 ws3 x : str) :
  Forall (λ c, isspace c = true) ws → Forall (λ c, isspace c = true) ws2 →
  opaque (ws ++ lit "stream_data" ++ ws2 ++ 58 :: ws3 ++ x) = true.
Proof.
  intros Hws Hws2. unfold opaque, decode_line.
  destruct (re_match STREAM_RE _) as [m'|] eqn:E; [exfalso|done].
  apply stream_re_shape in E as (ws' & r & E & Hws').
  destruct (rstrip_char_split 10 (ws ++ lit "stream_data" ++ ws2 ++ 58 :: ws3 ++ x))
    as [k Hk].
  rewrite E in Hk. rewrite <- !app_assoc in Hk. symmetry in Hk.
  by apply station_count_clash in Hk.
Qed.

(** ** Replacing a run of characters inside a line *)

Lemma replace_run_terminated (x old new y : str) :
  nobreak old → old ≠ [] → nobreak new →
  terminated (x ++ old ++ y) → terminated (x ++ new ++ y).
Proof.
  intros Hold Hne Hnew (b & t & E & Hb & Ht).
  rewrite app_assoc in E. apply app_eq_inv in E as [(k & Ek & Et)|(k & -> & ->)].
  - destruct k as [|c k _] using rev_ind.
    + rewrite app_nil_r in Ek. simpl in Et. subst t b.
      exists (x ++ new), y. rewrite <- !app_assoc. split; [done|]. split; [|done].
      apply Forall_app in Hb as [Hx _]. by apply Forall_app.
    + exfalso. destruct old as [|d old _] using rev_ind; [done|].
      apply Forall_app in Hold as [_ Hd]. inversion Hd as [|? ? Hd' _]; subst.
      rewrite !app_assoc in Ek. apply app_inj_tail in Ek as [_ ->].
      apply eol_breaks in Ht. apply Forall_app in Ht as [Ht _].
      apply Forall_app in Ht as [_ Ht]. inversion Ht; subst. congruence.
  - exists (x ++ new ++ k), t. rewrite <- !app_assoc. split; [done|]. split; [|done].
    apply Forall_app in Hb as [Hb Hk]. apply Forall_app in Hb as [Hx _].
    repeat (apply Forall_app; split); done.
Qed.

Lemma replace_run_unterminated (x old new y : str) :
  new ≠ [] → nobreak new →
  unterminated (x ++ old ++ y) → unterminated (x ++ new ++ y).
Proof.
  intros Hne Hnew [_ H]. apply Forall_app in H as [Hx H].
  apply Forall_app in H as [_ Hy]. split.
  - destruct x; [|done]. destruct new; done.
  - repeat (apply Forall_app; split); done.
Qed.

Lemma isdecimal_nobreak ds : Forall (λ c, isdecimal c = true) ds → nobreak ds.
Proof.
  intros H. eapply Forall_impl; [exact H|]. apply isdecimal_not_linebreak.
Qed.

Lemma str_of_nat_nobreak n : nobreak (str_of_nat n).
Proof.
  apply isdecimal_nobreak. eapply Forall_impl; [apply str_of_N_digits|].
  apply isdecimal_ascii.
Qed.

(** ** What the update does to a line sequence *)

Lemma update_joinable W n :
  joinable W → joinable (_update_stream_data_count_line W n).1.
Proof.
  assert (Hrw : ∀ line m,
            count_match line = Some m → lf_once line →
            ∃ x old y, line = x ++ old ++ y ∧ nobreak old ∧ old ≠ []
              ∧ group 1 m ++ str_of_nat n ++ group 3 m
                ++ (if endswith_char 10 line then [10] else [])
                = x ++ str_of_nat n ++ y).
  { intros line m Hm Hlf.
    destruct (count_line_parts _ _ Hm Hlf)
      as (ws & ws2 & ws3 & old & suf & -> & E & _ & _ & _ & Hold & Hne & _).
    eexists _, old, _. split; [exact E|].
    split; [by apply isdecimal_nobreak|]. split; [done|]. done. }
  induction 1 as [|l L Hl HL IH|l Hl|l L Hl HL IH];
    cbn [_update_stream_data_count_line];
    try change (re_match STREAM_COUNT_RE (rstrip_char 10 l)) with (count_match l).
  - constructor.
  - destruct (count_match l) as [m|] eqn:Hm.
    + destruct (Hrw l m Hm (terminated_lf_once l Hl))
        as (x & old & y & -> & Hold & Hne & ->). cbn [fst].
      constructor; [|done].
      eapply replace_run_terminated; eauto using str_of_nat_nobreak.
    + destruct (_update_stream_data_count_line L n) as [L' b].
      by constructor.
  - destruct (count_match l) as [m|] eqn:Hm.
    + destruct (Hrw l m Hm (unterminated_lf_once l Hl))
        as (x & old & y & -> & Hold & Hne & ->). cbn [fst].
      apply joinable_last.
      eapply replace_run_unterminated;
        eauto using str_of_nat_nobreak, str_of_N_nonempty.
    + apply joinable_last. done.
  - destruct (count_match l) as [m|] eqn:Hm.
    + destruct (Hrw l m Hm (unterminated_lf_once l Hl))
        as (x & old & y & -> & Hold & Hne & ->). cbn [fst].
      apply joinable_fed; [|done].
      eapply replace_run_unterminated;
        eauto using str_of_nat_nobreak, str_of_N_nonempty.
    + cbn [_update_stream_data_count_line].
      change (re_match STREAM_COUNT_RE (rstrip_char 10 [10])) with (@None (list str)).
      destruct (_update_stream_data_count_line L n) as [L' b].
      by apply joinable_fed.
Qed.

(** The update neither adds nor removes a station. *)
Lemma update_stations W n :
  Forall lf_once W →
  omap decode_line (_update_stream_data_count_line W n).1 = omap decode_line W.
Proof.
  assert (Hop : ∀ l, opaque l = true → decode_line l = None).
  { intros l. unfold opaque. by destruct (decode_line l). }
  intros HW.
  destruct (count_line_search W) as [H|(l1 & line & l2 & m & -> & H1 & Hm)].
  - by rewrite update_none.
  - rewrite (update_first _ _ _ _ _ H1 Hm). cbn [fst].
    apply Forall_app in HW as [_ HW]. inversion HW as [|? ? Hlf _]; subst.
    destruct (count_line_parts _ _ Hm Hlf)
      as (ws & ws2 & ws3 & old & suf & -> & E & Hws & Hws2 & _).
    rewrite !omap_app. f_equal. cbn [omap list_omap].
    rewrite (Hop line) by (by eapply count_line_opaque).
    change (group 1 ?x) with (ws ++ lit "stream_data" ++ ws2 ++ 58 :: ws3).
    rewrite <- !app_assoc. cbn [app].
    rewrite Hop; [done|]. by apply count_rewrite_opaque.
Qed.

End CountLine.

(** * The file system *)

Section FsFacts.
Import Fs.

Implicit Types (σ : fs) (p q : path) (n : node).

Lemma lstat_insert σ q n p :
  q ≠ [] → lstat (<[q := n]> σ) p = if decide (q = p) then Some n else lstat σ p.
Proof.
  intros Hq. unfold lstat. destruct p as [|c p].
  - by rewrite decide_False.
  - rewrite lookup_insert. by destruct (decide (q = c :: p)).
Qed.

Lemma resolve_unfold fuel σ p :
  resolve fuel σ p
  = match lstat σ p with
    | Some (Symlink t) => match fuel with O => None | S f => resolve f σ t end
    | _ => Some p
    end.
Proof. by destruct fuel. Qed.

Lemma not_link_match {A} (o : option node) (X : path → A) (Y : A) :
  ¬ is_link o → match o with Some (Symlink t) => X t | _ => Y end = Y.
Proof. destruct o as [[]|]; simpl; tauto. Qed.

(** Links resolve the same way after an entry that is no link is put where
    no link was. *)
Lemma resolve_insert fuel σ q n p :
  q ≠ [] → ¬ is_link (lstat σ q) → ¬ is_link (Some n) →
  resolve fuel (<[q := n]> σ) p = resolve fuel σ p.
Proof.
  intros Hq Hold Hnew. revert p. induction fuel as [|f IH]; intros p.
  - rewrite !(resolve_unfold _ _ p), lstat_insert by done.
    destruct (decide (q = p)) as [->|_].
    + rewrite (not_link_match (Some n)) by done.
      by rewrite not_link_match.
    + done.
  - rewrite !(resolve_unfold _ _ p), lstat_insert by done.
    destruct (decide (q = p)) as [->|_].
    + rewrite (not_link_match (Some n)) by done.
      by rewrite not_link_match.
    + destruct (lstat σ p) as [[]|]; auto.
Qed.

Lemma resolve_final fuel σ p q : resolve fuel σ p = Some q → ¬ is_link (lstat σ q).
Proof.
  revert p. induction fuel as [|f IH]; intros p; rewrite resolve_unfold;
    destruct (lstat σ p) as [[| |t]|] eqn:E;
    try (intros [= <-]; rewrite E; simpl; tauto); first [done|apply IH].
Qed.

Lemma not_link_file d : ¬ is_link (Some (File d)).
Proof. simpl. tauto. Qed.

Lemma not_link_dir : ¬ is_link (Some Dir).
Proof. simpl. tauto. Qed.

Lemma not_link_none : ¬ is_link None.
Proof. simpl. tauto. Qed.

(** ** Writing and reading text *)

Lemma write_text_Ok p d σ σ' :
  write_text p d σ = (σ', Ok ()) →
  ∃ q, resolve link_fuel σ p = Some q ∧ q ≠ [] ∧ ¬ is_link (lstat σ q)
    ∧ σ' = <[q := File d]> σ.
Proof.
  unfold write_text. destruct (resolve link_fuel σ p) as [q|] eqn:Eq; [|done].
  pose proof (resolve_final _ _ _ _ Eq) as Hq.
  assert (Hne : lstat σ q ≠ Some Dir → q ≠ []) by (by intros H ->).
  destruct (lstat σ q) as [[]|] eqn:El; try done.
  - intros [= <-]. exists q. rewrite El. repeat split; [by apply Hne|done].
  - destruct (is_dir σ (parent q)); [|done].
    intros [= <-]. exists q. rewrite El. repeat split; [by apply Hne|done].
Qed.

Lemma write_text_state p d σ σ' r : write_text p d σ = (σ', Raise r) → σ' = σ.
Proof.
  unfold write_text. destruct (resolve link_fuel σ p) as [q|]; [|congruence].
  destruct (lstat σ q) as [[]|]; try congruence.
  destruct (is_dir σ (parent q)); congruence.
Qed.

Lemma read_text_inserted σ q d p :
  q ≠ [] → ¬ is_link (lstat σ q) → resolve link_fuel σ p = Some q →
  read_text p (<[q := File d]> σ) = (<[q := File d]> σ, Ok d).
Proof.
  intros Hq Hl Hr. unfold read_text, stat.
  rewrite resolve_insert, Hr by (done || apply not_link_file).
  cbn [mbind option_bind].
  rewrite lstat_insert, decide_True by done. done.
Qed.

Lemma read_text_other σ q d p x :
  q ≠ [] → ¬ is_link (lstat σ q) → resolve link_fuel σ p ≠ Some q →
  read_text p σ = (σ, Ok x) →
  read_text p (<[q := File d]> σ) = (<[q := File d]> σ, Ok x).
Proof.
  intros Hq Hl Hr. unfold read_text, stat.
  rewrite resolve_insert by (done || apply not_link_file).
  destruct (resolve link_fuel σ p) as [r|]; [|done]. cbn [mbind option_bind].
  rewrite lstat_insert by done. rewrite decide_False by congruence.
  destruct (lstat σ r) as [[]|]; congruence.
Qed.

(** What was written is what is read. *)
Lemma write_text_read p d σ σ' :
  write_text p d σ = (σ', Ok ()) → read_text p σ' = (σ', Ok d).
Proof.
  intros (q & Hr & Hq & Hl & ->)%write_text_Ok. by apply read_text_inserted.
Qed.

(** ** Making directories *)

(** The state after [mkdir], whether it succeeded or not: entries are only
    added, none of them a link. *)
Lemma mkdir_from_state base comps σ σ' r :
  mkdir_from base comps σ = (σ', r) →
  (∀ p, resolve link_fuel σ' p = resolve link_fuel σ p)
  ∧ (∀ p n, lstat σ p = Some n → lstat σ' p = Some n).
Proof.
  revert base σ. induction comps as [|c cs IH]; intros base σ.
  - intros H. assert (σ' = σ) as -> by (cbn in H; congruence). done.
  - cbn [mkdir_from]. destruct (lstat σ (base ++ [c])) as [n|] eqn:E.
    + destruct (is_dir σ (base ++ [c])); [apply IH|].
      intros H. assert (σ' = σ) as -> by congruence. done.
    + intros [H1 H2]%IH.
      assert (Hne : base ++ [c] ≠ []) by (by destruct base).
      split.
      * intros p. rewrite H1.
        apply resolve_insert; [done| |apply not_link_dir].
        rewrite E. apply not_link_none.
      * intros p n Hp. apply H2. rewrite lstat_insert by done.
        case_decide as Hd; [subst p; congruence|done].
Qed.

Lemma read_text_preserved σ σ' p d :
  (∀ p, resolve link_fuel σ' p = resolve link_fuel σ p) →
  (∀ p n, lstat σ p = Some n → lstat σ' p = Some n) →
  read_text p σ = (σ, Ok d) → read_text p σ' = (σ', Ok d).
Proof.
  intros H1 H2. unfold read_text, stat. rewrite H1.
  destruct (resolve link_fuel σ p) as [q|]; [|done]. cbn [mbind option_bind].
  destruct (lstat σ q) as [n|] eqn:E; [|done].
  rewrite (H2 _ _ E). destruct n; congruence.
Qed.

End FsFacts.

(** * The parser and the writer on the disk *)

Section Document.

Lemma read_text_Ok p σ σ' text :
  Fs.read_text p σ = (σ', Ok text) →
  σ' = σ ∧ Fs.stat σ p = Some (Fs.File text).
Proof.
  unfold Fs.read_text. destruct (Fs.stat σ p) as [[]|]; try done.
  by intros [= <- <-].
Qed.

Lemma parse_live_streams_text p σ text :
  Fs.read_text p σ = (σ, Ok text) →
  parse_live_streams p σ
  = (σ, match (scan_lines 0 (splitlines text)).2 with
        | [] => Raise (ValueError
                  "No stream_data[...] station entries found in this file.")
        | stations =>
            Ok (splitlines text, (scan_lines 0 (splitlines text)).1, stations)
        end).
Proof.
  intros Hr. pose proof (read_text_Ok _ _ _ _ Hr) as [_ Hs].
  unfold parse_live_streams, mbind, Fs.io_bind, Fs.get, Fs.exists_.
  rewrite Hs. cbn [negb]. rewrite Hr.
  destruct (scan_lines 0 (splitlines text)) as [idxs [|s sts]]; done.
Qed.

Lemma parse_live_streams_Ok p σ σ' lines idxs stations :
  parse_live_streams p σ = (σ', Ok (lines, idxs, stations)) →
  σ' = σ ∧ ∃ text, Fs.read_text p σ = (σ, Ok text)
    ∧ lines = splitlines text ∧ scan_lines 0 lines = (idxs, stations)
    ∧ stations ≠ [].
Proof.
  unfold parse_live_streams, mbind, Fs.io_bind, Fs.get.
  destruct (Fs.exists_ σ p); [|done]. cbn [negb].
  destruct (Fs.read_text p σ) as [σ1 [text|e]] eqn:Hr; [|done].
  apply read_text_Ok in Hr as Hr'. destruct Hr' as [-> _].
  destruct (scan_lines 0 (splitlines text)) as [idxs' [|s sts]] eqn:E; [done|].
  intros [= <- <- <- <-]. split; [done|]. exists text. by rewrite E.
Qed.

(** The steps of a write that succeeds. *)
Lemma write_live_streams_Ok now p lines idxs stations strategy σ σ' b :
  write_live_streams now p lines idxs stations strategy σ = (σ', Ok b) →
  ∃ σ1 σ2 out,
    Fs.mkdir_parents (backup_dir_of p) σ = (σ1, Ok ())
    ∧ Fs.write_text (backup_file_of p now) (concat lines) σ1 = (σ2, Ok ())
    ∧ rewrite_lines lines idxs stations strategy = Ok out
    ∧ Fs.write_text p (concat out) σ2 = (σ', Ok ())
    ∧ b = backup_file_of p now.
Proof.
  unfold write_live_streams, mbind, Fs.io_bind, Fs.lift, Fs.pure.
  destruct (Fs.mkdir_parents _ σ) as [σ1 [[]|]] eqn:E1; [|done].
  destruct (Fs.write_text _ _ σ1) as [σ2 [[]|]] eqn:E2; [|done].
  destruct (rewrite_lines _ _ _ _) as [out|] eqn:E3; [|done].
  destruct (Fs.write_text p _ σ2) as [σ3 [[]|]] eqn:E4; [|done].
  intros [= <- <-]. by exists σ1, σ2, out.
Qed.

Lemma rewrite_lines_Ok lines idxs stations strategy out :
  rewrite_lines lines idxs stations strategy = Ok out →
  ∃ W, arrange_lines lines idxs stations strategy = Ok W
    ∧ out = (_update_stream_data_count_line W (length stations)).1.
Proof.
  unfold rewrite_lines. destruct (arrange_lines _ _ _ _) as [W|]; [|done].
  cbn [mbind result_bind]. intros [= <-]. by exists W.
Qed.

(** After a write that succeeds the file holds the joined line sequence. *)
Lemma write_live_streams_content now p lines idxs stations strategy σ σ' b :
  write_live_streams now p lines idxs stations strategy σ = (σ', Ok b) →
  ∃ out, rewrite_lines lines idxs stations strategy = Ok out
    ∧ Fs.read_text p σ' = (σ', Ok (concat out)).
Proof.
  intros (σ1 & σ2 & out & _ & _ & Hout & Hw & _)%write_live_streams_Ok.
  exists out. split; [done|]. by eapply write_text_read.
Qed.

(** ** The lines of the working sequence *)

Lemma decode_line_fed l : decode_line (l ++ [10]) = decode_line l.
Proof. unfold decode_line. by rewrite rstrip_char_snoc. Qed.

Lemma decode_line_nil : decode_line [] = None.
Proof. done. Qed.

Lemma opaque_decode l : opaque l = true ↔ decode_line l = None.
Proof. unfold opaque. by destruct (decode_line l). Qed.

Lemma omap_opaque L :
  Forall (λ l, opaque l = true) L → omap decode_line L = [].
Proof.
  induction 1 as [|l L Hl _ IH]; [done|].
  cbn [omap list_omap]. apply opaque_decode in Hl. by rewrite Hl.
Qed.

Lemma filter_opaque L : Forall (λ l, opaque l = true) (List.filter opaque L).
Proof.
  apply Forall_forall. intros l Hl%list_elem_of_In%filter_In. tauto.
Qed.

Lemma filter_all (f : str → bool) L :
  Forall (λ l, f l = true) L → List.filter f L = L.
Proof. induction 1 as [|l L Hl _ IH]; simpl; [done|]. by rewrite Hl, IH. Qed.

Lemma station_line_terminated i s line :
  station_to_line i s = Ok line → clean_station s → terminated line.
Proof.
  intros (b & Hb & _ & _ & _ & _ & ->)%station_to_line_Ok
         ([_ U] & [_ N] & [_ G] & [_ L]).
  assert (Hbc : nobreak b).
  { eapply Forall_impl; [apply (str_of_int_chars _ _ Hb)|].
    intros c [->|Hd]; [done|].
    by apply ascii_digit_facts in Hd as (_ & _ & _ & _ & _ & ? & _). }
  change [34; 10] with ([34] ++ [10]). rewrite !app_assoc.
  eexists _, [10]. split; [done|]. split; [|right; by exists 10].
  repeat (apply Forall_app; split); try done;
    try (by repeat constructor); try apply str_of_nat_nobreak.
  destruct (favorite s); by repeat constructor.
Qed.

Lemma station_line_lf_once i s line : station_to_line i s = Ok line → lf_once line.
Proof.
  intros (b & _ & _ & _ & _ & _ & ->)%station_to_line_Ok.
  unfold lf_once. change [34; 10] with ([34] ++ [10]). rewrite !app_assoc.
  by rewrite endswith_char_snoc, rstrip_char_snoc, rstrip_char_keep.
Qed.

Lemma new_lines_terminated stations new :
  Forall2 (λ s l, ∃ j, station_to_line j s = Ok l) stations new →
  Forall clean_station stations → Forall terminated new.
Proof.
  induction 1 as [|s l stations new [j Hl] _ IH]; intros Hc; [constructor|].
  inversion Hc; subst. constructor; eauto using station_line_terminated.
Qed.

Lemma new_lines_decode stations new :
  Forall2 (λ s l, ∃ j, station_to_line j s = Ok l) stations new →
  Forall clean_station stations → omap decode_line new = stations.
Proof.
  induction 1 as [|s l stations new [j Hl] _ IH]; intros Hc; [done|].
  inversion Hc; subst. cbn [omap list_omap].
  rewrite (decode_station_line _ _ _ Hl) by done. by rewrite IH.
Qed.

Lemma new_lines_count stations new :
  Forall2 (λ s l, ∃ j, station_to_line j s = Ok l) stations new →
  Forall (λ l, count_match l = None) new.
Proof.
  induction 1 as [|s l stations new [j Hl] _ IH]; constructor;
    eauto using station_line_count.
Qed.

Lemma separator_cases (S : list str) :
  S = [] ∨ S = [[10]] →
  Forall terminated S ∧ omap decode_line S = []
  ∧ Forall (λ l, count_match l = None) S.
Proof.
  intros [->| ->]; repeat split; try done; repeat constructor.
  apply terminated_lf.
Qed.

Lemma joinable_lf_once W : joinable W → Forall lf_once W.
Proof.
  induction 1; repeat constructor;
    auto using terminated_lf_once, unterminated_lf_once, terminated_lf.
Qed.

Lemma text_lines_tail l L : text_lines (l :: L) → text_lines L.
Proof. inversion 1; subst; [constructor|done]. Qed.

(** The working sequence of a parsed document reads back line by line, and
    its station lines are the new ones. *)
Lemma arranged_parsed text idxs st0 stations strategy W :
  scan_lines 0 (splitlines text) = (idxs, st0) →
  arrange_lines (splitlines text) idxs stations strategy = Ok W →
  Forall clean_station stations →
  joinable W ∧ omap decode_line W = stations.
Proof.
  intros Hscan HW Hclean.
  pose proof (splitlines_text_lines text) as Htl.
  set (lines := splitlines text) in *.
  pose proof (scan_lines_sorted 0 lines) as Hs.
  pose proof (scan_lines_except 0 lines) as HK.
  pose proof (scan_lines_first 0 lines) as Hfirst.
  rewrite Hscan in Hs, HK, Hfirst. cbn [fst] in *.
  apply arrange_lines_inv in HW
    as (new & A & B & S1 & S2 & Hnew & _ & EK & -> & HS1 & HS2 & Hstr); [|done].
  rewrite HK in EK.
  apply encode_from_Ok in Hnew.
  pose proof (new_lines_terminated _ _ Hnew Hclean) as Hnt.
  pose proof (new_lines_decode _ _ Hnew Hclean) as Hnd.
  destruct (separator_cases S1 HS1) as (HT1 & HD1 & _).
  destruct (separator_cases S2 HS2) as (HT2 & HD2 & _).
  pose proof (filter_opaque lines) as Hop. rewrite EK in Hop.
  apply Forall_app in Hop as [HopA HopB].
  split.
  2: { rewrite !omap_app, HD1, HD2, Hnd, !omap_opaque by done.
       by rewrite app_nil_r. }
  pose proof (text_lines_filter opaque lines Htl) as HtK. rewrite EK in HtK.
  destruct (bool_decide (strategy = lit "new_slot")).
  - destruct Hstr as [HA HB].
    destruct (decide (B = [])) as [->|HBne].
    + rewrite (HB eq_refl), !app_nil_r in *.
      destruct HS1 as [->| ->].
      * destruct HA as [->|?]; [|done]. by apply joinable_terminated.
      * apply text_lines_fed; [done|]. by apply joinable_terminated.
    + apply text_lines_app_inv in HtK as [HtA HtB]; [|done].
      rewrite !app_assoc. apply joinable_app; [|by apply text_lines_joinable].
      repeat (apply Forall_app; split); done.
  - destruct Hstr as (-> & -> & first & Hhead & HA).
    destruct idxs as [|first' rest]; [done|]. injection Hhead as ->.
    destruct Hfirst as (P & s & R & Elines & Hlen & HP & Hs').
    simpl in Hlen. subst first.
    assert (EK' : List.filter opaque lines = P ++ List.filter opaque R).
    { rewrite Elines, List.filter_app, (filter_all _ _ HP). simpl. by rewrite Hs'. }
    rewrite EK in EK'. rewrite EK' in HA.
    rewrite take_app_length in HA. subst A.
    apply app_inv_head in EK'. subst B.
    rewrite Elines in Htl.
    apply text_lines_app_inv in Htl as [HtP HtR]; [|done].
    apply text_lines_tail in HtR.
    cbn [app]. rewrite app_assoc.
    apply joinable_app; [by apply Forall_app|].
    by apply text_lines_joinable, text_lines_filter.
Qed.

End Document.

(** * The specified properties *)

(** A run is its final disk and its result. *)
Lemma io_pair {A} (c : Fs.io A) (σ σ' : Fs.fs) (r : result A) :
  (c σ).1 = σ' → (c σ).2 = r → c σ = (σ', r).
Proof. destruct (c σ). simpl. by intros -> ->. Qed.

(** Parsing leaves the disk as it is. *)
Lemma parse_live_streams_state (p : Fs.path) (σ : Fs.fs) :
  (parse_live_streams p σ).1 = σ.
Proof.
  unfold parse_live_streams, mbind, Fs.io_bind, Fs.get.
  destruct (Fs.exists_ σ p); [|done]. cbn [negb].
  destruct (Fs.read_text p σ) as [σ1 [text|e]] eqn:Hr.
  - apply read_text_Ok in Hr as [-> _].
    by destruct (scan_lines 0 (splitlines text)) as [idxs [|s sts]].
  - unfold Fs.read_text in Hr. destruct (Fs.stat σ p) as [[]|]; by inversion Hr.
Qed.

Ltac run_io :=
  apply io_pair;
  [ first [ apply parse_live_streams_state | reflexivity ]
  | vm_compute; reflexivity ].

(** ** Round trip *)

(** C1, as the code has it: when a parsed document is written back with a
    station list that is not empty and whose text fields are trimmed and
    free of line boundaries, parsing the written file yields exactly the
    list that was written, in the same order, with either strategy. *)
Theorem write_then_parse (now : datetime) (p p0 : Fs.path)
    (lines : list str) (idxs : list nat) (st0 stations : list Station)
    (strategy : str) (σ0 σ0' σ σ' : Fs.fs) (b : Fs.path) :
  parse_live_streams p0 σ0 = (σ0', Ok (lines, idxs, st0)) →
  write_live_streams now p lines idxs stations strategy σ = (σ', Ok b) →
  stations ≠ [] → Forall clean_station stations →
  ∃ lines' idxs',
    parse_live_streams p σ' = (σ', Ok (lines', idxs', stations)).
Proof.
  intros (_ & text & _ & -> & Hscan & _)%parse_live_streams_Ok Hw Hne Hclean.
  apply write_live_streams_content in Hw as (out & Hout & Hread).
  apply rewrite_lines_Ok in Hout as (W & HW & ->).
  destruct (arranged_parsed _ _ _ _ _ _ Hscan HW Hclean) as [HJ Hst].
  rewrite (parse_live_streams_text _ _ _ Hread).
  rewrite scan_lines_stations.
  rewrite (omap_resplit decode_line decode_line_fed decode_line_nil)
    by (by apply update_joinable).
  rewrite update_stations, Hst by (by apply joinable_lf_once).
  destruct stations; [done|]. eauto.
Qed.

Lemma write_then_parse_witness :
  ∃ lines' idxs',
    parse_live_streams Example.file Example.disk_written
    = (Example.disk_written, Ok (lines', idxs', [Example.alpha; Example.gamma])).
Proof.
  apply (write_then_parse Example.now Example.file Example.file Example.lines
           Example.idxs [Example.alpha; Example.beta]
           [Example.alpha; Example.gamma] Example.in_place
           Example.disk Example.disk Example.disk Example.disk_written
           Example.backup).
  - run_io.
  - run_io.
  - discriminate.
  - repeat constructor.
Defined.

(** C1 as stated fails: a name with a blank in front is written as it is
    and read back trimmed. *)
Lemma padded_field_not_read_back :
  parse_live_streams Example.file Example.disk
  = (Example.disk, Ok (Example.lines, Example.idxs, [Example.alpha; Example.beta]))
  ∧ write_live_streams Example.now Example.file Example.lines Example.idxs
      [Example.padded] Example.in_place Example.disk
    = (Example.disk_padded, Ok Example.backup)
  ∧ ∃ lines' idxs',
      parse_live_streams Example.file Example.disk_padded
      = (Example.disk_padded, Ok (lines', idxs', [Example.gamma]))
      ∧ [Example.gamma] ≠ [Example.padded].
Proof.
  split; [run_io|]. split; [run_io|].
  eexists _, _. split; [run_io|]. discriminate.
Qed.

(** ** The count line *)

Section CountInvariant.

Lemma count_match_lf : count_match [10] = None.
Proof. done. Qed.

Lemma Forall_filter_sub {A} (P : A → Prop) (f : A → bool) (l : list A) :
  Forall P l → Forall P (List.filter f l).
Proof.
  induction 1 as [|x l Hx _ IH]; simpl; [constructor|].
  destruct (f x); [by constructor|done].
Qed.

(** C2: when a parsed document is written back, the first line of the form
    [<prefix>stream_data: <integer><suffix>] comes out with its integer
    replaced by the number of stations written, its prefix, suffix and line
    feed as they were, and all other lines of the working sequence as they
    were; when the document has no such line the write goes through all the
    same and the working sequence is written unchanged. *)
Theorem count_line_rewritten (now : datetime) (p p0 : Fs.path)
    (lines : list str) (idxs : list nat) (st0 stations : list Station)
    (strategy : str) (σ0 σ0' σ σ' : Fs.fs) (b : Fs.path) :
  parse_live_streams p0 σ0 = (σ0', Ok (lines, idxs, st0)) →
  write_live_streams now p lines idxs stations strategy σ = (σ', Ok b) →
  ∃ W out,
    arrange_lines lines idxs stations strategy = Ok W
    ∧ Fs.read_text p σ' = (σ', Ok (concat out))
    ∧ (Forall (λ l, count_match l = None) lines → out = W)
    ∧ (∀ l1 line l2 m,
         lines = l1 ++ line :: l2 →
         Forall (λ l, count_match l = None) l1 → count_match line = Some m →
         ∃ pre old suf nl W1 W2,
           m = [pre; old; suf] ∧ line = pre ++ old ++ suf ++ nl
           ∧ (nl = [] ∨ nl = [10])
           ∧ Forall (λ c, isdecimal c = true) old ∧ old ≠ []
           ∧ W = W1 ++ line :: W2
           ∧ out = W1 ++ (pre ++ str_of_nat (length stations) ++ suf ++ nl) :: W2).
Proof.
  intros (_ & text & _ & -> & Hscan & _)%parse_live_streams_Ok Hw.
  apply write_live_streams_content in Hw as (out & Hout & Hread).
  apply rewrite_lines_Ok in Hout as (W & HW & ->).
  exists W, (_update_stream_data_count_line W (length stations)).1.
  split; [done|]. split; [done|].
  pose proof (splitlines_text_lines text) as Htl.
  set (lines := splitlines text) in *.
  pose proof (scan_lines_sorted 0 lines) as Hs.
  pose proof (scan_lines_except 0 lines) as HK.
  rewrite Hscan in Hs, HK. cbn [fst] in *.
  apply arrange_lines_inv in HW
    as (new & A & B & S1 & S2 & Hnew & _ & EK & -> & HS1 & HS2 & _); [|done].
  rewrite HK in EK. apply encode_from_Ok, new_lines_count in Hnew.
  destruct (separator_cases S1 HS1) as (_ & _ & HC1).
  destruct (separator_cases S2 HS2) as (_ & _ & HC2).
  split.
  - intros Hnone. rewrite update_none; [done|].
    apply (Forall_filter_sub _ opaque) in Hnone. rewrite EK in Hnone.
    apply Forall_app in Hnone as [? ?].
    repeat (apply Forall_app; split); done.
  - intros l1 line l2 m -> H1 Hm.
    assert (Hlf : lf_once line).
    { apply text_lines_joinable, joinable_lf_once in Htl.
      apply Forall_app in Htl as [_ Htl]. by inversion Htl. }
    destruct (count_line_parts _ _ Hm Hlf)
      as (ws & ws2 & ws3 & old & suf & Em & Eline & _ & _ & _ & Hold & Hne & _).
    cbv zeta in Em, Eline.
    set (pre := ws ++ lit "stream_data" ++ ws2 ++ 58 :: ws3) in *.
    set (nl := if endswith_char 10 line then [10] else []) in *.
    assert (Hnl : nl = [] ∨ nl = [10]) by (unfold nl; destruct (endswith_char _ _); auto).
    assert (∃ W1 W2, A ++ S1 ++ new ++ S2 ++ B = W1 ++ line :: W2
                     ∧ Forall (λ l, count_match l = None) W1) as (W1 & W2 & EW & HW1).
    { rewrite List.filter_app in EK. cbn [List.filter] in EK.
      rewrite (count_line_opaque _ _ Hm) in EK.
      apply (Forall_filter_sub _ opaque) in H1.
      apply app_eq_inv in EK as [(k & E1 & E2)|(k & E1 & E2)].
      - rewrite E2. rewrite E1 in H1. apply Forall_app in H1 as [? ?].
        exists (A ++ S1 ++ new ++ S2 ++ k), (List.filter opaque l2).
        rewrite <- !app_assoc. split; [done|].
        repeat (apply Forall_app; split); done.
      - destruct k as [|c k].
        + rewrite app_nil_r in E1. cbn [app] in E2. rewrite <- E2.
          exists (A ++ S1 ++ new ++ S2), (List.filter opaque l2).
          rewrite <- !app_assoc. split; [done|].
          rewrite <- E1 in H1. repeat (apply Forall_app; split); done.
        + injection E2 as <- E2. rewrite E1.
          exists (List.filter opaque l1), (k ++ S1 ++ new ++ S2 ++ B).
          rewrite <- !app_assoc. done. }
    exists pre, old, suf, nl, W1, W2.
    rewrite EW, (update_first _ _ _ _ _ HW1 Hm), Em.
    repeat split; done.
Qed.

End CountInvariant.

(** ** Lines that are not station lines *)

Section Preservation.
Local Open Scope nat_scope.



(** C10: of the lines of the working sequence that have the form of a count
    line, a write changes the first at most: every line that comes after
    such a line is written as it is, and a line that is changed has no
    such line before it. *)
Theorem later_count_lines_untouched (now : datetime) (p : Fs.path)
    (lines : list str) (idxs : list nat) (stations : list Station)
    (strategy : str) (σ σ' : Fs.fs) (b : Fs.path) :
  write_live_streams now p lines idxs stations strategy σ = (σ', Ok b) →
  ∃ W out,
    arrange_lines lines idxs stations strategy = Ok W
    ∧ Fs.read_text p σ' = (σ', Ok (concat out))
    ∧ length out = length W
    ∧ (∀ i j li lj,
         W !! i = Some li → is_Some (count_match li) → i < j →
         W !! j = Some lj → out !! j = Some lj)
    ∧ (∀ j, out !! j ≠ W !! j →
         ∃ lj, W !! j = Some lj ∧ is_Some (count_match lj)
           ∧ ∀ i li, i < j → W !! i = Some li → count_match li = None).
Proof.
  intros Hw.
  apply write_live_streams_content in Hw as (out & Hout & Hread).
  apply rewrite_lines_Ok in Hout as (W & HW & ->).
  exists W, (_update_stream_data_count_line W (length stations)).1.
  split; [done|]. split; [done|]. 
  destruct (count_line_search W) as [H|(l1 & line & l2 & m & -> & H1 & Hm)].
  - rewrite update_none by done. cbn [fst]. split; [done|]. split; [done|].
    intros j Hj. done.
  - rewrite (update_first _ _ _ _ _ H1 Hm). cbn [fst].
    split; [by rewrite !length_app|]. split.
    + intros i j li lj Hi [mi Hmi] Hij Hj.
      assert (length l1 ≤ i).
      { destruct (decide (length l1 ≤ i)) as [|Hlt]; [done|].
        rewrite lookup_app_l in Hi by (unfold Py.str in *; lia).
        rewrite Forall_forall in H1.
        rewrite (H1 li) in Hmi; [done|]. by eapply list_elem_of_lookup_2. }
      rewrite lookup_app_r in Hj |- * by (unfold Py.str in *; lia).
      rewrite lookup_cons_ne_0 in Hj |- * by (unfold Py.str in *; lia). exact Hj.
    + intros j Hj. exists line.
      destruct (decide (j = length l1)) as [->|Hne].
      * split; [by rewrite list_lookup_middle|]. split; [by eexists|].
        intros i li Hi Hli. rewrite lookup_app_l in Hli by done.
        rewrite Forall_forall in H1. apply H1. by eapply list_elem_of_lookup_2.
      * exfalso. apply Hj.
        destruct (decide (j < length l1)).
        -- by rewrite 2!lookup_app_l.
        -- assert (length l1 ≤ j) by (unfold Py.str in *; lia). rewrite 2!lookup_app_r by done.
           by rewrite 2!lookup_cons_ne_0 by (unfold Py.str in *; lia).
Qed.

End Preservation.

(** ** Errors *)

Section Errors.

(** C5: [station_to_line] raises the delimiter error for a station with
    the delimiter in its url, name, genre or language; a write of a list
    with such a station raises, and (unless the backup path is a link to
    the target) leaves the text of the target as it was. *)
Theorem delimiter_rejected :
  (∀ i s, has_delimiter s →
     station_to_line i s
     = Raise (ValueError "Fields cannot contain the '|' character."))
  ∧ (∀ (now : datetime) (p : Fs.path) (lines : list str) (idxs : list nat)
       (stations : list Station) (strategy : str) (σ : Fs.fs),
       Exists has_delimiter stations →
       ∃ σ' e,
         write_live_streams now p lines idxs stations strategy σ = (σ', Raise e)
         ∧ (Fs.resolve Fs.link_fuel σ (backup_file_of p now)
              ≠ Fs.resolve Fs.link_fuel σ p →
            ∀ d, Fs.read_text p σ = (σ, Ok d) → Fs.read_text p σ' = (σ', Ok d))).
Proof.
  split; [apply station_to_line_delimiter|].
  intros now p lines idxs stations strategy σ Hd.
  unfold write_live_streams, mbind, Fs.io_bind, Fs.lift.
  destruct (Fs.mkdir_parents _ σ) as [σ1 [[]|e1]] eqn:E1.
  2: { exists σ1, e1. split; [done|]. intros _ d Hr.
       apply mkdir_from_state in E1 as [H1 H2].
       by apply (read_text_preserved σ). }
  apply mkdir_from_state in E1 as [H1 H2].
  destruct (Fs.write_text _ _ σ1) as [σ2 [[]|e2]] eqn:E2.
  2: { exists σ2, e2. split; [done|]. intros _ d Hr.
       apply write_text_state in E2 as ->. by apply (read_text_preserved σ). }
  assert (∃ msg, rewrite_lines lines idxs stations strategy
                 = Raise (ValueError msg)) as [msg ->].
  { unfold rewrite_lines, arrange_lines.
    destruct (encode_from_delimiter 0 _ Hd) as [msg ->]. by exists msg. }
  exists σ2, (ValueError msg). split; [done|]. intros Hne d Hr.
  apply write_text_Ok in E2 as (r & Hres & Hrne & Hrl & ->).
  apply read_text_other;
    [exact Hrne | exact Hrl | | by apply (read_text_preserved σ)].
  rewrite <- (H1 p), <- (H1 (backup_file_of p now)) in Hne. congruence.
Qed.

Lemma delimiter_rejected_witness :
  station_to_line 0 Example.piped
  = Raise (ValueError "Fields cannot contain the '|' character.")
  ∧ ∃ σ' e,
      write_live_streams Example.now Example.file Example.lines Example.idxs
        [Example.alpha; Example.piped] Example.in_place Example.disk
      = (σ', Raise e)
      ∧ Fs.read_text Example.file σ' = (σ', Ok Example.text).
Proof.
  destruct delimiter_rejected as [H1 H2]. split.
  - apply H1. right; left. vm_compute. apply list_elem_of_In. simpl. tauto.
  - destruct (H2 Example.now Example.file Example.lines Example.idxs
                [Example.alpha; Example.piped] Example.in_place Example.disk)
      as (σ' & e & Hw & Hr).
    + right; left. right; left. vm_compute. apply list_elem_of_In. simpl. tauto.
    + exists σ', e. split; [exact Hw|]. apply Hr.
      * vm_compute. discriminate.
      * run_io.
Defined.

End Errors.

(** ** Witnesses on the example disk *)

Lemma count_line_rewritten_witness :
  ∃ W out,
    arrange_lines Example.lines Example.idxs [Example.padded]
      Example.in_place = Ok W
    ∧ Fs.read_text Example.file Example.disk_padded
      = (Example.disk_padded, Ok (concat out))
    ∧ ∃ W1 W2,
        W = W1 ++ (lit " stream_data: 2" ++ [10]) :: W2
        ∧ out = W1 ++ (lit " stream_data: 1" ++ [10]) :: W2.
Proof.
  destruct (count_line_rewritten Example.now Example.file Example.file
              Example.lines Example.idxs [Example.alpha; Example.beta]
              [Example.padded] Example.in_place
              Example.disk Example.disk Example.disk Example.disk_padded
              Example.backup)
    as (W & out & HW & Hr & _ & H); [run_io|run_io|].
  exists W, out. split; [exact HW|]. split; [exact Hr|].
  destruct (H [lit "SiiNunit" ++ [10]; lit "{" ++ [10]]
              (lit " stream_data: 2" ++ [10])
              [Example.station_line "0" "http://a.example/s|Alpha|pop|en|128|1";
               Example.station_line "1" "http://b.example/s|Beta|rock|de|-5|0";
               lit "}" ++ [10]]
              [lit " stream_data: "; lit "2"; []])
    as (pre & old & suf & nl & W1 & W2 & Em & El & _ & _ & _ & EW & Eout).
  - vm_compute. reflexivity.
  - constructor; [vm_compute; reflexivity|].
    constructor; [vm_compute; reflexivity|constructor].
  - vm_compute. reflexivity.
  - injection Em as <- <- <-. exists W1, W2. split; [exact EW|].
    rewrite Eout. f_equal. f_equal.
    apply (app_inv_head (lit " stream_data: 2")) in El. rewrite <- El.
    vm_compute. reflexivity.
Defined.

(** ** The bitrate *)

Section Bitrate.

(** What a line that decodes looks like. *)
Lemma decode_line_Some (line : str) (s : Station) :
  decode_line line = Some s →
  ∃ m u n g l b f,
    re_match STREAM_RE (rstrip_char 10 line) = Some m
    ∧ Py.split 124 (group 2 m) = [u; n; g; l; b; f]
    ∧ s = {| url := strip u; name := strip n; genre := strip g;
             language := strip l; bitrate := default 0%Z (int_of_str b);
             favorite := bool_decide (strip f = lit "1") |}.
Proof.
  unfold decode_line.
  destruct (re_match STREAM_RE (rstrip_char 10 line)) as [m|]; [|done].
  cbv zeta.
  destruct (Py.split 124 (group 2 m))
    as [|u [|n [|g [|l [|b [|f [|x xs]]]]]]] eqn:Hsp; try done.
  intros [= <-]. by exists m, u, n, g, l, b, f.
Qed.

(** C9 as stated fails: the field [-5] is read as the integer -5. *)
Lemma negative_bitrate_parsed :
  parse_live_streams Example.file Example.disk
  = (Example.disk, Ok (Example.lines, Example.idxs, [Example.alpha; Example.beta]))
  ∧ decode_line
      (Example.station_line "1" "http://b.example/s|Beta|rock|de|-5|0")
    = Some Example.beta
  ∧ (bitrate Example.beta < 0)%Z.
Proof.
  split; [run_io|]. split; [vm_compute; reflexivity|done].
Qed.

End Bitrate.

(** ** The destination of a link *)

Section Destination.
Import Fs.

Implicit Types (σ : fs) (p q : path) (n : node).

Lemma stat_not_link σ p : ¬ is_link (lstat σ p) → stat σ p = lstat σ p.
Proof.
  intros H. unfold stat, link_fuel. rewrite resolve_unfold.
  by rewrite not_link_match.
Qed.

Lemma lstat_absent σ p :
  exists_ σ p = false → is_symlink σ p = false → lstat σ p = None.
Proof.
  unfold exists_, is_symlink. intros He Hl.
  destruct (lstat σ p) as [[d| |t]|] eqn:E; try done.
  - rewrite stat_not_link, E in He by (rewrite E; apply not_link_file). done.
  - rewrite stat_not_link, E in He by (rewrite E; apply not_link_dir). done.
Qed.




(** What [_remove_path_any] does to a link, a directory, a file and a
    path that is not there. *)
Lemma remove_link σ p :
  is_symlink σ p = true → _remove_path_any p σ = (delete p σ, Ok ()).
Proof.
  intros Hl. unfold _remove_path_any, _path_exists_any, mbind, io_bind, get.
  cbv beta. rewrite Hl, orb_true_r. cbn [negb]. cbv beta. rewrite Hl.
  unfold catch, unlink. unfold is_symlink in Hl.
  by destruct (lstat σ p) as [[| |t]|].
Qed.

Lemma remove_dir σ p :
  is_symlink σ p = false → is_dir σ p = true → p ≠ [] →
  _remove_path_any p σ = (filter (λ e, ¬ p `prefix_of` e.1) σ, Ok ()).
Proof.
  intros Hl Hd Hne.
  unfold _remove_path_any, _path_exists_any, mbind, io_bind, get.
  cbv beta. rewrite Hl, orb_false_r.
  assert (exists_ σ p = true) as ->.
  { unfold exists_, is_dir in *. by destruct (stat σ p). }
  cbn [negb]. cbv beta. rewrite Hl. cbv beta. rewrite Hd.
  unfold is_dir in Hd. destruct (stat σ p) as [[]|] eqn:Es; try done.
  unfold rmtree. rewrite stat_not_link in Es; [by rewrite Es|].
  unfold is_symlink in Hl. destruct (lstat σ p) as [[]|]; simpl; try tauto.
  done.
Qed.

Lemma remove_file σ p d :
  lstat σ p = Some (File d) → _remove_path_any p σ = (delete p σ, Ok ()).
Proof.
  intros Hf.
  assert (Hs : stat σ p = Some (File d)).
  { rewrite stat_not_link; [done|]. rewrite Hf. apply not_link_file. }
  unfold _remove_path_any, _path_exists_any, mbind, io_bind, get.
  unfold exists_, is_dir, is_symlink, unlink.
  cbv beta. rewrite Hs, Hf. cbn [negb orb]. cbv beta. rewrite Hf.
  cbv beta iota. rewrite Hs. cbv beta iota. by rewrite Hf.
Qed.

Lemma remove_absent σ p :
  exists_ σ p = false → is_symlink σ p = false →
  _remove_path_any p σ = (σ, Ok ()).
Proof.
  intros He Hl.
  unfold _remove_path_any, _path_exists_any, mbind, io_bind, get.
  cbv beta. by rewrite He, Hl.
Qed.



End Destination.

(** ** The elevated link step *)

Section Cleanup.
Import Fs.

Implicit Types (σ : fs) (p q : path).

(** The clean-up of the script: the file or link at the path is removed;
    what cannot be removed stays, and nothing is raised. *)
Lemma unlink_best_effort p σ :
  catch (unlink true p)
    (λ _, catch
            (still ← get (λ σ, exists_ σ p);
             if (still : bool) then unlink false p else pure ())
            (λ _, pure ())) σ
  = (match lstat σ p with
     | Some Dir | None => σ
     | _ => delete p σ
     end, Ok ()).
Proof.
  unfold catch, unlink, mbind, io_bind, get, pure. cbv beta.
  destruct (lstat σ p) as [[d| |t]|] eqn:E; try done.
  destruct (exists_ σ p); cbv beta; by rewrite ?E.
Qed.

Lemma radio_link_file_inj temp_dir now e1 e2 :
  radio_link_file temp_dir now e1 = radio_link_file temp_dir now e2 → e1 = e2.
Proof.
  unfold radio_link_file. intros H%app_inv_head.
  assert (E : ∀ a b : str, [a] = [b] → a = b) by (by intros a b [= ->]).
  apply E in H. by do 2 apply app_inv_head in H.
Qed.

Lemma radio_link_file_nonempty temp_dir now e : radio_link_file temp_dir now e ≠ [].
Proof. unfold radio_link_file. by destruct temp_dir. Qed.

Lemma bind_run {A B} (c : io A) (k : A → io B) σ :
  (c ≫= k) σ
  = match c σ with
    | (σ', Ok a) => k a σ'
    | (σ', Raise e) => (σ', Raise e)
    end.
Proof. done. Qed.

(** Reading the log neither changes the disk nor raises. *)
Lemma read_log p σ :
  ∃ out,
    (if exists_ σ p
     then catch (text ← read_text p; pure (strip text)) (λ _, pure [])
     else pure []) σ = (σ, Ok out).
Proof.
  destruct (exists_ σ p); [|by eexists].
  unfold catch. rewrite bind_run. unfold read_text, pure.
  destruct (stat σ p) as [[]|]; by eexists.
Qed.

(** C8, as the code has it: when the elevated link step returns, the
    script was written, the child process ran, and after it the script is
    gone unless a directory stands in its place, in which case the failed
    removal is swallowed; the log file is left as the child process left
    it.  When the step raises, the exception is that of writing the script
    or of starting the child process, and the disk is as it was then. *)
Theorem script_removed_log_kept (temp_dir : path)
    (powershell : str → io CompletedProcess) (now : datetime)
    (dest src : path) (σ σ' : fs) :
  let cmd_file := radio_link_file temp_dir now (lit ".cmd") in
  let log_file := radio_link_file temp_dir now (lit ".log") in
  let run := _mklink_symlink_admin temp_dir powershell now dest src σ in
  (∀ r, run = (σ', Ok r) →
     ∃ script ps σ1 σ2 cp,
       write_text cmd_file script σ = (σ1, Ok ())
       ∧ powershell ps σ1 = (σ2, Ok cp)
       ∧ (σ' = delete cmd_file σ2 ∨ σ' = σ2 ∧ lstat σ2 cmd_file = Some Dir)
       ∧ lstat σ' log_file = lstat σ2 log_file)
  ∧ (∀ e, run = (σ', Raise e) →
       ∃ script ps,
         write_text cmd_file script σ = (σ', Raise e)
         ∨ ∃ σ1, write_text cmd_file script σ = (σ1, Ok ())
                 ∧ powershell ps σ1 = (σ', Raise e)).
Proof.
  intros cmd_file log_file run. subst run.
  unfold _mklink_symlink_admin. cbv zeta. fold cmd_file. fold log_file.
  match goal with |- context [write_text cmd_file ?s] => set (script := s) end.
  match goal with |- context [powershell ?s] => set (ps := s) end.
  rewrite bind_run.
  destruct (write_text cmd_file script σ) as [σ1 [[]|e1]] eqn:Hw.
  2: { split; [done|]. intros e [= <- <-]. exists script, ps. by left. }
  rewrite bind_run.
  destruct (powershell ps σ1) as [σ2 [cp|e2]] eqn:Hp.
  2: { split; [done|]. intros e [= <- <-]. exists script, ps. right. by exists σ1. }
  cbv beta iota.
  match goal with |- (∀ r, ?X = _ → _) ∧ _ =>
    assert (HX : ∃ r, X = (match lstat σ2 cmd_file with
                           | Some Dir | None => σ2
                           | _ => delete cmd_file σ2
                           end, Ok r))
  end.
  { rewrite bind_run. unfold get at 1. cbv beta iota. rewrite bind_run.
    destruct (read_log log_file σ2) as [out ->].
    rewrite bind_run, unlink_best_effort, bind_run. unfold get, pure.
    cbv beta iota.
    destruct (exists_ _ dest || is_symlink _ dest); by eexists. }
  destruct HX as [r0 ->].
  assert (Hlog : ∀ τ, lstat (delete cmd_file τ) log_file = lstat τ log_file).
  { intros τ. unfold lstat.
    pose proof (radio_link_file_nonempty temp_dir now (lit ".log")) as Hne.
    fold log_file in Hne. destruct log_file as [|c l] eqn:El; [done|].
    rewrite lookup_delete_ne; [done|]. rewrite <- El. unfold cmd_file, log_file.
    by intros H%radio_link_file_inj. }
  split; [|done].
  intros r [= <- _]. exists script, ps, σ1, σ2, cp. split; [done|]. split; [done|].
  destruct (lstat σ2 cmd_file) as [[d| |t]|] eqn:E.
  - split; [by left|apply Hlog].
  - split; [by right|done].
  - split; [by left|apply Hlog].
  - split; [|done]. left. symmetry. apply delete_id.
    pose proof (radio_link_file_nonempty temp_dir now (lit ".cmd")) as Hne.
    fold cmd_file in Hne. by destruct cmd_file.
Qed.

Lemma script_removed_log_kept_witness :
  ∃ script ps σ1 σ2 cp,
    write_text (radio_link_file LinkExample.temp Example.now (lit ".cmd"))
      script LinkExample.with_temp = (σ1, Ok ())
    ∧ LinkExample.elevated ps σ1 = (σ2, Ok cp)
    ∧ (LinkExample.linked
       = delete (radio_link_file LinkExample.temp Example.now (lit ".cmd")) σ2
       ∨ LinkExample.linked = σ2
         ∧ lstat σ2 (radio_link_file LinkExample.temp Example.now (lit ".cmd"))
           = Some Dir)
    ∧ lstat LinkExample.linked
        (radio_link_file LinkExample.temp Example.now (lit ".log"))
      = lstat σ2 (radio_link_file LinkExample.temp Example.now (lit ".log")).
Proof.
  pose proof (script_removed_log_kept LinkExample.temp LinkExample.elevated
                Example.now LinkExample.dest LinkExample.src
                LinkExample.with_temp LinkExample.linked) as [H _].
  apply (H (true, lit "symbolic link created for C:\ats\live_streams.sii")).
  run_io.
Defined.

(** C8 as stated fails: after a run in which the elevated script made the
    link and wrote its log, the script is gone and the log is still there. *)
Lemma log_file_left_behind :
  radio_link_file LinkExample.temp Example.now (lit ".cmd")
  = LinkExample.cmd_file
  ∧ radio_link_file LinkExample.temp Example.now (lit ".log")
    = LinkExample.log_file
  ∧ _mklink_symlink_admin LinkExample.temp LinkExample.elevated Example.now
      LinkExample.dest LinkExample.src LinkExample.with_temp
    = (LinkExample.linked,
       Ok (true, lit "symbolic link created for C:\ats\live_streams.sii"))
  ∧ lstat LinkExample.linked LinkExample.cmd_file = None
  ∧ lstat LinkExample.linked LinkExample.log_file
    = Some (File LinkExample.log_text).
Proof.
  split; [vm_compute; reflexivity|]. split; [vm_compute; reflexivity|].
  split; [run_io|]. split; vm_compute; reflexivity.
Qed.

End Cleanup.

(** * Further properties of the code *)

(** ** Parsing *)

Section ParseMore.
Local Open Scope nat_scope.

Lemma scan_lines_zip i lines :
  Forall2 (λ j s, ∃ line, i ≤ j ∧ lines !! (j - i) = Some line
                          ∧ decode_line line = Some s)
    (scan_lines i lines).1 (scan_lines i lines).2.
Proof.
  revert i. induction lines as [|l lines IH]; intros i; [constructor|].
  cbn [scan_lines]. specialize (IH (S i)).
  destruct (scan_lines (S i) lines) as [idxs sts]. cbn [fst snd] in IH.
  assert (Hshift : Forall2 (λ j s, ∃ line, i ≤ j
                              ∧ (l :: lines) !! (j - i) = Some line
                              ∧ decode_line line = Some s) idxs sts).
  { eapply Forall2_impl; [exact IH|]. intros j s (line & Hj & Hl & Hd).
    exists line. split; [lia|]. split; [|done].
    replace (j - i) with (S (j - S i)) by lia. done. }
  destruct (decode_line l) as [s|] eqn:Hd; cbn [fst snd]; [|done].
  constructor; [|done]. exists l. split; [lia|]. split; [|done].
  by replace (i - i) with 0 by lia.
Qed.

Lemma scan_lines_mem i lines j :
  j ∈ (scan_lines i lines).1
  ↔ i ≤ j ∧ ∃ line, lines !! (j - i) = Some line ∧ is_Some (decode_line line).
Proof.
  revert i. induction lines as [|l lines IH]; intros i.
  - cbn [scan_lines fst]. split; [by intros ?%elem_of_nil|].
    by intros (_ & line & ? & _).
  - cbn [scan_lines]. specialize (IH (S i)).
    destruct (scan_lines (S i) lines) as [idxs sts]. cbn [fst] in IH.
    assert (Hrest : j ∈ idxs
                    ↔ S i ≤ j ∧ ∃ line, (l :: lines) !! (j - i) = Some line
                                        ∧ is_Some (decode_line line)).
    { rewrite IH. split; intros (Hj & line & Hl & Hd);
        (split; [done|]); exists line; (split; [|done]).
      - by replace (j - i) with (S (j - S i)) by lia.
      - by replace (j - i) with (S (j - S i)) in Hl by lia. }
    destruct (decode_line l) as [s|] eqn:Hd; cbn [fst].
    + rewrite elem_of_cons, Hrest. split.
      * intros [->|(Hj & line & Hl & Hs)].
        -- split; [done|]. exists l. replace (i - i) with 0 by lia.
           split; [done|]. by rewrite Hd.
        -- split; [lia|]. by exists line.
      * intros (Hj & line & Hl & Hs).
        destruct (decide (j = i)) as [->|Hne]; [by left|].
        right. split; [lia|]. by exists line.
    + rewrite Hrest. split.
      * intros (Hj & line & Hl & Hs). split; [lia|]. by exists line.
      * intros (Hj & line & Hl & Hs). split; [|by exists line].
        destruct (decide (j = i)) as [->|Hne]; [|lia].
        replace (i - i) with 0 in Hl by lia. injection Hl as <-.
        rewrite Hd in Hs. by destruct Hs.
Qed.

Lemma parse_by_stat (p : Fs.path) (σ : Fs.fs) :
  (parse_live_streams p σ).2
  = match Fs.stat σ p with
    | Some (Fs.File text) =>
        match scan_lines 0 (splitlines text) with
        | (_, []) =>
            Raise (ValueError
                     "No stream_data[...] station entries found in this file.")
        | (idxs, stations) => Ok (splitlines text, idxs, stations)
        end
    | Some Fs.Dir => Raise IsADirectoryError
    | Some (Fs.Symlink _) => Raise FileNotFoundError
    | None => Raise (ValueError "File does not exist.")
    end.
Proof.
  unfold parse_live_streams, mbind, Fs.io_bind, Fs.get, Fs.exists_,
    Fs.read_text. cbv beta.
  destruct (Fs.stat σ p) as [[text| |t]|] eqn:E; cbn [negb]; cbv beta;
    rewrite ?E; try done.
  by destruct (scan_lines 0 (splitlines text)) as [idxs [|s sts]].
Qed.

(** X1: the result of [parse_live_streams] depends on nothing but what the
    path leads to, and parsing leaves the disk as it is: on two disks
    where the path leads to the same entry, the outcome (the document or
    the exception) is the same, and the disk after the call is the disk
    before it. *)
Theorem parse_reads_one_file (p : Fs.path) (σ τ : Fs.fs) :
  Fs.stat σ p = Fs.stat τ p →
  parse_live_streams p σ = (σ, (parse_live_streams p τ).2).
Proof.
  intros H. apply io_pair; [apply parse_live_streams_state|].
  by rewrite !parse_by_stat, H.
Qed.

Lemma parse_reads_one_file_witness :
  parse_live_streams Example.file Example.disk_notes
  = (Example.disk_notes, (parse_live_streams Example.file Example.disk).2).
Proof.
  apply (parse_reads_one_file Example.file Example.disk_notes Example.disk).
  vm_compute. reflexivity.
Defined.

(** X2: the indexes that [parse_live_streams] returns are strictly
    increasing, they pair off with the stations (the k-th station is the
    one decoded from the line at the k-th index), and a line of the
    document is at one of the indexes exactly when it decodes. *)
Theorem parse_indexes (p : Fs.path) (σ σ' : Fs.fs) (lines : list str)
    (idxs : list nat) (stations : list Station) :
  parse_live_streams p σ = (σ', Ok (lines, idxs, stations)) →
  StronglySorted lt idxs
  ∧ Forall2 (λ i s, ∃ line, lines !! i = Some line
                            ∧ decode_line line = Some s) idxs stations
  ∧ ∀ i line, lines !! i = Some line →
      (i ∈ idxs ↔ is_Some (decode_line line)).
Proof.
  intros (_ & text & _ & -> & Hscan & _)%parse_live_streams_Ok.
  pose proof (scan_lines_sorted 0 (splitlines text)) as Hs.
  pose proof (scan_lines_zip 0 (splitlines text)) as Hz.
  pose proof (scan_lines_mem 0 (splitlines text)) as Hm.
  rewrite Hscan in Hs, Hz, Hm. cbn [fst snd] in *.
  split; [done|]. split.
  - eapply Forall2_impl; [exact Hz|]. intros j s (line & _ & Hl & Hd).
    exists line. by rewrite Nat.sub_0_r in Hl.
  - intros i line Hl. rewrite Hm, Nat.sub_0_r. split.
    + intros (_ & line' & Hl' & Hd). by rewrite Hl in Hl'; injection Hl' as <-.
    + intros Hd. split; [lia|]. by exists line.
Qed.

Lemma parse_indexes_witness :
  StronglySorted lt Example.idxs
  ∧ Forall2 (λ i s, ∃ line, Example.lines !! i = Some line
                            ∧ decode_line line = Some s)
      Example.idxs [Example.alpha; Example.beta]
  ∧ ∀ i line, Example.lines !! i = Some line →
      (i ∈ Example.idxs ↔ is_Some (decode_line line)).
Proof.
  apply (parse_indexes Example.file Example.disk Example.disk).
  run_io.
Defined.

End ParseMore.

(** ** The line codec *)

Section CodecMore.

Lemma split_length (sep : N) (s : str) :
  length (Py.split sep s) = S (length (List.filter (λ c, (c =? sep)%N) s)).
Proof.
  induction s as [|c s IH]; [done|]. cbn [Py.split List.filter].
  destruct (c =? sep)%N; cbn [length]; [by rewrite IH|].
  destruct (Py.split sep s) as [|x xs]; [done|]. exact IH.
Qed.

(** X3: a line that [station_to_line] writes for a station whose text
    fields hold no line feed decodes to that station with its text fields
    trimmed, whatever the index written into it: bitrate and favorite come
    back as they are, and the text fields come back unchanged exactly when
    they have no blank at either end. *)
Theorem decode_encoded_station (i : nat) (s : Station) (line : str) :
  station_to_line i s = Ok line →
  Forall (λ f, 10 ∉ f) [url s; name s; genre s; language s] →
  decode_line line = Some (trimmed s).
Proof.
  intros (b & Hb & H1 & H2 & H3 & H4 & ->)%station_to_line_Ok Hlf.
  assert (Hdot : Forall (λ f, Forall (λ c, dot c = true) f)
                   [url s; name s; genre s; language s]).
  { eapply Forall_impl; [exact Hlf|]. intros f Hf. apply Forall_forall.
    intros c Hc. apply dot_true. by intros ->. }
  apply Forall_cons in Hdot as [U Hdot]. apply Forall_cons in Hdot as [N' Hdot].
  apply Forall_cons in Hdot as [G Hdot]. apply Forall_cons in Hdot as [L _].
  set (payload := url s ++ _).
  assert (Hbc := str_of_int_chars _ _ Hb).
  assert (Hb124 : 124 ∉ b).
  { intros Hin. rewrite Forall_forall in Hbc.
    destruct (Hbc _ Hin) as [?|Hd]; [done|].
    by apply ascii_digit_facts in Hd as (_ & _ & _ & _ & _ & _ & ? & _). }
  assert (Hbdot : Forall (λ c, dot c = true) b).
  { eapply Forall_impl; [exact Hbc|]. intros c [->|Hd]; [done|].
    apply dot_true. by intros ->. }
  assert (Hpay : Forall (λ c, dot c = true) payload).
  { unfold payload. repeat (apply Forall_app; split);
      try done; try (by repeat constructor).
    destruct (favorite s); by repeat constructor. }
  unfold decode_line.
  assert (rstrip_char 10
            (lit "stream_data[" ++ str_of_nat i ++ lit "]: " ++ [34]
             ++ payload ++ [34; 10])
          = lit "stream_data[" ++ str_of_nat i ++ lit "]: " ++ [34]
            ++ payload ++ [34]) as ->.
  { change [34; 10] with ([34] ++ [10]).
    rewrite !app_assoc, rstrip_char_snoc.
    by rewrite rstrip_char_keep. }
  rewrite stream_re_encoded; [|
    eapply Forall_impl; [apply str_of_N_digits|apply isdecimal_ascii] |
    apply str_of_N_nonempty | done].
  change (group 2 [str_of_nat i; payload]) with payload.
  unfold payload. cbn [app].
  rewrite !split_app by (by apply contains_char_false).
  rewrite split_no_sep by (by destruct (favorite s)).
  by rewrite (int_of_str_of_int _ _ Hb), strip_fav.
Qed.

Lemma decode_encoded_station_witness :
  ∃ line, station_to_line 7%nat Example.padded = Ok line
          ∧ decode_line line = Some Example.gamma.
Proof.
  eexists. split; [vm_compute; reflexivity|].
  apply (decode_encoded_station 7%nat Example.padded).
  - vm_compute. reflexivity.
  - apply Forall_forall. intros f Hf. apply contains_char_false.
    repeat (apply elem_of_cons in Hf as [->|Hf]; [vm_compute; reflexivity|]).
    by apply elem_of_nil in Hf.
Defined.

(** X4: no text is matched by both patterns, and a line that
    [station_to_line] writes is never taken for the count line. *)
Theorem patterns_disjoint :
  (∀ t m, re_match STREAM_RE t = Some m → re_match STREAM_COUNT_RE t = None)
  ∧ (∀ i s line, station_to_line i s = Ok line → count_match line = None).
Proof. split; [apply stream_re_not_count|apply station_line_count]. Qed.

Lemma patterns_disjoint_witness :
  re_match STREAM_COUNT_RE (lit "stream_data[0]: " ++ [34; 34]) = None
  ∧ ∃ line, station_to_line 0%nat Example.alpha = Ok line
            ∧ count_match line = None.
Proof.
  destruct patterns_disjoint as [H1 H2]. split.
  - apply (H1 _ [lit "0"; []]). vm_compute. reflexivity.
  - eexists. split; [vm_compute; reflexivity|].
    apply (H2 0%nat Example.alpha). vm_compute. reflexivity.
Defined.

(** X5: a line is a station line exactly when the station pattern matches
    it (its line feeds at the end apart) and its payload has six fields,
    that is five delimiters; a line with a payload of another arity is
    skipped. *)
Theorem decode_line_fields (line : str) :
  is_Some (decode_line line)
  ↔ ∃ m, re_match STREAM_RE (rstrip_char 10 line) = Some m
         ∧ length (List.filter (λ c, (c =? 124)%N) (group 2 m)) = 5%nat.
Proof.
  unfold decode_line.
  destruct (re_match STREAM_RE (rstrip_char 10 line)) as [m|]; cbv zeta.
  2: { split; [by intros [? ?]|by intros (? & ? & _)]. }
  pose proof (split_length 124 (group 2 m)) as Hl.
  split.
  - intros [s Hs]. exists m. split; [done|].
    destruct (Py.split 124 (group 2 m))
      as [|u [|n [|g [|l [|b [|f [|x xs]]]]]]]; try done.
    cbn [length] in Hl. lia.
  - intros (m' & [= <-] & Hc). rewrite Hc in Hl.
    destruct (Py.split 124 (group 2 m))
      as [|u [|n [|g [|l [|b [|f [|x xs]]]]]]]; done.
Qed.

End CodecMore.

(** ** The count line, forwards *)

Section CountForwards.

Lemma isspace_true c :
  isspace c = true →
  (9 ≤ c ∧ c ≤ 13) ∨ (28 ≤ c ∧ c ≤ 32) ∨ c = 133 ∨ c = 160 ∨ c = 5760
  ∨ (8192 ≤ c ∧ c ≤ 8202) ∨ c = 8232 ∨ c = 8233 ∨ c = 8239 ∨ c = 8287
  ∨ c = 12288.
Proof.
  unfold isspace. rewrite !orb_true_iff, !between_true, !N.eqb_eq. tauto.
Qed.

Lemma decimal_zeros_not_space :
  Forall (λ z, ∀ c, z ≤ c → c ≤ z + 9 → isspace c = false) decimal_zeros.
Proof.
  unfold decimal_zeros.
  repeat (constructor; [intros c H1 H2;
    destruct (isspace c) eqn:E; [apply isspace_true in E; lia | done] |]).
  constructor.
Qed.

Lemma isdecimal_not_space c : isdecimal c = true → isspace c = false.
Proof.
  unfold isdecimal. destruct (decimal_value c) as [d|] eqn:E; [|done].
  intros _. apply decimal_value_Some in E as (z & Hin & H1 & H2 & _).
  pose proof decimal_zeros_not_space as HF.
  rewrite Forall_forall in HF. apply (HF z); [by apply list_elem_of_In | done..].
Qed.

Lemma isspace_not_decimal c : isspace c = true → isdecimal c = false.
Proof.
  intros H. destruct (isdecimal c) eqn:E; [|done].
  apply isdecimal_not_space in E. congruence.
Qed.

(** The count pattern matches what it is made for, and its groups are the
    three parts. *)
Lemma count_re_encoded (ws ws2 ws3 digits suf : str) :
  Forall (λ c, isspace c = true) ws → Forall (λ c, isspace c = true) ws2 →
  Forall (λ c, isspace c = true) ws3 →
  Forall (λ c, isdecimal c = true) digits → digits ≠ [] →
  Forall (λ c, isspace c = true) suf →
  re_match STREAM_COUNT_RE
    ((ws ++ lit "stream_data" ++ ws2 ++ 58 :: ws3) ++ digits ++ suf)
  = Some [ws ++ lit "stream_data" ++ ws2 ++ 58 :: ws3; digits; suf].
Proof.
  intros H1 H2 H3 Hd Hne Hs.
  assert (Hstop_d : stops isspace (digits ++ suf)).
  { destruct Hd as [|c d Hc _]; [done|]. by apply isdecimal_not_space. }
  assert (Hstop_s : stops isdecimal suf).
  { destruct Hs as [|c s Hc _]; [done|]. by apply isspace_not_decimal. }
  rewrite re_match_unfold. unfold STREAM_COUNT_RE.
  cbn [app]. rewrite run_bol, (run_open _ _ _ []).
  rewrite <- !app_assoc.
  apply run_star_max; [done|done|].
  unfold chars. rewrite run_chars. cbn [app].
  apply run_star_max; [done|done|].
  change (58 :: ws3 ++ digits ++ suf) with ([58] ++ ws3 ++ digits ++ suf) at 1.
  cbn [app]. rewrite run_chr.
  apply run_star_max; [done|done|].
  rewrite run_close, run_open. cbn [drop].
  apply run_plus_max; [done..|].
  rewrite run_close, drop_app_length, run_open.
  rewrite <- (app_nil_r suf) at 1.
  apply (run_star_max isspace _ _ _ _ suf []); [done|done|].
  rewrite run_close, drop_app_length, run_eol, run_nil. cbn [rev app drop].
  by rewrite <- !app_assoc.
Qed.

End CountForwards.

(** ** What the count line says after the update *)

Section CountAfter.

Lemma last_digit_not_lf (ds : str) :
  Forall (λ c, is_ascii_digit c = true) ds → last ds ≠ Some 10.
Proof.
  intros H. destruct ds as [|c ds _] using rev_ind; [done|].
  rewrite last_snoc. intros [= ->]. apply Forall_app in H as [_ H].
  by inversion H.
Qed.

Lemma rewritten_count_line (line : str) (m : list str) (n : nat) :
  count_match line = Some m → lf_once line →
  let new := group 1 m ++ str_of_nat n ++ group 3 m
             ++ (if endswith_char 10 line then [10] else []) in
  count_match new = Some [group 1 m; str_of_nat n; group 3 m]
  ∧ endswith_char 10 new = endswith_char 10 line.
Proof.
  intros Hm Hlf.
  destruct (count_line_parts _ _ Hm Hlf)
    as (ws & ws2 & ws3 & old & suf & -> & E & Hws & Hws2 & Hws3 & Hold & Hne
        & Hsuf).
  cbv zeta in E.
  change (group 1 [?a; ?b; ?c]) with a. change (group 3 [?a; ?b; ?c]) with c.
  set (pre := ws ++ lit "stream_data" ++ ws2 ++ 58 :: ws3) in *.
  set (nl := if endswith_char 10 line then [10] else []) in *.
  assert (Hold_end : last (pre ++ old ++ suf) ≠ Some 10).
  { unfold lf_once in Hlf. fold nl in Hlf. rewrite E in Hlf at 2.
    rewrite !app_assoc in Hlf. apply app_inv_tail in Hlf.
    rewrite <- !app_assoc in Hlf. rewrite <- Hlf. apply rstrip_char_last. }
  assert (Hnew_end : last (pre ++ str_of_nat n ++ suf) ≠ Some 10).
  { destruct suf as [|c suf _] using rev_ind.
    - rewrite app_nil_r. pose proof (str_of_N_nonempty (N.of_nat n)) as Hn.
      pose proof (last_digit_not_lf _ (str_of_N_digits (N.of_nat n))) as Hd.
      unfold str_of_nat. destruct (str_of_N (N.of_nat n)) as [|d ds _] using rev_ind;
        [done|].
      rewrite app_assoc, last_snoc. by rewrite last_snoc in Hd.
    - rewrite !app_assoc, last_snoc. by rewrite !app_assoc, last_snoc in Hold_end. }
  split.
  - unfold count_match.
    assert (rstrip_char 10 (pre ++ str_of_nat n ++ suf ++ nl)
            = pre ++ str_of_nat n ++ suf) as ->.
    { unfold nl. destruct (endswith_char 10 line).
      - rewrite !app_assoc, rstrip_char_snoc, <- !app_assoc.
        by apply rstrip_char_id.
      - rewrite app_nil_r. by apply rstrip_char_id. }
    apply count_re_encoded; try done.
    + eapply Forall_impl; [apply str_of_N_digits|apply isdecimal_ascii].
    + apply str_of_N_nonempty.
  - unfold nl. destruct (endswith_char 10 line).
    + by rewrite !app_assoc, endswith_char_snoc.
    + rewrite app_nil_r. unfold endswith_char.
      destruct (last (pre ++ str_of_nat n ++ suf)) as [x|]; [|done].
      destruct (N.eqb_spec x 10) as [->|]; done.
Qed.

(** X6: [_update_stream_data_count_line] keeps the number of lines, says
    [True] exactly when some line has the form of a count line, and
    changes nothing when it says [False]. *)
Theorem count_update_outcome (W : list str) (n : nat) :
  length (_update_stream_data_count_line W n).1 = length W
  ∧ ((_update_stream_data_count_line W n).2 = true
     ↔ Exists (λ l, is_Some (count_match l)) W)
  ∧ ((_update_stream_data_count_line W n).2 = false
     → (_update_stream_data_count_line W n).1 = W).
Proof.
  destruct (count_line_search W) as [H|(l1 & line & l2 & m & -> & H1 & Hm)].
  - rewrite update_none by done. cbn [fst snd]. split; [done|].
    split; [|done]. split; [done|]. intros HE. exfalso.
    apply Exists_exists in HE as (l & Hl & [m Hm]).
    rewrite Forall_forall in H. by rewrite (H l Hl) in Hm.
  - rewrite (update_first _ _ _ _ _ H1 Hm). cbn [fst snd].
    split; [by rewrite !length_app|]. split; [|done].
    split; [|done]. intros _. apply Exists_app. right.
    apply Exists_cons_hd. by exists m.
Qed.

(** X7: after the update of a line sequence with a count line (each line
    ending in at most one line feed, as the lines of a file do), the first
    line of count form reads the new count: the count pattern matches it
    with the old prefix and suffix and with digits whose decimal value is
    the count; a second update with the same
    count changes nothing. *)
Theorem count_line_states_count (W : list str) (n : nat) :
  Forall lf_once W →
  (_update_stream_data_count_line W n).2 = true →
  ∃ l1 old new l2 m,
    W = l1 ++ old :: l2
    ∧ (_update_stream_data_count_line W n).1 = l1 ++ new :: l2
    ∧ Forall (λ l, count_match l = None) l1
    ∧ count_match old = Some m
    ∧ count_match new = Some [group 1 m; str_of_nat n; group 3 m]
    ∧ digits_value (str_of_nat n) = N.of_nat n
    ∧ _update_stream_data_count_line (l1 ++ new :: l2) n
      = (l1 ++ new :: l2, true).
Proof.
  intros Hlf Hfound.
  destruct (count_line_search W) as [H|(l1 & line & l2 & m & -> & H1 & Hm)].
  { rewrite update_none in Hfound by done. done. }
  rewrite (update_first _ _ _ _ _ H1 Hm). cbn [fst].
  apply Forall_app in Hlf as [_ Hlf]. apply Forall_cons in Hlf as [Hline _].
  destruct (rewritten_count_line line m n Hm Hline) as [Hnew Hend].
  cbv zeta in Hnew, Hend.
  set (new := group 1 m ++ _) in *.
  exists l1, line, new, l2, m. repeat (split; [done|]). split.
  - apply str_of_N_value.
  - rewrite (update_first _ _ _ _ _ H1 Hnew), Hend.
    change (group 1 [?a; ?b; ?c]) with a. change (group 3 [?a; ?b; ?c]) with c.
    done.
Qed.

Lemma count_line_states_count_witness :
  ∃ l1 old new l2 m,
    Example.lines = l1 ++ old :: l2
    ∧ (_update_stream_data_count_line Example.lines 5).1 = l1 ++ new :: l2
    ∧ Forall (λ l, count_match l = None) l1
    ∧ count_match old = Some m
    ∧ count_match new = Some [group 1 m; str_of_nat 5; group 3 m]
    ∧ digits_value (str_of_nat 5) = 5
    ∧ _update_stream_data_count_line (l1 ++ new :: l2) 5
      = (l1 ++ new :: l2, true).
Proof.
  apply (count_line_states_count Example.lines 5).
  - apply joinable_lf_once, text_lines_joinable, splitlines_text_lines.
  - vm_compute. reflexivity.
Defined.

End CountAfter.

(** ** Where the station block goes *)

Section Placement.
Local Open Scope nat_scope.

Lemma is_tail_line_true l :
  is_tail_line l = true ↔ strip l = [] ∨ strip l = lit "}".
Proof.
  unfold is_tail_line. rewrite orb_true_iff, !bool_decide_eq_true. done.
Qed.

Lemma is_tail_line_false l :
  is_tail_line l = false ↔ strip l ≠ [] ∧ strip l ≠ lit "}".
Proof.
  unfold is_tail_line. rewrite orb_false_iff, !bool_decide_eq_false. done.
Qed.

Lemma trailing_brace_tail_aux (K : list str) :
  let n := _find_trailing_brace_tail_start K in
  n ≤ length K
  ∧ Forall (λ l, strip l = [] ∨ strip l = lit "}") (drop n K)
  ∧ ∀ l, last (take n K) = Some l → strip l ≠ [] ∧ strip l ≠ lit "}".
Proof.
  unfold _find_trailing_brace_tail_start.
  induction K as [|x K IH] using rev_ind.
  - cbn. split; [lia|]. split; [constructor|done].
  - rewrite rev_unit, length_app. cbn [brace_tail_length length].
    destruct (is_tail_line x) eqn:Hx.
    + destruct IH as (IH1 & IH2 & IH3).
      replace (length K + 1 - S (brace_tail_length (rev K)))
        with (length K - brace_tail_length (rev K)) by lia.
      split; [lia|]. rewrite take_app_le, drop_app_le by lia.
      split; [|done]. apply Forall_app. split; [done|].
      constructor; [by apply is_tail_line_true|constructor].
    + rewrite Nat.sub_0_r. split; [lia|].
      rewrite firstn_all2, drop_ge by (rewrite length_app; simpl; lia).
      split; [constructor|]. rewrite last_snoc. intros l [= <-].
      by apply is_tail_line_false.
Qed.

(** X8: [_find_trailing_brace_tail_start] returns the index at which the
    trailing run of blank lines and closing braces begins: it is at most
    the number of lines, every line from it on is blank or a lone brace
    once trimmed, the line before it (when there is one) is neither, and
    it is the least index with all lines from it on of that kind. *)
Theorem trailing_brace_tail (K : list str) :
  let n := _find_trailing_brace_tail_start K in
  n ≤ length K
  ∧ Forall (λ l, strip l = [] ∨ strip l = lit "}") (drop n K)
  ∧ (∀ l, last (take n K) = Some l → strip l ≠ [] ∧ strip l ≠ lit "}")
  ∧ ∀ m, Forall (λ l, strip l = [] ∨ strip l = lit "}") (drop m K) → n ≤ m.
Proof.
  destruct (trailing_brace_tail_aux K) as (Hn & HB & HA).
  set (n := _find_trailing_brace_tail_start K) in *.
  split; [done|]. split; [done|]. split; [done|].
  intros m Hm. destruct (decide (n ≤ m)) as [|Hlt]; [done|]. exfalso.
  destruct n as [|n]; [lia|].
  destruct (lookup_lt_is_Some_2 K n) as [l Hl]; [lia|].
  destruct (HA l) as [H1 H2].
  { rewrite last_lookup, length_take, Nat.min_l by lia. cbn [pred].
    rewrite lookup_take_lt by lia. done. }
  rewrite Forall_lookup in Hm. destruct (Hm (n - m) l); [|done..].
  rewrite lookup_drop. by replace (m + (n - m)) with n by lia.
Qed.

Lemma lines_except_take idxs i k lines :
  Forall (λ j, i + k ≤ j) idxs →
  take k (lines_except idxs i lines) = take k lines.
Proof.
  revert i k. induction lines as [|l lines IH]; intros i k H; [done|].
  destruct k as [|k]; [done|]. cbn [lines_except].
  rewrite bool_decide_eq_false_2.
  - cbn [take]. f_equal. apply IH.
    eapply Forall_impl; [exact H|]. simpl. lia.
  - intros Hin. rewrite Forall_forall in H. apply H in Hin. lia.
Qed.

Lemma lines_except_drop idxs i k lines :
  Forall (λ j, i + k ≤ j) idxs →
  drop k (lines_except idxs i lines) = lines_except idxs (i + k) (drop k lines).
Proof.
  revert i k. induction lines as [|l lines IH]; intros i k H.
  - cbn [lines_except]. by rewrite !drop_nil.
  - destruct k as [|k]; [by rewrite Nat.add_0_r|]. cbn [lines_except].
    rewrite bool_decide_eq_false_2.
    + cbn [drop]. rewrite IH; [f_equal; lia|].
      eapply Forall_impl; [exact H|]. simpl. lia.
    + intros Hin. rewrite Forall_forall in H. apply H in Hin. lia.
Qed.

(** X9: with any strategy but [new_slot], the new station lines are put
    where the first old station line was: the working sequence is the
    document up to the smallest index, then the new lines, then the rest of
    the document without the old station lines. *)
Theorem in_place_position (lines : list str) (idxs : list nat)
    (stations : list Station) (strategy : str) (W : list str) :
  StronglySorted lt idxs → strategy ≠ lit "new_slot" →
  arrange_lines lines idxs stations strategy = Ok W →
  ∃ first new,
    head idxs = Some first ∧ first < length lines
    ∧ encode_from 0 stations = Ok new
    ∧ W = take first lines ++ new
          ++ lines_except idxs first (drop first lines).
Proof.
  intros Hs Hstr HW.
  apply arrange_lines_inv in HW
    as (new & A & B & S1 & S2 & Hnew & Hlt & EK & -> & _ & _ & Hcase); [|done].
  rewrite bool_decide_eq_false_2 in Hcase by done.
  destruct Hcase as (-> & -> & first & Hfirst & HA).
  exists first, new. split; [done|].
  destruct idxs as [|f rest]; [done|]. injection Hfirst as ->.
  assert (Hge : Forall (λ j, 0 + first ≤ j) (first :: rest)).
  { apply StronglySorted_inv in Hs as [_ Hs']. constructor; [lia|].
    eapply Forall_impl; [exact Hs'|]. simpl. lia. }
  split; [by apply Forall_inv in Hlt|]. split; [done|].
  rewrite <- EK in HA. rewrite lines_except_take in HA by done.
  assert (B = lines_except (first :: rest) first (drop first lines)) as ->.
  { change first with (0 + first) at 2.
    rewrite <- (lines_except_drop _ 0) by done.
    rewrite <- (take_drop first (lines_except (first :: rest) 0 lines)) in EK.
    rewrite lines_except_take in EK by done. rewrite HA in EK.
    by apply app_inv_head in EK. }
  by rewrite HA.
Qed.

Lemma in_place_position_witness :
  ∃ first new,
    head Example.idxs = Some first ∧ first < length Example.lines
    ∧ encode_from 0 [Example.gamma] = Ok new
    ∧ (∃ W, arrange_lines Example.lines Example.idxs [Example.gamma]
              Example.in_place = Ok W
            ∧ W = take first Example.lines ++ new
                  ++ lines_except Example.idxs first (drop first Example.lines)).
Proof.
  destruct (in_place_position Example.lines Example.idxs [Example.gamma]
              Example.in_place
              (take 3 Example.lines
               ++ [lit "stream_data[0]: " ++ [34%N]
                   ++ lit "http://c.example/s|Gamma|jazz|fr|96|1" ++ [34; 10]%N]
               ++ drop 5 Example.lines))
    as (first & new & H1 & H2 & H3 & H4).
  - repeat constructor.
  - discriminate.
  - vm_compute. reflexivity.
  - exists first, new. repeat (split; [done|]). eexists. split; [|exact H4].
    vm_compute. reflexivity.
Defined.

Lemma drop_while_keeps (f : N → bool) (s : str) (c : N) :
  c ∈ s → f c = false → c ∈ drop_while f s.
Proof.
  intros Hin Hc. induction s as [|x s IH]; [done|]. cbn [drop_while].
  destruct (f x) eqn:Hx; [|done].
  apply elem_of_cons in Hin as [->|Hin]; [congruence|by apply IH].
Qed.

Lemma elem_of_rev_iff (s : str) (c : N) : c ∈ rev s ↔ c ∈ s.
Proof. rewrite !list_elem_of_In. symmetry. apply in_rev. Qed.

Lemma strip_nonblank (s : str) (c : N) :
  c ∈ s → isspace c = false → strip s ≠ [].
Proof.
  intros Hin Hc. unfold strip, rstrip, lstrip.
  assert (H : c ∈ rev (drop_while isspace (rev (drop_while isspace s)))).
  { rewrite elem_of_rev_iff. apply drop_while_keeps; [|done].
    rewrite elem_of_rev_iff. by apply drop_while_keeps. }
  intros E. rewrite E in H. by apply elem_of_nil in H.
Qed.

Lemma station_block_nonblank (stations : list Station) (i : nat)
    (new : list str) :
  encode_from i stations = Ok new →
  ends_nonblank new = match new with [] => false | _ => true end.
Proof.
  intros H%encode_from_Ok. unfold ends_nonblank.
  destruct new as [|l new _] using rev_ind; [done|].
  rewrite last_snoc. apply Forall2_app_inv_r in H as (s1 & s2 & _ & H & _).
  apply Forall2_cons_inv_r in H as (s & ? & (j & Hl) & _ & _).
  apply station_to_line_Ok in Hl as (b & _ & _ & _ & _ & _ & ->).
  rewrite bool_decide_eq_false_2; [by destruct new|].
  apply (strip_nonblank _ 115%N); [|done]. by left.
Qed.

(** X10: with the strategy [new_slot] the new station lines go before the
    trailing run of blank lines and closing braces of what is left of the
    document: the working sequence is the kept lines up to that run, a bare
    line feed when there are such lines, the new lines, a bare line feed
    when there are new lines and the run begins with a brace, and the
    run. *)
Theorem new_slot_position (lines : list str) (idxs : list nat)
    (stations : list Station) (W : list str) :
  StronglySorted lt idxs →
  arrange_lines lines idxs stations (lit "new_slot") = Ok W →
  ∃ new A B,
    encode_from 0 stations = Ok new
    ∧ lines_except idxs 0 lines = A ++ B
    ∧ Forall (λ l, strip l = [] ∨ strip l = lit "}") B
    ∧ (∀ l, last A = Some l → strip l ≠ [] ∧ strip l ≠ lit "}")
    ∧ W = A ++ (match A with [] => [] | _ => [[10%N]] end)
          ++ new
          ++ (match B, new with
              | t :: _, _ :: _ =>
                  if bool_decide (strip t = lit "}") then [[10%N]] else []
              | _, _ => []
              end)
          ++ B.
Proof.
  intros Hs. unfold arrange_lines. rewrite (sorted_id idxs Hs).
  destruct (encode_from 0 stations) as [new|] eqn:Enew; [|done].
  cbn [mbind result_bind].
  destruct (del_items (rev idxs) lines) as [K|] eqn:EK; [|done].
  cbn [mbind result_bind].
  apply del_items_spec in EK as [Hlt ->]; [|done].
  set (K := lines_except idxs 0 lines).
  rewrite bool_decide_eq_true_2 by done. intros [= <-].
  destruct (trailing_brace_tail_aux K) as (Hn & HB & HA).
  set (n := _find_trailing_brace_tail_start K) in *.
  exists new, (take n K), (drop n K). split; [done|].
  split; [by rewrite take_drop|]. split; [done|]. split; [done|].
  rewrite (station_block_nonblank _ _ _ Enew).
  assert (ends_nonblank (take n K)
          = match take n K with [] => false | _ => true end) as ->.
  { unfold ends_nonblank. destruct (last (take n K)) as [l|] eqn:El.
    - destruct (HA l eq_refl) as [Hl _].
      rewrite bool_decide_eq_false_2 by done.
      destruct (take n K); [done|done].
    - apply last_None in El. by rewrite El. }
  destruct (take n K) as [|a A]; destruct (drop n K) as [|t B];
    destruct new as [|l new]; rewrite ?andb_true_r, ?andb_false_r;
    try destruct (bool_decide (strip t = lit "}"));
    by rewrite <- ?app_assoc.
Qed.

Lemma new_slot_position_witness :
  ∃ new A B,
    encode_from 0 [Example.gamma] = Ok new
    ∧ lines_except Example.idxs 0 Example.lines = A ++ B
    ∧ Forall (λ l, strip l = [] ∨ strip l = lit "}") B
    ∧ (∀ l, last A = Some l → strip l ≠ [] ∧ strip l ≠ lit "}")
    ∧ [lit "SiiNunit" ++ [10%N]; lit "{" ++ [10%N];
       lit " stream_data: 2" ++ [10%N]; [10%N];
       lit "stream_data[0]: " ++ [34%N]
       ++ lit "http://c.example/s|Gamma|jazz|fr|96|1" ++ [34; 10]%N;
       [10%N]; lit "}" ++ [10%N]]
      = A ++ (match A with [] => [] | _ => [[10%N]] end)
          ++ new
          ++ (match B, new with
              | t :: _, _ :: _ =>
                  if bool_decide (strip t = lit "}") then [[10%N]] else []
              | _, _ => []
              end)
          ++ B.
Proof.
  apply (new_slot_position Example.lines Example.idxs [Example.gamma]).
  - repeat constructor.
  - vm_compute. reflexivity.
Defined.

End Placement.

(** ** When a write goes through *)

Section WriteOutcome.
Local Open Scope nat_scope.

Lemma station_to_line_encodable i s :
  (∃ line, station_to_line i s = Ok line) ↔ encodable s.
Proof.
  unfold encodable. split.
  - intros [line (b & Hb & H1 & H2 & H3 & H4 & _)%station_to_line_Ok].
    split; [|by rewrite Hb]. unfold has_delimiter. tauto.
  - intros [Hd [b Hb]]. unfold station_to_line.
    assert (existsb (contains_char 124)
              [url s; name s; genre s; language s] = false) as ->.
    { unfold has_delimiter in Hd. cbn [existsb].
      rewrite !orb_false_iff, !contains_char_false. tauto. }
    rewrite Hb. by eexists.
Qed.

Lemma station_to_line_raise i s e :
  station_to_line i s = Raise e → ∃ msg, e = ValueError msg.
Proof.
  unfold station_to_line. destruct (existsb _ _); [intros [= <-]; eauto|].
  destruct (str_of_int _); [done|]. intros [= <-]; eauto.
Qed.

Lemma encode_from_encodable i stations :
  (∃ new, encode_from i stations = Ok new) ↔ Forall encodable stations.
Proof.
  revert i. induction stations as [|s stations IH]; intros i.
  - split; [constructor|by eexists].
  - cbn [encode_from mbind result_bind]. rewrite Forall_cons.
    rewrite <- (IH (S i)), <- (station_to_line_encodable i s). split.
    + intros [new H]. destruct (station_to_line i s) as [l|]; [|done].
      destruct (encode_from (S i) stations) as [ls|]; [|done]. eauto.
    + intros [[l ->] [ls ->]]. by eexists.
Qed.

Lemma encode_from_raise i stations e :
  encode_from i stations = Raise e → ∃ msg, e = ValueError msg.
Proof.
  revert i. induction stations as [|s stations IH]; intros i; [done|].
  cbn [encode_from mbind result_bind].
  destruct (station_to_line i s) as [l|e'] eqn:El.
  - destruct (encode_from (S i) stations) as [ls|e'] eqn:Els; [done|].
    intros [= <-]. by eapply IH.
  - intros [= <-]. by eapply station_to_line_raise.
Qed.

Lemma del_items_raise idxs lines e :
  del_items idxs lines = Raise e → e = IndexError.
Proof.
  revert lines. induction idxs as [|i idxs IH]; intros lines; [done|].
  cbn [del_items mbind result_bind]. unfold del_item.
  destruct (decide (i < length lines)); [apply IH|by intros [= <-]].
Qed.

(** X11: for strictly increasing indexes, [write_live_streams] gets past
    its rearrangement of the lines exactly when every station can be
    written (no delimiter in a text field, a bitrate that [str] converts),
    every index is an index of the document, and the index list is not
    empty unless the strategy is [new_slot]; when a station cannot be
    written the exception is a [ValueError], otherwise it is an
    [IndexError]. *)
Theorem arrange_lines_outcome (lines : list str) (idxs : list nat)
    (stations : list Station) (strategy : str) :
  StronglySorted lt idxs →
  ((∃ W, arrange_lines lines idxs stations strategy = Ok W)
   ↔ Forall encodable stations
     ∧ Forall (λ j, j < length lines) idxs
     ∧ (strategy = lit "new_slot" ∨ idxs ≠ []))
  ∧ ∀ e, arrange_lines lines idxs stations strategy = Raise e →
      if decide (Forall encodable stations) then e = IndexError
      else ∃ msg, e = ValueError msg.
Proof.
  intros Hs. unfold arrange_lines. rewrite (sorted_id idxs Hs).
  pose proof (encode_from_encodable 0 stations) as Henc.
  destruct (encode_from 0 stations) as [new|e0] eqn:Enew;
    cbn [mbind result_bind].
  - assert (Hall : Forall encodable stations) by (apply Henc; eauto).
    pose proof (del_items_spec idxs lines) as Hdel.
    destruct (del_items (rev idxs) lines) as [K|e1] eqn:EK;
      cbn [mbind result_bind].
    + destruct (Hdel K Hs) as [Hd _]. destruct (Hd eq_refl) as [Hlt _].
      case_bool_decide as Hstr.
      * split; [|done]. split; [|intros _; by eexists].
        intros _. split; [done|]. split; [done|]. by left.
      * destruct idxs as [|first rest].
        -- split.
           ++ split; [by intros [? ?]|]. intros (_ & _ & [?|?]); done.
           ++ intros e [= <-]. by rewrite decide_True.
        -- split; [|done]. split; [|intros _; by eexists].
           intros _. split; [done|]. split; [done|]. by right.
    + split.
      * split; [by intros [? ?]|]. intros (_ & Hlt & _). exfalso.
        destruct (Hdel (lines_except idxs 0 lines) Hs) as [_ Hd].
        by discriminate Hd.
      * intros e [= <-]. rewrite decide_True by done.
        by eapply del_items_raise.
  - assert (Hnot : ¬ Forall encodable stations).
    { intros H. apply Henc in H as [? ?]. done. }
    split.
    + split; [by intros [? ?]|]. intros [? _]. done.
    + intros e [= <-]. rewrite decide_False by done.
      by eapply encode_from_raise.
Qed.

Lemma arrange_lines_outcome_witness :
  (∃ W, arrange_lines Example.lines Example.idxs [Example.gamma]
          Example.in_place = Ok W)
  ∧ ∀ e, arrange_lines Example.lines [] [Example.gamma] Example.in_place
         = Raise e → e = IndexError.
Proof.
  assert (Hg : Forall encodable [Example.gamma]).
  { constructor; [|constructor]. apply (station_to_line_encodable 0).
    eexists. vm_compute. reflexivity. }
  split.
  - destruct (arrange_lines_outcome Example.lines Example.idxs
                [Example.gamma] Example.in_place) as [[_ H] _];
      [repeat constructor|].
    apply H. split; [exact Hg|]. split; [|by right].
    repeat constructor.
  - intros e He.
    pose proof (proj2 (arrange_lines_outcome Example.lines [] [Example.gamma]
                         Example.in_place (SSorted_nil _)) e He) as H.
    by destruct (decide (Forall encodable [Example.gamma])).
Defined.

End WriteOutcome.

(** ** What a write leaves alone *)

Section WriteFrame.
Import Fs.

Implicit Types (σ : fs) (p q : path).

Lemma mkdir_from_frame base comps σ σ' r q :
  mkdir_from base comps σ = (σ', r) →
  ¬ q `prefix_of` base ++ comps → σ' !! q = σ !! q.
Proof.
  revert base σ. induction comps as [|c cs IH]; intros base σ.
  - cbn. by intros [= <- _].
  - cbn [mkdir_from]. intros H Hq.
    assert (Hq' : ¬ q `prefix_of` (base ++ [c]) ++ cs)
      by (by rewrite <- app_assoc).
    destruct (lstat σ (base ++ [c])) as [n|] eqn:E.
    + destruct (is_dir σ (base ++ [c])); [by eapply IH|].
      by injection H as <- _.
    + rewrite (IH _ _ H Hq'). apply lookup_insert_ne.
      intros <-. apply Hq. exists cs. by rewrite <- app_assoc.
Qed.

Lemma write_text_frame p d σ σ' r q :
  write_text p d σ = (σ', r) →
  resolve link_fuel σ p ≠ Some q → σ' !! q = σ !! q.
Proof.
  unfold write_text. intros H Hq.
  destruct (resolve link_fuel σ p) as [t|]; [|by injection H as <- _].
  assert (t ≠ q) by congruence.
  destruct (lstat σ t) as [[]|].
  - injection H as <- _. by apply lookup_insert_ne.
  - by injection H as <- _.
  - by injection H as <- _.
  - destruct (is_dir σ (parent t)); injection H as <- _; [|done].
    by apply lookup_insert_ne.
Qed.

End WriteFrame.

(** ** Removing what is in the way of a link *)

Section Removal.
Import Fs.

Implicit Types (σ : fs) (p q : path).

Lemma lstat_nonempty σ p : p ≠ [] → lstat σ p = σ !! p.
Proof. by destruct p. Qed.

Lemma rmtree_frame σ p q :
  ¬ p `prefix_of` q → filter (λ e, ¬ p `prefix_of` e.1) σ !! q = σ !! q.
Proof.
  intros Hq. rewrite map_lookup_filter.
  destruct (σ !! q) as [n|]; [|done]. cbn. by rewrite option_guard_True.
Qed.

Lemma rmtree_gone σ p : filter (λ e, ¬ p `prefix_of` e.1) σ !! p = None.
Proof.
  apply map_lookup_filter_None. destruct (σ !! p) as [n|]; [right|by left].
  intros x _ H. by apply H.
Qed.

(** What [_remove_path_any] ends in, for every disk. *)
Lemma remove_path_any_run σ p :
  p ≠ [] →
  ∃ σ', _remove_path_any p σ = (σ', Ok ())
        ∧ σ' !! p = None ∧ ∀ q, ¬ p `prefix_of` q → σ' !! q = σ !! q.
Proof.
  intros Hne. destruct (lstat σ p) as [[d| |t]|] eqn:E.
  - exists (delete p σ). split; [by eapply remove_file|].
    split; [apply lookup_delete_eq|]. intros q Hq. apply lookup_delete_ne.
    by intros <-.
  - assert (Hs : stat σ p = Some Dir).
    { rewrite stat_not_link; [done|]. rewrite E. apply not_link_dir. }
    eexists. split.
    + apply remove_dir; [unfold is_symlink; by rewrite E
                        |unfold is_dir; by rewrite Hs|done].
    + split; [apply rmtree_gone|]. intros q. apply rmtree_frame.
  - exists (delete p σ).
    split; [apply remove_link; unfold is_symlink; by rewrite E|].
    split; [apply lookup_delete_eq|]. intros q Hq. apply lookup_delete_ne.
    by intros <-.
  - assert (Hs : stat σ p = None).
    { rewrite stat_not_link; [done|]. rewrite E. apply not_link_none. }
    exists σ. split.
    + apply remove_absent; [unfold exists_; by rewrite Hs
                           |unfold is_symlink; by rewrite E].
    + split; [by rewrite <- lstat_nonempty|done].
Qed.

(** X14: [_remove_path_any] never raises on this model of the disk
    (permissions apart), and after it nothing is left at the path, be it a
    file, a link, dangling or not, or a directory with all its content;
    what does not lie at or under the path is as before. *)
Theorem remove_path_any_removes (p : path) (σ : fs) :
  p ≠ [] →
  ∃ σ', _remove_path_any p σ = (σ', Ok ())
        ∧ exists_ σ' p || is_symlink σ' p = false
        ∧ ∀ q, ¬ p `prefix_of` q → σ' !! q = σ !! q.
Proof.
  intros Hne. destruct (remove_path_any_run σ p Hne) as (σ' & Hrun & Hp & Hq).
  exists σ'. split; [done|]. split; [|done].
  assert (Hl : lstat σ' p = None) by (by rewrite lstat_nonempty).
  unfold exists_, is_symlink. rewrite stat_not_link, Hl; [done|].
  rewrite Hl. apply not_link_none.
Qed.

Lemma remove_path_any_removes_witness :
  ∃ σ', _remove_path_any LinkExample.dest LinkExample.with_dir = (σ', Ok ())
        ∧ exists_ σ' LinkExample.dest || is_symlink σ' LinkExample.dest = false
        ∧ ∀ q, ¬ LinkExample.dest `prefix_of` q →
               σ' !! q = LinkExample.with_dir !! q.
Proof.
  apply (remove_path_any_removes LinkExample.dest LinkExample.with_dir).
  discriminate.
Defined.

End Removal.

(** ** The backup step of the link *)

Section BackupStep.
Import Fs.

Implicit Types (σ : fs) (p q : path).

Lemma parent_name p : p ≠ [] → p = parent p ++ [name p].
Proof.
  intros Hne. destruct p as [|x p _] using rev_ind; [done|].
  unfold parent, name. rewrite length_app, last_snoc. cbn [length default].
  replace (length p + 1 - 1)%nat with (length p) by lia.
  by rewrite take_app_length.
Qed.

Lemma with_name_other p (suffix : str) :
  p ≠ [] → suffix ≠ [] → with_name p (name p ++ suffix) ≠ p.
Proof.
  intros Hne Hs H. unfold with_name in H.
  rewrite (parent_name p Hne) in H at 3. apply app_inv_head in H.
  injection H as H. rewrite <- (app_nil_r (name p)) in H at 2.
  by apply app_inv_head in H.
Qed.

Lemma rename_file_run (a b : path) σ d :
  σ !! a = Some (File d) →
  rename a b σ = (σ, Raise FileExistsError) ∧ is_Some (σ !! b)
  ∨ rename a b σ = (σ, Raise FileNotFoundError) ∧ σ !! b = None
  ∨ rename a b σ = (<[b := File d]> (delete a σ), Ok ()) ∧ σ !! b = None.
Proof.
  intros Ha. unfold rename. rewrite Ha. case_bool_decide as Hb; [by left|].
  right. assert (σ !! b = None) by (by apply eq_None_not_Some).
  destruct (is_dir σ (parent b)); [by right|by left].
Qed.

(** The step on a destination that is a regular file. *)
Lemma backup_step_file (now : datetime) (dest : path) σ d :
  lstat σ dest = Some (File d) →
  ∃ b, (b = with_name dest (name dest ++ lit ".backup")
        ∨ b = with_name dest
                (name dest ++ lit ".backup_" ++ strftime_seconds now))
       ∧ _safe_backup_existing_dest now dest σ
         = match rename dest b σ with
           | (σ', Ok _) => (σ', Ok (Some b))
           | (σ', Raise e) => (σ', Raise e)
           end.
Proof.
  intros Hf.
  assert (Hs : stat σ dest = Some (File d)).
  { rewrite stat_not_link; [done|]. rewrite Hf. apply not_link_file. }
  unfold _safe_backup_existing_dest, _path_exists_any, mbind, io_bind, get.
  cbv beta. unfold exists_, is_dir, is_symlink. rewrite Hs, Hf.
  cbn [orb negb]. cbv beta iota. rewrite Hs, Hf. cbn [orb]. cbv beta iota.
  match goal with |- context [rename dest ?b σ] => exists b end.
  split; [|done].
  match goal with |- context [if ?c then _ else _] => destruct c end; auto.
Qed.

(** The outcomes of the backup step. *)
Lemma backup_step_cases (now : datetime) (dest : path) (σ σ' : fs)
    (r : result (option path)) :
  dest ≠ [] →
  _safe_backup_existing_dest now dest σ = (σ', r) →
  match r with
  | Ok None =>
      lstat σ' dest = None ∧ (∀ d, lstat σ dest ≠ Some (File d))
      ∧ ∀ q, ¬ dest `prefix_of` q → σ' !! q = σ !! q
  | Ok (Some b) =>
      ∃ d, lstat σ dest = Some (File d) ∧ σ !! b = None ∧ b ≠ dest
           ∧ σ' = <[b := File d]> (delete dest σ) ∧ lstat σ' dest = None
  | Raise e =>
      σ' = σ ∧ (e = FileExistsError ∨ e = FileNotFoundError)
      ∧ ∃ d, lstat σ dest = Some (File d)
  end.
Proof.
  intros Hne. destruct (lstat σ dest) as [[d| |t]|] eqn:E.
  - destruct (backup_step_file now dest σ d E) as (b & Hb & ->).
    assert (Hbd : b ≠ dest).
    { destruct Hb as [->| ->]; by apply with_name_other. }
    rewrite lstat_nonempty in E by done.
    destruct (rename_file_run dest b σ d E)
      as [[-> Hx]|[[-> Hx]|[-> Hx]]]; intros [= <- <-].
    + split; [done|]. split; [by left|]. by exists d.
    + split; [done|]. split; [by right|]. by exists d.
    + exists d. repeat (split; [done|]).
      rewrite lstat_nonempty by done.
      rewrite lookup_insert_ne by done. apply lookup_delete_eq.
  - assert (Hs : stat σ dest = Some Dir).
    { rewrite stat_not_link; [done|]. rewrite E. apply not_link_dir. }
    destruct (remove_path_any_run σ dest Hne) as (τ & Hrun & Hgone & Hfr).
    assert (Hl : is_symlink σ dest = false) by (unfold is_symlink; by rewrite E).
    assert (Hd : is_dir σ dest = true) by (unfold is_dir; by rewrite Hs).
    assert (He : exists_ σ dest = true) by (unfold exists_; by rewrite Hs).
    unfold _safe_backup_existing_dest, _path_exists_any, mbind, io_bind, get.
    cbv beta. rewrite Hl, He. cbn [orb negb]. cbv beta. rewrite Hd.
    cbn [orb]. cbv beta. rewrite Hrun. intros [= <- <-].
    split; [by rewrite lstat_nonempty|]. split; [intros d; done|done].
  - destruct (remove_path_any_run σ dest Hne) as (τ & Hrun & Hgone & Hfr).
    assert (Hl : is_symlink σ dest = true) by (unfold is_symlink; by rewrite E).
    unfold _safe_backup_existing_dest, _path_exists_any, mbind, io_bind, get.
    cbv beta. rewrite Hl, !orb_true_r. cbn [negb]. cbv beta.
    rewrite Hl, orb_true_r. cbv beta. rewrite Hrun. intros [= <- <-].
    split; [by rewrite lstat_nonempty|]. split; [intros d; done|done].
  - assert (Hs : stat σ dest = None).
    { rewrite stat_not_link; [done|]. rewrite E. apply not_link_none. }
    assert (Hl : is_symlink σ dest = false) by (unfold is_symlink; by rewrite E).
    assert (He : exists_ σ dest = false) by (unfold exists_; by rewrite Hs).
    unfold _safe_backup_existing_dest, _path_exists_any, mbind, io_bind, get.
    cbv beta. rewrite Hl, He. cbn [orb negb]. intros [= <- <-].
    split; [done|]. split; [intros d; done|done].
Qed.

(** X15: the backup step of the link either completes or leaves the disk
    untouched.  When it returns, nothing is left at the destination (so
    the removal that follows it in the link function finds nothing to
    do); it returns a backup path exactly when the destination was a
    regular file, and then the disk differs from the one before only by
    that file now being at the backup path, which was free; when it returns
    no backup path, what does not lie at or under the destination is as
    before.  When it raises, the destination was a regular file that could
    not be renamed, and the disk is as before. *)
Theorem backup_step_outcome (now : datetime) (dest : path) (σ σ' : fs)
    (r : result (option path)) :
  dest ≠ [] →
  _safe_backup_existing_dest now dest σ = (σ', r) →
  match r with
  | Ok backup =>
      exists_ σ' dest || is_symlink σ' dest = false
      ∧ match backup with
        | Some b =>
            ∃ d, lstat σ dest = Some (File d) ∧ σ !! b = None ∧ b ≠ dest
                 ∧ σ' = <[b := File d]> (delete dest σ)
        | None =>
            (∀ d, lstat σ dest ≠ Some (File d))
            ∧ ∀ q, ¬ dest `prefix_of` q → σ' !! q = σ !! q
        end
  | Raise e =>
      σ' = σ ∧ (e = FileExistsError ∨ e = FileNotFoundError)
      ∧ ∃ d, lstat σ dest = Some (File d)
  end.
Proof.
  intros Hne Hrun. pose proof (backup_step_cases _ _ _ _ _ Hne Hrun) as H.
  assert (Hgone : lstat σ' dest = None →
                  exists_ σ' dest || is_symlink σ' dest = false).
  { intros Hl. unfold exists_, is_symlink. rewrite stat_not_link, Hl; [done|].
    rewrite Hl. apply not_link_none. }
  destruct r as [[b|]|e]; [| |done].
  - destruct H as (d & H1 & H2 & H3 & H4 & H5). split; [by apply Hgone|].
    by exists d.
  - destruct H as (H1 & H2 & H3). split; [by apply Hgone|done].
Qed.

Lemma backup_step_outcome_witness :
  ∃ d, lstat LinkExample.with_taken LinkExample.dest = Some (File d)
       ∧ LinkExample.with_taken !! LinkExample.dest_stamped = None
       ∧ LinkExample.dest_stamped ≠ LinkExample.dest
       ∧ (_safe_backup_existing_dest Example.now LinkExample.dest
            LinkExample.with_taken).1
         = <[LinkExample.dest_stamped := File d]>
             (delete LinkExample.dest LinkExample.with_taken).
Proof.
  apply (backup_step_outcome Example.now LinkExample.dest
           LinkExample.with_taken _ (Ok (Some LinkExample.dest_stamped)));
    [discriminate|].
  apply io_pair; [reflexivity|vm_compute; reflexivity].
Defined.

End BackupStep.

(** ** What the elevated step reports *)

Section Verdict.
Import Fs.

Lemma str_or_nonempty (a b : str) : b ≠ [] → str_or a b ≠ [].
Proof. by destruct a. Qed.

(** The flag and the message of the elevated step. *)
Lemma mklink_flag (temp_dir : path)
    (powershell : str → io CompletedProcess) (now : datetime)
    (dest src : path) (σ σ' : fs) (ok : bool) (msg : str) :
  _mklink_symlink_admin temp_dir powershell now dest src σ
  = (σ', Ok (ok, msg)) →
  ok = exists_ σ' dest || is_symlink σ' dest ∧ msg ≠ [].
Proof.
  unfold _mklink_symlink_admin. cbv zeta.
  match goal with |- context [write_text ?f ?s] =>
    set (cmd_file := f); set (script := s) end.
  match goal with |- context [powershell ?s] => set (ps := s) end.
  match goal with |- context [read_text ?f] => set (log_file := f) end.
  rewrite bind_run.
  destruct (write_text cmd_file script σ) as [σ1 [[]|e1]]; [|done].
  rewrite bind_run.
  destruct (powershell ps σ1) as [σ2 [cp|e2]]; [|done].
  rewrite bind_run. unfold get at 1. cbv beta iota. rewrite bind_run.
  destruct (read_log log_file σ2) as [out ->].
  rewrite bind_run, unlink_best_effort, bind_run. unfold get, pure.
  cbv beta iota.
  match goal with |- context [exists_ ?τ dest] => set (σ3 := τ) end.
  destruct (exists_ σ3 dest || is_symlink σ3 dest) eqn:Eok;
    intros [= <- <- <-]; (split; [done|]); by apply str_or_nonempty.
Qed.

(** X16: when the elevated link step returns, its flag tells whether the
    destination is there on the disk it leaves, after its clean-up: with
    the flag set the destination exists or is a link (a dangling one
    included), without it nothing is at the destination; and the message
    is never empty. *)
Theorem mklink_verdict (temp_dir : path)
    (powershell : str → io CompletedProcess) (now : datetime)
    (dest src : path) (σ σ' : fs) (ok : bool) (msg : str) :
  _mklink_symlink_admin temp_dir powershell now dest src σ
  = (σ', Ok (ok, msg)) →
  (ok = true → exists_ σ' dest || is_symlink σ' dest = true)
  ∧ (ok = false → lstat σ' dest = None)
  ∧ msg ≠ [].
Proof.
  intros [-> Hmsg]%mklink_flag. split; [done|]. split; [|done].
  intros [He Hl]%orb_false_iff. by apply lstat_absent.
Qed.

Lemma mklink_verdict_witness :
  (true = true →
   exists_ LinkExample.linked LinkExample.dest
   || is_symlink LinkExample.linked LinkExample.dest = true)
  ∧ (true = false → lstat LinkExample.linked LinkExample.dest = None)
  ∧ lit "symbolic link created for C:\ats\live_streams.sii" ≠ [].
Proof.
  apply (mklink_verdict LinkExample.temp LinkExample.elevated Example.now
           LinkExample.dest LinkExample.src LinkExample.with_temp).
  run_io.
Defined.

End Verdict.

(** ** Linking two games *)

Section Mkdir.
Import Fs.

(** Making directories that are all there leaves the disk as it is. *)
Lemma mkdir_from_existing (base comps : path) (σ : fs) :
  (∀ k, (1 ≤ k ≤ length comps)%nat → is_dir σ (base ++ take k comps) = true) →
  (mkdir_from base comps σ).1 = σ.
Proof.
  revert base. induction comps as [|c cs IH]; intros base H; [done|].
  assert (Hd : is_dir σ (base ++ [c]) = true).
  { apply (H 1%nat). cbn [length]. lia. }
  cbn [mkdir_from]. rewrite Hd.
  assert (is_Some (lstat σ (base ++ [c]))) as [n ->].
  { unfold is_dir, stat in Hd.
    destruct (resolve link_fuel σ (base ++ [c])) as [q|] eqn:Eq; [|done].
    rewrite resolve_unfold in Eq.
    destruct (lstat σ (base ++ [c])) as [n|] eqn:El; [by exists n|].
    injection Eq as <-. cbn in Hd. by rewrite El in Hd. }
  apply IH. intros k Hk. rewrite <- app_assoc. apply (H (S k)).
  cbn [length]. lia.
Qed.

End Mkdir.

Section LinkFacts.
Import Fs.

Variable is_windows : bool.
Variable drive : path → str.
Variable lower : str → str.
Variable os_link : path → path → io unit.
Variable temp_dir : path.
Variable powershell : str → io CompletedProcess.

Lemma is_file_exists σ p : is_file σ p = true → exists_ σ p = true.
Proof. unfold is_file, exists_. by destruct (stat σ p) as [[]|]. Qed.

(** X17: the link function changes the disk only on Windows and only for a
    source that leads to a regular file: otherwise it refuses, with its
    message, and the disk is as before. *)
Theorem link_guards (now now' : datetime) (src_path dest_path : path)
    (σ : fs) :
  (is_windows = false →
   link_live_streams_force_admin_symlink is_windows drive lower os_link
      temp_dir powershell now now' src_path dest_path σ
   = (σ, Ok (Refused (lit "This feature is Windows-only."))))
  ∧ (is_windows = true → is_file σ src_path = false →
     link_live_streams_force_admin_symlink is_windows drive lower os_link
      temp_dir powershell now now' src_path dest_path σ
     = (σ, Ok (Refused (lit "Source file not found or not a file:" ++ [10]
                        ++ path_str src_path)))).
Proof.
  unfold link_live_streams_force_admin_symlink. split.
  - by intros ->.
  - intros -> Hf. cbn [negb]. rewrite bind_run. unfold get. cbv beta iota.
    by rewrite Hf, andb_false_r.
Qed.

(** The link function from the point where the destination is prepared. *)
Lemma link_run (now now' : datetime) (src_path dest_path : path)
    (σ σ1 σ2 : fs) (backup : option path) :
  is_windows = true → is_file σ src_path = true → dest_path ≠ [] →
  mkdir_parents (parent dest_path) σ = (σ1, Ok ()) →
  _safe_backup_existing_dest now dest_path σ1 = (σ2, Ok backup) →
  lstat σ2 dest_path = None
  ∧ link_live_streams_force_admin_symlink is_windows drive lower os_link
      temp_dir powershell now now' src_path dest_path σ
    = let elevated τ :=
        match _mklink_symlink_admin temp_dir powershell now' dest_path src_path τ with
        | (σ', Ok (true, _)) =>
            (σ', Ok (Linked backup
                       (lit "Created sync successfully (symlink, elevated)."
                        ++ backup_note backup)))
        | (σ', Ok (false, out)) =>
            (σ', Ok (Refused
                       (lit "Failed to create symlink (elevated)."
                        ++ [10; 10] ++ lit "Attempted:" ++ [10]
                        ++ lit "mklink " ++ [34] ++ path_str dest_path ++ [34]
                        ++ lit " " ++ [34] ++ path_str src_path ++ [34]
                        ++ [10; 10] ++ lit "Output:" ++ [10] ++ out)))
        | (σ', Raise e) => (σ', Raise e)
        end in
      if same_drive drive lower src_path dest_path
      then match os_link src_path dest_path σ2 with
           | (σ3, Ok _) =>
               (σ3, Ok (Linked backup
                          (lit "Created sync successfully (hardlink)."
                           ++ backup_note backup)))
           | (σ3, Raise _) => elevated σ3
           end
      else elevated σ2.
Proof.
  intros Hw Hf Hne Hmk Hbk.
  assert (Hgone : lstat σ2 dest_path = None).
  { pose proof (backup_step_cases _ _ _ _ _ Hne Hbk) as H.
    destruct backup as [b|]; [by destruct H as (d & _ & _ & _ & _ & ?)|].
    by destruct H. }
  split; [done|].
  unfold link_live_streams_force_admin_symlink. rewrite Hw. cbn [negb].
  rewrite bind_run. unfold get at 1. cbv beta iota.
  rewrite Hf, (is_file_exists _ _ Hf). cbn [andb negb].
  rewrite bind_run, Hmk, bind_run, Hbk, bind_run.
  unfold _path_exists_any, get at 1. cbv beta iota.
  assert (exists_ σ2 dest_path || is_symlink σ2 dest_path = false) as ->.
  { unfold exists_, is_symlink. rewrite stat_not_link, Hgone; [done|].
    rewrite Hgone. apply not_link_none. }
  rewrite bind_run. unfold pure at 1. cbv beta iota. rewrite bind_run.
  unfold catch. cbv zeta.
  destruct (same_drive drive lower src_path dest_path).
  - rewrite bind_run. destruct (os_link src_path dest_path σ2) as [σ3 [[]|e]].
    + done.
    + unfold pure at 1. cbv beta iota. rewrite bind_run.
      destruct (_mklink_symlink_admin temp_dir powershell now' dest_path src_path σ3) as [σ4 [[[] out]|e']]; done.
  - unfold pure at 1. cbv beta iota. rewrite bind_run.
    destruct (_mklink_symlink_admin temp_dir powershell now' dest_path src_path σ2) as [σ4 [[[] out]|e']]; done.
Qed.

(** X18: on Windows, for a source that is a regular file, once the
    directory of the destination is made and the backup step has returned,
    nothing is at the destination, so that the removal that follows finds
    nothing to do; and when both paths are on one drive and [os.link] goes
    through, the function returns right after it, with the backup path of
    the backup step and the hard-link message. *)
Theorem link_hard_link_first (now now' : datetime) (src_path dest_path : path)
    (σ σ1 σ2 σ3 : fs) (backup : option path) :
  is_windows = true → is_file σ src_path = true → dest_path ≠ [] →
  mkdir_parents (parent dest_path) σ = (σ1, Ok ()) →
  _safe_backup_existing_dest now dest_path σ1 = (σ2, Ok backup) →
  same_drive drive lower src_path dest_path = true →
  os_link src_path dest_path σ2 = (σ3, Ok ()) →
  lstat σ2 dest_path = None
  ∧ link_live_streams_force_admin_symlink is_windows drive lower os_link
      temp_dir powershell now now' src_path dest_path σ
    = (σ3, Ok (Linked backup
                 (lit "Created sync successfully (hardlink)."
                  ++ backup_note backup))).
Proof.
  intros Hw Hf Hne Hmk Hbk Hsame Hlink.
  destruct (link_run now now' _ _ _ _ _ _ Hw Hf Hne Hmk Hbk) as [Hgone ->].
  split; [done|]. cbv zeta. by rewrite Hsame, Hlink.
Qed.

(** X19: in the same situation, when the paths are not on one drive, or
    when [os.link] raises (whatever it raises: the exception is
    swallowed), the elevated step decides.  With its flag set the function
    returns the backup path and the symlink message, and the destination
    is there; without it the function refuses with the text of the
    attempt and the output, and nothing is at the destination; an
    exception of the elevated step passes through. *)
Theorem link_falls_back (now now' : datetime) (src_path dest_path : path)
    (σ σ1 σ2 σ3 σ4 : fs) (backup : option path)
    (r : result (bool * str)) :
  is_windows = true → is_file σ src_path = true → dest_path ≠ [] →
  mkdir_parents (parent dest_path) σ = (σ1, Ok ()) →
  _safe_backup_existing_dest now dest_path σ1 = (σ2, Ok backup) →
  (same_drive drive lower src_path dest_path = false ∧ σ3 = σ2
   ∨ same_drive drive lower src_path dest_path = true
     ∧ ∃ e, os_link src_path dest_path σ2 = (σ3, Raise e)) →
  _mklink_symlink_admin temp_dir powershell now' dest_path src_path σ3
  = (σ4, r) →
  match r with
  | Ok (true, _) =>
      link_live_streams_force_admin_symlink is_windows drive lower os_link
        temp_dir powershell now now' src_path dest_path σ
      = (σ4, Ok (Linked backup
                   (lit "Created sync successfully (symlink, elevated)."
                    ++ backup_note backup)))
      ∧ exists_ σ4 dest_path || is_symlink σ4 dest_path = true
  | Ok (false, out) =>
      link_live_streams_force_admin_symlink is_windows drive lower os_link
        temp_dir powershell now now' src_path dest_path σ
      = (σ4, Ok (Refused
                   (lit "Failed to create symlink (elevated)."
                    ++ [10; 10] ++ lit "Attempted:" ++ [10]
                    ++ lit "mklink " ++ [34] ++ path_str dest_path ++ [34]
                    ++ lit " " ++ [34] ++ path_str src_path ++ [34]
                    ++ [10; 10] ++ lit "Output:" ++ [10] ++ out)))
      ∧ lstat σ4 dest_path = None
  | Raise e =>
      link_live_streams_force_admin_symlink is_windows drive lower os_link
        temp_dir powershell now now' src_path dest_path σ
      = (σ4, Raise e)
  end.
Proof.
  intros Hw Hf Hne Hmk Hbk Hcase Hmklink.
  destruct (link_run now now' _ _ _ _ _ _ Hw Hf Hne Hmk Hbk) as [_ Hrun].
  cbv beta zeta in Hrun.
  destruct r as [[[] out]|e].
  - split; [|by apply mklink_flag in Hmklink as [<- _]].
    rewrite Hrun. destruct Hcase as [[-> ->]|[-> [e ->]]]; by rewrite Hmklink.
  - split.
    + rewrite Hrun.
      destruct Hcase as [[-> ->]|[-> [e ->]]]; by rewrite Hmklink.
    + apply mklink_flag in Hmklink as [Hok _].
      symmetry in Hok. apply orb_false_iff in Hok as [? ?].
      by apply lstat_absent.
  - rewrite Hrun. destruct Hcase as [[-> ->]|[-> [e' ->]]]; by rewrite Hmklink.
Qed.

End LinkFacts.

Section LinkRuns.
Import Fs.

Lemma link_guards_witness :
  link_live_streams_force_admin_symlink false LinkRun.drive_of
    LinkRun.lower_ascii LinkRun.hard_link LinkExample.temp LinkExample.elevated
    Example.now Example.now LinkExample.src LinkExample.dest LinkRun.start
  = (LinkRun.start, Ok (Refused (lit "This feature is Windows-only.")))
  ∧ link_live_streams_force_admin_symlink true LinkRun.drive_of
      LinkRun.lower_ascii LinkRun.hard_link LinkExample.temp
      LinkExample.elevated Example.now Example.now
      [lit "C:"; lit "ets2"] LinkExample.dest LinkRun.start
    = (LinkRun.start,
       Ok (Refused (lit "Source file not found or not a file:" ++ [10]
                    ++ path_str [lit "C:"; lit "ets2"]))).
Proof.
  split.
  - by apply (link_guards false).
  - apply (link_guards true); [done|]. vm_compute. reflexivity.
Defined.

Lemma link_hard_link_first_witness :
  lstat LinkRun.after_backup LinkExample.dest = None
  ∧ link_live_streams_force_admin_symlink true LinkRun.drive_of
      LinkRun.lower_ascii LinkRun.hard_link LinkExample.temp
      LinkExample.elevated Example.now Example.now
      LinkExample.src LinkExample.dest LinkRun.start
    = (LinkRun.after_hard_link,
       Ok (Linked (Some LinkExample.dest_backup)
             (lit "Created sync successfully (hardlink)."
              ++ backup_note (Some LinkExample.dest_backup)))).
Proof.
  apply (link_hard_link_first true LinkRun.drive_of LinkRun.lower_ascii
           LinkRun.hard_link LinkExample.temp LinkExample.elevated
           Example.now Example.now LinkExample.src LinkExample.dest
           LinkRun.start LinkRun.start LinkRun.after_backup).
  - done.
  - vm_compute. reflexivity.
  - discriminate.
  - apply io_pair; [|vm_compute; reflexivity].
    apply (mkdir_from_existing [] (parent LinkExample.dest)).
    intros [|[|[|k]]] Hk; cbn [length parent take] in Hk; try lia;
      vm_compute; reflexivity.
  - run_io.
  - vm_compute. reflexivity.
  - run_io.
Defined.

Lemma link_falls_back_witness :
  link_live_streams_force_admin_symlink true LinkRun.drive_of
    LinkRun.lower_ascii LinkRun.no_hard_link LinkExample.temp
    LinkExample.elevated Example.now Example.now
    LinkExample.src LinkExample.dest LinkRun.start
  = (LinkRun.after_elevated,
     Ok (Linked (Some LinkExample.dest_backup)
           (lit "Created sync successfully (symlink, elevated)."
            ++ backup_note (Some LinkExample.dest_backup))))
  ∧ exists_ LinkRun.after_elevated LinkExample.dest
    || is_symlink LinkRun.after_elevated LinkExample.dest = true.
Proof.
  apply (link_falls_back true LinkRun.drive_of LinkRun.lower_ascii
           LinkRun.no_hard_link LinkExample.temp LinkExample.elevated
           Example.now Example.now LinkExample.src LinkExample.dest
           LinkRun.start LinkRun.start LinkRun.after_backup
           LinkRun.after_backup LinkRun.after_elevated
           (Some LinkExample.dest_backup)
           (Ok (true, lit "symbolic link created for C:\ats\live_streams.sii"))).
  - done.
  - vm_compute. reflexivity.
  - discriminate.
  - apply io_pair; [|vm_compute; reflexivity].
    apply (mkdir_from_existing [] (parent LinkExample.dest)).
    intros [|[|[|k]]] Hk; cbn [length parent take] in Hk; try lia;
      vm_compute; reflexivity.
  - run_io.
  - right. split; [vm_compute; reflexivity|]. by exists OSError.
  - run_io.
Defined.

End LinkRuns.

(** ** The candidates and the search *)

Section DocumentsFacts.
Import Fs.

Variable qt_docs : option path.
Variable home : path.
Variable is_windows : bool.
Variable lower : str → str.

Lemma unseen_sublist seen cands : unseen lower seen cands `sublist_of` cands.
Proof.
  revert seen. induction cands as [|p rest IH]; intros seen; [done|].
  cbn [unseen]. case_bool_decide; [apply sublist_cons, IH|apply sublist_skip, IH].
Qed.

Lemma unseen_keys seen cands :
  NoDup ((λ p, lower (path_str p)) <$> unseen lower seen cands)
  ∧ ∀ p, p ∈ unseen lower seen cands → lower (path_str p) ∉ seen.
Proof.
  revert seen. induction cands as [|p rest IH]; intros seen.
  - split; [constructor|]. by intros p ?%elem_of_nil.
  - cbn [unseen]. case_bool_decide as Hin; [apply IH|].
    destruct (IH ({[lower (path_str p)]} ∪ seen)) as [IH1 IH2].
    split.
    + cbn [fmap list_fmap]. constructor; [|done].
      intros (q & Hq & Hqin)%list_elem_of_fmap. apply IH2 in Hqin.
      apply Hqin. rewrite <- Hq. apply elem_of_union. left.
      by apply elem_of_singleton.
    + intros q [->|Hq]%elem_of_cons; [done|]. apply IH2 in Hq.
      intros Hs. apply Hq, elem_of_union. by right.
Qed.

Lemma unseen_covers seen cands p :
  p ∈ cands →
  lower (path_str p) ∈ seen
  ∨ lower (path_str p) ∈ (λ q, lower (path_str q)) <$> unseen lower seen cands.
Proof.
  revert seen. induction cands as [|c rest IH]; intros seen;
    [by intros ?%elem_of_nil|].
  intros [->|Hp]%elem_of_cons; cbn [unseen].
  - case_bool_decide; [by left|]. right. cbn [fmap list_fmap]. by left.
  - case_bool_decide; [by apply IH|].
    destruct (IH ({[lower (path_str c)]} ∪ seen) Hp) as [Hs|Hs].
    + apply elem_of_union in Hs as [->%elem_of_singleton|]; [|by left].
      right. cbn [fmap list_fmap]. by left.
    + right. cbn [fmap list_fmap]. by right.
Qed.

Lemma unseen_head p rest : head (unseen lower ∅ (p :: rest)) = Some p.
Proof. cbn [unseen]. by rewrite bool_decide_eq_false_2 by set_solver. Qed.

Lemma candidate_documents_dirs_aux (σ : fs) :
  ∃ out,
    _candidate_documents_dirs qt_docs home is_windows lower σ = (σ, Ok out).
Proof.
  unfold _candidate_documents_dirs. rewrite bind_run. unfold get, pure.
  cbv beta iota zeta. by eexists.
Qed.

(** X20: [_candidate_documents_dirs] neither raises nor changes the disk;
    its result is not empty, begins with the location that Qt reports when
    there is one and with [<home>/Documents] otherwise, holds no two
    directories whose texts are equal in lower case, holds only the Qt
    location, [<home>/Documents] and [<home>/OneDrive/Documents] (the last
    only on Windows and when it exists), in that order, and holds for each
    of these a directory with the same lower-case text. *)
Theorem candidate_documents_dirs_spec (σ : fs) :
  let key p := lower (path_str p) in
  let docs := home ++ [lit "Documents"] in
  let one := home ++ [lit "OneDrive"; lit "Documents"] in
  let cands :=
    match qt_docs with Some p => [p] | None => [] end ++ [docs]
    ++ (if is_windows && exists_ σ one then [one] else []) in
  ∃ out,
    _candidate_documents_dirs qt_docs home is_windows lower σ = (σ, Ok out)
    ∧ head out = Some (default docs qt_docs)
    ∧ NoDup (key <$> out)
    ∧ out `sublist_of` cands
    ∧ ∀ p, p ∈ cands → key p ∈ key <$> out.
Proof.
  intros key docs one cands.
  exists (unseen lower ∅ cands). split.
  { unfold _candidate_documents_dirs, cands. rewrite bind_run.
    unfold get, pure. cbv beta iota zeta. fold docs. fold one.
    destruct (is_windows && exists_ σ one); by rewrite <- ?app_assoc, ?app_nil_r. }
  split; [unfold cands; destruct qt_docs; apply unseen_head|].
  split; [apply unseen_keys|]. split; [apply unseen_sublist|].
  intros p Hp. destruct (unseen_covers ∅ cands p Hp) as [?|?]; [set_solver|done].
Qed.

Lemma first_existing_spec σ g out p :
  first_existing σ g out = Some p
  ↔ ∃ l1 d l2,
      out = l1 ++ d :: l2 ∧ p = d ++ [g; lit "live_streams.sii"]
      ∧ exists_ σ p = true
      ∧ Forall (λ d', exists_ σ (d' ++ [g; lit "live_streams.sii"]) = false) l1.
Proof.
  induction out as [|d out IH]; cbn [first_existing].
  - split; [done|]. intros (l1 & d & l2 & H & _). by destruct l1.
  - destruct (exists_ σ (d ++ [g; lit "live_streams.sii"])) eqn:E.
    + split.
      * intros [= <-]. by exists [], d, out.
      * intros ([|d' l1] & d0 & l2 & H & -> & _ & Hl1).
        -- by injection H as -> _.
        -- injection H as -> _. apply Forall_cons in Hl1 as [? _]. congruence.
    + rewrite IH. split.
      * intros (l1 & d0 & l2 & -> & -> & He & Hl1).
        exists (d :: l1), d0, l2. repeat split; [done|by constructor].
      * intros ([|d' l1] & d0 & l2 & H & -> & He & Hl1).
        -- injection H as -> _. congruence.
        -- injection H as -> ->. apply Forall_cons in Hl1 as [_ ?].
           by exists l1, d0, l2.
Qed.

(** X21: [find_game_file] neither raises nor changes the disk; it returns
    the path [<dir>/<game>/live_streams.sii] of the first candidate
    directory under which that path exists, and nothing when it exists
    under none. *)
Theorem find_game_file_first (game_folder_name : str) (σ : fs) :
  ∃ out r,
    _candidate_documents_dirs qt_docs home is_windows lower σ = (σ, Ok out)
    ∧ find_game_file qt_docs home is_windows lower game_folder_name σ
      = (σ, Ok r)
    ∧ (∀ p, r = Some p
         ↔ ∃ l1 d l2,
             out = l1 ++ d :: l2
             ∧ p = d ++ [game_folder_name; lit "live_streams.sii"]
             ∧ exists_ σ p = true
             ∧ Forall (λ d', exists_ σ (d' ++ [game_folder_name;
                                               lit "live_streams.sii"])
                             = false) l1)
    ∧ (r = None
       ↔ Forall (λ d, exists_ σ (d ++ [game_folder_name;
                                       lit "live_streams.sii"]) = false) out).
Proof.
  destruct (candidate_documents_dirs_aux σ) as [out Hout].
  exists out, (first_existing σ game_folder_name out).
  split; [done|]. split.
  { unfold find_game_file. by rewrite bind_run, Hout. }
  split; [intros p; apply first_existing_spec|].
  clear Hout. induction out as [|d out IH]; cbn [first_existing]; [done|].
  destruct (exists_ σ (d ++ _)) eqn:E.
  - split; [done|]. intros [? _]%Forall_cons. congruence.
  - rewrite IH, Forall_cons. tauto.
Qed.

End DocumentsFacts.

(** ** The numbering of the written stations *)

Section Numbering.
Local Open Scope nat_scope.

(** X22: the station lines that a write encodes are numbered from zero in
    the order of the list, whatever indexes the stations had in the file
    they were read from: there are as many lines as stations, and the k-th
    line is the line of the k-th station with the index k. *)
Theorem stations_renumbered (stations : list Station) (new : list str) :
  encode_from 0 stations = Ok new →
  length new = length stations
  ∧ ∀ k s, stations !! k = Some s →
      ∃ line, new !! k = Some line ∧ station_to_line k s = Ok line.
Proof.
  assert (H : ∀ i stations new, encode_from i stations = Ok new →
            length new = length stations
            ∧ ∀ k s, stations !! k = Some s →
                ∃ line, new !! k = Some line
                        ∧ station_to_line (i + k) s = Ok line).
  { clear. intros i stations. revert i.
    induction stations as [|s stations IH]; intros i new.
    - intros [= <-]. split; [done|]. intros k s. by rewrite lookup_nil.
    - cbn [encode_from mbind result_bind].
      destruct (station_to_line i s) as [l|] eqn:El; [|done].
      destruct (encode_from (S i) stations) as [ls|] eqn:Els; [|done].
      intros [= <-]. destruct (IH _ _ Els) as [Hlen Hk].
      split; [cbn [length]; by rewrite Hlen|].
      intros [|k] s'; cbn [lookup list_lookup].
      + intros [= <-]. exists l. by rewrite Nat.add_0_r.
      + intros Hs. destruct (Hk k s' Hs) as (line & ? & Hline).
        exists line. split; [done|]. by rewrite Nat.add_succ_r. }
  apply H.
Qed.

Lemma stations_renumbered_witness :
  ∃ new,
    encode_from 0 [Example.gamma; Example.alpha] = Ok new
    ∧ length new = 2
    ∧ ∀ k s, [Example.gamma; Example.alpha] !! k = Some s →
        ∃ line, new !! k = Some line ∧ station_to_line k s = Ok line.
Proof.
  eexists. split; [vm_compute; reflexivity|].
  apply (stations_renumbered [Example.gamma; Example.alpha]).
  vm_compute. reflexivity.
Defined.

End Numbering.

(** ** What the parser returns is clean *)

Section Trimming.

Implicit Types (s t : str) (f : N → bool).

Lemma drop_while_Forall (P : N → Prop) f s :
  Forall P s → Forall P (drop_while f s).
Proof.
  induction 1 as [|c s Hc Hs IH]; [constructor|]. cbn [drop_while].
  destruct (f c); [done|by constructor].
Qed.

Lemma strip_Forall (P : N → Prop) s : Forall P s → Forall P (strip s).
Proof.
  intros H. unfold strip, rstrip, lstrip.
  apply Forall_rev, drop_while_Forall, Forall_rev. by apply drop_while_Forall.
Qed.

Lemma drop_while_head f s :
  match drop_while f s with c :: _ => f c = false | [] => True end.
Proof.
  induction s as [|c s IH]; [done|]. cbn [drop_while].
  destruct (f c) eqn:E; [done|]. exact E.
Qed.

Lemma drop_while_id f s :
  match s with c :: _ => f c = false | [] => True end → drop_while f s = s.
Proof. destruct s as [|c s]; [done|]. cbn [drop_while]. by intros ->. Qed.

(** Dropping at the end keeps a head that is not dropped. *)
Lemma drop_end_head f s :
  match s with c :: _ => f c = false | [] => True end →
  match rev (drop_while f (rev s)) with
  | c :: _ => f c = false
  | [] => True
  end.
Proof.
  destruct s as [|c s]; [done|]. intros Hc.
  induction s as [|x s IH] using rev_ind.
  - cbn. by rewrite Hc.
  - change (c :: s ++ [x]) with ((c :: s) ++ [x]).
    rewrite rev_unit. cbn [drop_while].
    destruct (f x); [exact IH|]. by rewrite <- rev_unit, rev_involutive.
Qed.

Lemma strip_idem s : strip (strip s) = strip s.
Proof.
  unfold strip, rstrip, lstrip.
  set (t := drop_while isspace s).
  set (u := rev (drop_while isspace (rev t))).
  assert (Hu : drop_while isspace u = u).
  { apply drop_while_id, drop_end_head. apply drop_while_head. }
  rewrite Hu. unfold u. rewrite rev_involutive.
  f_equal. apply drop_while_id. apply drop_while_head.
Qed.

Lemma split_Forall (P : N → Prop) sep s :
  Forall P s → Forall (Forall P) (Py.split sep s).
Proof.
  induction 1 as [|c s Hc Hs IH]; [by repeat constructor|].
  cbn [Py.split]. destruct (c =? sep).
  - by repeat constructor.
  - destruct (Py.split sep s) as [|p ps]; [by repeat constructor|].
    apply Forall_cons in IH as [? ?]. by repeat constructor.
Qed.

Lemma split_no_sep_inside sep s : Forall (λ p, sep ∉ p) (Py.split sep s).
Proof.
  induction s as [|c s IH]; cbn [Py.split].
  - repeat constructor. by intros ?%elem_of_nil.
  - destruct (N.eqb_spec c sep) as [->|Hne].
    + constructor; [by intros ?%elem_of_nil|done].
    + destruct (Py.split sep s) as [|p ps].
      * repeat constructor. intros [->|?%elem_of_nil]%elem_of_cons; done.
      * apply Forall_cons in IH as [Hp Hps]. constructor; [|done].
        intros [->|?]%elem_of_cons; done.
Qed.

End Trimming.

Section ParsedClean.

(** What a match of the station pattern looks like. *)
Lemma stream_re_parts (s : str) (m : list str) :
  re_match STREAM_RE s = Some m →
  ∃ before digits payload after,
    m = [digits; payload]
    ∧ s = before ++ payload ++ 34 :: after
    ∧ Forall (λ c, dot c = true) payload.
Proof.
  rewrite re_match_unfold. unfold STREAM_RE.
  cbn [app]. intros [_ H]%run_inv_bol.
  apply run_inv_star in H as (ws & r1 & -> & Hws & H).
  apply run_inv_chars in H as (r2 & -> & H). cbn [app] in H.
  rewrite run_open in H.
  apply run_inv_plus in H as (digits & r3 & -> & Hd & Hne & H).
  rewrite run_close in H.
  apply run_inv_chr in H as (r4 & -> & H).
  apply run_inv_star in H as (ws1 & r5 & -> & Hws1 & H).
  apply run_inv_chr in H as (r6 & -> & H).
  apply run_inv_star in H as (ws2 & r7 & -> & Hws2 & H).
  apply run_inv_chr in H as (r8 & -> & H).
  rewrite run_open in H.
  apply run_inv_star in H as (payload & r9 & -> & Hp & H).
  rewrite run_close in H.
  apply run_inv_chr in H as (r10 & -> & H).
  apply run_inv_star in H as (ws3 & tail & -> & Hws3 & H).
  apply run_inv_eol in H as [Htail H]. rewrite run_nil in H.
  injection H as <-.
  exists (ws ++ lit "stream_data[" ++ digits ++ 93 :: ws1 ++ 58 :: ws2 ++ [34]),
    digits, payload, (ws3 ++ tail).
  rewrite !drop_app_length. cbn [rev app]. split; [done|]. split; [|done].
  rewrite <- !app_assoc. cbn [app]. do 3 f_equal.
  rewrite <- !app_assoc. cbn [app]. by rewrite <- !app_assoc.
Qed.

Lemma payload_nobreak (line : str) (m : list str) :
  terminated line ∨ unterminated line →
  re_match STREAM_RE (rstrip_char 10 line) = Some m →
  nobreak (group 2 m).
Proof.
  intros Hline (before & digits & payload & after & -> & Hs & _)%stream_re_parts.
  change (group 2 [digits; payload]) with payload.
  destruct (rstrip_char_split 10 line) as [k Hk]. rewrite Hs in Hk.
  rewrite <- !app_assoc in Hk. cbn [app] in Hk.
  destruct Hline as [(b & t & -> & Hb & Ht)|[_ Hl]].
  - rewrite app_assoc in Hk.
    apply app_eq_inv in Hk as [(x & Hx & Hy)|(x & Hx & Hy)].
    + rewrite Hx in Hb. apply Forall_app in Hb as [Hb _].
      by apply Forall_app in Hb as [_ ?].
    + exfalso. apply eol_breaks in Ht. rewrite Hy in Ht.
      apply Forall_app in Ht as [_ Ht]. by apply Forall_cons in Ht as [? _].
  - rewrite Hk in Hl. apply Forall_app in Hl as [_ Hl].
    by apply Forall_app in Hl as [? _].
Qed.

Lemma text_lines_each (L : list str) :
  text_lines L → Forall (λ l, terminated l ∨ unterminated l) L.
Proof.
  induction 1 as [|l Hl|l L Hl HL IH]; [constructor| |].
  - constructor; [by right|constructor].
  - constructor; [by left|done].
Qed.

(** The station of a line of a file. *)
Lemma decoded_clean (line : str) (s : Station) :
  terminated line ∨ unterminated line →
  decode_line line = Some s → clean_station s ∧ ¬ has_delimiter s.
Proof.
  intros Hline (m & u & n & g & l & b & f & Hm & Hsp & ->)%decode_line_Some.
  pose proof (payload_nobreak _ _ Hline Hm) as Hnb.
  pose proof (split_Forall _ 124 _ Hnb) as Hparts.
  pose proof (split_no_sep_inside 124 (group 2 m)) as Hsep.
  rewrite Hsp in Hparts, Hsep.
  apply Forall_cons in Hparts as [Hu Hparts].
  apply Forall_cons in Hparts as [Hn Hparts].
  apply Forall_cons in Hparts as [Hg Hparts].
  apply Forall_cons in Hparts as [Hl _].
  apply Forall_cons in Hsep as [Su Hsep]. apply Forall_cons in Hsep as [Sn Hsep].
  apply Forall_cons in Hsep as [Sg Hsep]. apply Forall_cons in Hsep as [Sl _].
  assert (Hstrip : ∀ x, 124 ∉ x → 124 ∉ strip x).
  { intros x Hx Hin. apply Hx.
    assert (HF : Forall (λ c, c ≠ 124) x).
    { apply Forall_forall. intros c Hc ->. done. }
    apply (strip_Forall _ x) in HF. rewrite Forall_forall in HF.
    by apply HF in Hin. }
  split.
  - unfold clean_station, clean_field. cbn [url name genre language].
    rewrite !strip_idem. unfold nobreak. auto 10 using strip_Forall.
  - unfold has_delimiter. cbn [url name genre language].
    intros [H|[H|[H|H]]]; revert H; by apply Hstrip.
Qed.

Lemma parsed_stations_clean_aux (p : Fs.path) (σ σ' : Fs.fs)
    (lines : list str) (idxs : list nat) (stations : list Station) :
  parse_live_streams p σ = (σ', Ok (lines, idxs, stations)) →
  Forall (λ s, clean_station s ∧ ¬ has_delimiter s) stations.
Proof.
  intros (_ & text & _ & -> & Hscan & _)%parse_live_streams_Ok.
  pose proof (scan_lines_stations 0 (splitlines text)) as Hst.
  rewrite Hscan in Hst. cbn [snd] in Hst. subst stations.
  pose proof (text_lines_each _ (splitlines_text_lines text)) as HL.
  apply Forall_forall. intros s (line & Hin & Hd)%list_elem_of_omap.
  rewrite Forall_forall in HL. by eapply decoded_clean; [apply HL|].
Qed.

(** X23: every station that [parse_live_streams] returns has text fields
    without blanks at either end, without line boundaries and without the
    delimiter; so whenever [station_to_line] writes such a station, the
    line decodes to that very station. *)
Theorem parsed_stations_clean (p : Fs.path) (σ σ' : Fs.fs)
    (lines : list str) (idxs : list nat) (stations : list Station) :
  parse_live_streams p σ = (σ', Ok (lines, idxs, stations)) →
  Forall (λ s, clean_station s ∧ ¬ has_delimiter s
               ∧ ∀ i line, station_to_line i s = Ok line →
                           decode_line line = Some s) stations.
Proof.
  intros H%parsed_stations_clean_aux.
  eapply Forall_impl; [exact H|]. intros s [Hc Hd].
  split; [done|]. split; [done|]. intros i line Hl.
  by eapply decode_station_line.
Qed.

Lemma parsed_stations_clean_witness :
  Forall (λ s, clean_station s ∧ ¬ has_delimiter s
               ∧ ∀ i line, station_to_line i s = Ok line →
                           decode_line line = Some s)
    [Example.alpha; Example.beta].
Proof.
  apply (parsed_stations_clean Example.file Example.disk Example.disk
           Example.lines Example.idxs).
  run_io.
Defined.

End ParsedClean.

(** ** Copying between the games *)

Section Copy.

(** X24: when the copy of the stations of one game file to the other
    goes through, the destination file parses to exactly the stations that
    the source file held, in their order. *)
Theorem copy_stations_copies (now : datetime) (src_path dst_path : Fs.path)
    (σ σ' : Fs.fs) (b : Fs.path) :
  copy_stations now src_path dst_path σ = (σ', Ok b) →
  ∃ lines idxs stations lines' idxs',
    parse_live_streams src_path σ = (σ, Ok (lines, idxs, stations))
    ∧ parse_live_streams dst_path σ' = (σ', Ok (lines', idxs', stations)).
Proof.
  unfold copy_stations. rewrite bind_run.
  destruct (parse_live_streams src_path σ) as [σ1 [[[lines idxs] stations]|e]]
    eqn:Hsrc; [|done].
  pose proof (parse_live_streams_Ok _ _ _ _ _ _ Hsrc) as (-> & _ & _ & _ & _ & Hne).
  rewrite bind_run.
  destruct (parse_live_streams dst_path σ) as [σ2 [[[dl di] ds]|e]]
    eqn:Hdst; [|done].
  pose proof (parse_live_streams_Ok _ _ _ _ _ _ Hdst)
    as (-> & text & _ & -> & Hscan & _).
  intros Hw. exists lines, idxs, stations.
  assert (Hclean : Forall clean_station stations).
  { eapply Forall_impl; [exact (parsed_stations_clean_aux _ _ _ _ _ _ Hsrc)|].
    by intros s [? _]. }
  apply write_live_streams_content in Hw as (out & Hout & Hread).
  apply rewrite_lines_Ok in Hout as (W & HW & ->).
  destruct (arranged_parsed _ _ _ _ _ _ Hscan HW Hclean) as [HJ Hst].
  rewrite (parse_live_streams_text _ _ _ Hread).
  rewrite scan_lines_stations.
  rewrite (omap_resplit decode_line decode_line_fed decode_line_nil)
    by (by apply update_joinable).
  rewrite update_stations, Hst by (by apply joinable_lf_once).
  destruct stations; [done|]. eauto.
Qed.

Lemma copy_stations_copies_witness :
  ∃ lines idxs lines' idxs',
    parse_live_streams LinkExample.src CopyExample.two_games
    = (CopyExample.two_games, Ok (lines, idxs, [Example.alpha; Example.beta]))
    ∧ parse_live_streams LinkExample.dest CopyExample.copied
      = (CopyExample.copied, Ok (lines', idxs', [Example.alpha; Example.beta])).
Proof.
  destruct (copy_stations_copies Example.now LinkExample.src LinkExample.dest
              CopyExample.two_games CopyExample.copied
              CopyExample.backup)
    as (lines & idxs & stations & lines' & idxs' & H1 & H2); [run_io|].
  assert (H : parse_live_streams LinkExample.src CopyExample.two_games
              = (CopyExample.two_games,
                 Ok (Example.lines, Example.idxs, [Example.alpha; Example.beta])))
    by run_io.
  rewrite H in H1. injection H1 as <- <- <-.
  exists Example.lines, Example.idxs, lines', idxs'. split; [exact H|exact H2].
Defined.

End Copy.

(** ** The form *)

Section Form.

Lemma dec_digits_length fuel n : (length (dec_digits fuel n) ≤ fuel)%nat.
Proof.
  revert n. induction fuel as [|f IH]; intros n; cbn [dec_digits]; [done|].
  destruct (n <? 10); [cbn; lia|]. rewrite length_app. cbn [length].
  specialize (IH (n / 10)). lia.
Qed.

Lemma str_of_int_small (z : Z) :
  (0 ≤ z ≤ 2000)%Z → str_of_int z = Some (str_of_N (Z.to_N z)).
Proof.
  intros Hz. unfold str_of_int.
  assert (Z.abs_N z = Z.to_N z) as -> by lia.
  assert (Hlen : (length (str_of_N (Z.to_N z)) ≤ 11)%nat).
  { unfold str_of_N. rewrite length_fmap.
    etrans; [apply dec_digits_length|].
    assert (N.log2 (Z.to_N z) < 11); [|lia].
    destruct (N.eq_dec (Z.to_N z) 0) as [->|Hne]; [done|].
    apply N.log2_lt_pow2; lia. }
  destruct (N.ltb_spec int_max_str_digits
              (N.of_nat (length (str_of_N (Z.to_N z))))) as [H|_].
  - unfold int_max_str_digits in H. lia.
  - by destruct (Z.ltb_spec z 0); [lia|].
Qed.

(** X25: a station that passes [_validate_form] has trimmed text fields
    without the delimiter and a url that begins with [http://] or
    [https://]; with a bitrate in the range of the spin box (0 to 2000)
    [station_to_line] writes it under every index, and when the texts
    entered hold no line boundary the line decodes to the station. *)
Theorem validated_station (name_text url_text genre_text lang_text : str)
    (bitrate_value : Z) (fav_checked : bool) (s : Station) :
  _validate_form name_text url_text genre_text lang_text bitrate_value
    fav_checked = Ok s →
  (0 ≤ bitrate_value ≤ 2000)%Z →
  ¬ has_delimiter s
  ∧ Forall (λ f, strip f = f) [url s; name s; genre s; language s]
  ∧ (startswith (lit "http://") (url s) = true
     ∨ startswith (lit "https://") (url s) = true)
  ∧ ∀ i, ∃ line,
      station_to_line i s = Ok line
      ∧ (Forall nobreak [name_text; url_text; genre_text; lang_text] →
         decode_line line = Some s).
Proof.
  unfold _validate_form. cbv zeta.
  destruct (bool_decide (strip url_text = []) || _) eqn:Hurl; [done|].
  destruct (contains_char 124 (strip name_text)) eqn:Hn; [done|].
  destruct (contains_char 124 (strip url_text)) eqn:Hu; [done|].
  destruct (contains_char 124 (strip genre_text)) eqn:Hg; [done|].
  destruct (contains_char 124 (strip lang_text)) eqn:Hl; [done|].
  intros [= <-] Hz. cbn [url name genre language bitrate favorite].
  apply contains_char_false in Hn, Hu, Hg, Hl.
  apply orb_false_iff in Hurl as [_ Hstart]. apply negb_false_iff in Hstart.
  set (s := {| url := strip url_text; name := strip name_text;
               genre := strip genre_text; language := strip lang_text;
               bitrate := bitrate_value; favorite := fav_checked |}).
  assert (Hdel : ¬ has_delimiter s).
  { unfold has_delimiter. cbn [url name genre language s]. tauto. }
  split; [done|]. split; [repeat constructor; apply strip_idem|].
  split; [by apply orb_true_iff|].
  intros i.
  destruct (proj2 (station_to_line_encodable i s)) as [line Hline].
  { split; [done|]. cbn [bitrate s]. rewrite str_of_int_small by done.
    by eexists. }
  exists line. split; [done|]. intros Hnb.
  apply (decode_station_line i s _ Hline).
  apply Forall_cons in Hnb as [N1 Hnb]. apply Forall_cons in Hnb as [N2 Hnb].
  apply Forall_cons in Hnb as [N3 Hnb]. apply Forall_cons in Hnb as [N4 _].
  unfold clean_station, clean_field, nobreak. cbn [url name genre language s].
  rewrite !strip_idem. auto 10 using strip_Forall.
Qed.

Lemma validated_station_witness :
  _validate_form (lit " Gamma") (lit "http://c.example/s ") (lit "jazz")
    (lit "fr") 96 true = Ok Example.gamma
  ∧ ∃ line,
      station_to_line 3%nat Example.gamma = Ok line
      ∧ (Forall nobreak [lit " Gamma"; lit "http://c.example/s "; lit "jazz";
                         lit "fr"] →
         decode_line line = Some Example.gamma).
Proof.
  assert (Hform : _validate_form (lit " Gamma") (lit "http://c.example/s ")
                    (lit "jazz") (lit "fr") 96 true = Ok Example.gamma)
    by (vm_compute; reflexivity).
  split; [exact Hform|].
  pose proof (validated_station (lit " Gamma") (lit "http://c.example/s ")
                (lit "jazz") (lit "fr") 96 true Example.gamma Hform
                ltac:(lia)) as (_ & _ & _ & Hline).
  exact (Hline 3%nat).
Defined.

End Form.

(** ** Moving rows *)

Section Rows.
Local Open Scope nat_scope.
Context {A : Type}.

Implicit Types (l stations : list A) (keep : nat → bool).

Lemma pick_ext keep keep' i l :
  (∀ j, keep j = keep' j) → pick keep i l = pick keep' i l.
Proof.
  intros H. revert i. induction l as [|x l IH]; intros i; [done|].
  cbn [pick]. by rewrite H, IH.
Qed.

Lemma pick_perm keep i l :
  pick keep i l ++ pick (λ j, negb (keep j)) i l ≡ₚ l.
Proof.
  revert i. induction l as [|x l IH]; intros i; [done|].
  cbn [pick]. destruct (keep i); cbn [negb app].
  - by rewrite IH.
  - rewrite <- Permutation_middle. by rewrite IH.
Qed.

Lemma pick_sublist keep i l : pick keep i l `sublist_of` l.
Proof.
  revert i. induction l as [|x l IH]; intros i; [done|].
  cbn [pick]. destruct (keep i); [apply sublist_skip, IH|apply sublist_cons, IH].
Qed.

Lemma insert_sorted_elem (x y : nat) (l : list nat) :
  y ∈ insert_sorted x l ↔ y = x ∨ y ∈ l.
Proof.
  induction l as [|z l IH]; cbn [insert_sorted].
  - rewrite list_elem_of_singleton. split; [by left|].
    by intros [?|?%elem_of_nil].
  - destruct (x <=? z); rewrite !elem_of_cons, ?IH; tauto.
Qed.

Lemma sorted_elem (y : nat) (l : list nat) : y ∈ sorted l ↔ y ∈ l.
Proof.
  unfold sorted. induction l as [|x l IH]; [done|].
  cbn [foldr]. by rewrite insert_sorted_elem, IH, elem_of_cons.
Qed.

(** X26: a drop that [StationModel.dropMimeData] accepts neither loses
    nor repeats a station: the new list is a rearrangement of the old one,
    in which the dragged rows stand together in their old order and the
    other rows keep their order around them. *)
Theorem drop_rearranges (stations : list A) (rows : list nat) (row : Z)
    (parent_row : option Z) (new : list A) :
  dropMimeData stations rows row parent_row = Some new →
  new ≡ₚ stations
  ∧ ∃ before after,
      new = before ++ pick (λ i, bool_decide (i ∈ rows)) 0 stations ++ after
      ∧ before ++ after
        = pick (λ i, negb (bool_decide (i ∈ rows))) 0 stations.
Proof.
  unfold dropMimeData. cbv zeta.
  destruct (sorted (remove_dups rows)) as [|first rest] eqn:Esrc; [done|].
  destruct (existsb _ _); [done|].
  destruct (_ && _); [done|]. intros [= <-].
  assert (Hin : ∀ j, bool_decide (j ∈ first :: rest) = bool_decide (j ∈ rows)).
  { intros j. apply bool_decide_ext.
    by rewrite <- Esrc, sorted_elem, elem_of_remove_dups. }
  rewrite (pick_ext (λ i, bool_decide (i ∈ first :: rest))
             (λ i, bool_decide (i ∈ rows))) by exact Hin.
  rewrite (pick_ext (λ i, negb (bool_decide (i ∈ first :: rest)))
             (λ i, negb (bool_decide (i ∈ rows))))
    by (by intros j; rewrite Hin).
  set (dragged := pick (λ i, bool_decide (i ∈ rows)) 0 stations).
  set (remaining := pick (λ i, negb (bool_decide (i ∈ rows))) 0 stations).
  match goal with |- context [take ?k remaining] => set (dst_adj := k) end.
  split.
  - rewrite Permutation_app_swap_app, take_drop. apply pick_perm.
  - exists (take dst_adj remaining), (drop dst_adj remaining).
    split; [done|apply take_drop].
Qed.

End Rows.

Section RowsExample.

Lemma drop_rearranges_witness :
  dropMimeData [Example.alpha; Example.beta; Example.gamma] [2%nat; 2%nat] 0
    None
  = Some [Example.gamma; Example.alpha; Example.beta]
  ∧ [Example.gamma; Example.alpha; Example.beta]
    ≡ₚ [Example.alpha; Example.beta; Example.gamma].
Proof.
  assert (H : dropMimeData [Example.alpha; Example.beta; Example.gamma]
                [2%nat; 2%nat] 0 None
              = Some [Example.gamma; Example.alpha; Example.beta])
    by (vm_compute; reflexivity).
  split; [exact H|]. by apply (drop_rearranges _ _ _ _ _ H).
Defined.

End RowsExample.

(** ** The recent files *)

Section RecentFacts.

Variable lower : str → str.

(** X27: the list that [OpenPage.add_recent] stores has at most five
    entries and begins with the path added; no later entry equals the path
    up to case; the later entries are entries of the stored list in their
    order; and when no two entries of the stored list were equal up to
    case, no two of the new list are. *)
Theorem add_recent_spec (stored : option (list str)) (path : str) :
  let out := add_recent lower stored path in
  (length out ≤ 5)%nat
  ∧ head out = Some path
  ∧ Forall (λ p, lower p ≠ lower path) (tail out)
  ∧ tail out `sublist_of` default [] stored
  ∧ (NoDup (lower <$> default [] stored) → NoDup (lower <$> out)).
Proof.
  unfold add_recent. cbv zeta. set (recents := default [] stored).
  set (F := filter (λ p, lower p ≠ lower path) recents).
  cbn [take head tail].
  assert (HF : Forall (λ p, lower p ≠ lower path) (take 4 F)).
  { apply Forall_take, Forall_forall. intros p Hp.
    by apply list_elem_of_filter in Hp as [? _]. }
  assert (Hsub : take 4 F `sublist_of` recents).
  { etrans; [apply sublist_take|apply sublist_filter]. }
  split; [cbn [length]; rewrite length_take; lia|].
  split; [done|]. split; [done|]. split; [done|].
  intros Hnd. cbn [fmap list_fmap]. constructor.
  - intros (p & Hp & Hin)%list_elem_of_fmap.
    rewrite Forall_forall in HF. by apply (HF p Hin).
  - apply (sublist_NoDup _ (lower <$> recents)); [exact Hnd|by apply fmap_sublist].
Qed.

End RecentFacts.

(** * Text and bytes *)

Section Codec.
Import OnDisk.

Ltac euclid := Zify.zify; Z.to_euclidean_division_equations; lia.

Ltac cases :=
  repeat match goal with
  | |- context [?a <? ?b] =>
      destruct (N.ltb_spec a b); try (exfalso; euclid)
  | |- context [?a <=? ?b] =>
      destruct (N.leb_spec a b); try (exfalso; euclid)
  | |- context [?a =? ?b] =>
      destruct (N.eqb_spec a b); try (exfalso; euclid)
  end.

Lemma utf8_first_ascii c : c < 128 → utf8_first c = ([c], None).
Proof. intros H. unfold utf8_first. by cases. Qed.

Lemma utf8_first_two c :
  128 ≤ c → c < 2048 →
  utf8_first (192 + c / 64) = ([], Some (1%nat, 128, 191, c / 64)).
Proof.
  intros H1 H2. unfold utf8_first, utf8_lead, between. cases. simpl.
  do 3 f_equal. euclid.
Qed.

Lemma utf8_first_three c :
  2048 ≤ c → c < 65536 → between 55296 57343 c = false →
  ∃ lo hi, utf8_first (224 + c / 4096) = ([], Some (2%nat, lo, hi, c / 4096))
    ∧ between lo hi (128 + c / 64 mod 64) = true.
Proof.
  intros H1 H2 H3. unfold between in H3. apply andb_false_iff in H3.
  rewrite !N.leb_gt in H3.
  unfold utf8_first, utf8_lead, between.
  cases; simpl; eexists _, _; (split; [do 3 f_equal; euclid|]);
    apply andb_true_iff; rewrite !N.leb_le; euclid.
Qed.

Lemma utf8_first_four c :
  65536 ≤ c → c < 1114112 →
  ∃ lo hi,
    utf8_first (240 + c / 262144) = ([], Some (3%nat, lo, hi, c / 262144))
    ∧ between lo hi (128 + c / 4096 mod 64) = true.
Proof.
  intros H1 H2. unfold utf8_first, utf8_lead, between.
  cases; simpl; eexists _, _; (split; [do 3 f_equal; euclid|]);
    apply andb_true_iff; rewrite !N.leb_le; euclid.
Qed.

Lemma continuation x : between 128 191 (128 + x mod 64) = true.
Proof. unfold between. apply andb_true_iff. rewrite !N.leb_le. euclid. Qed.

(** The decoder reads a code point back from its bytes. *)
Lemma utf8_decode_char c bs rest :
  utf8_char c = Some bs →
  utf8_decode_from None (bs ++ rest) = c :: utf8_decode_from None rest.
Proof.
  unfold utf8_char.
  destruct (N.ltb_spec c 128) as [H1|H1].
  { intros [= <-]. cbn [app utf8_decode_from]. by rewrite utf8_first_ascii. }
  destruct (N.ltb_spec c 2048) as [H2|H2].
  { intros [= <-]. cbn [app utf8_decode_from].
    rewrite utf8_first_two by done. cbn [fst snd app utf8_decode_from].
    rewrite continuation. f_equal. euclid. }
  destruct (between 55296 57343 c) eqn:H3; [done|].
  destruct (N.ltb_spec c 65536) as [H4|H4].
  { intros [= <-]. cbn [app utf8_decode_from].
    destruct (utf8_first_three c) as (lo & hi & E1 & E2); [done..|].
    rewrite E1. cbn [fst snd app utf8_decode_from]. rewrite E2, continuation.
    f_equal. euclid. }
  destruct (N.ltb_spec c 1114112) as [H5|H5]; [|done].
  intros [= <-]. cbn [app utf8_decode_from].
  destruct (utf8_first_four c) as (lo & hi & E1 & E2); [done..|].
  rewrite E1. cbn [fst snd app utf8_decode_from]. rewrite E2, !continuation.
  f_equal. euclid.
Qed.

Lemma utf8_decode_encode s b : utf8_encode s = Some b → utf8_decode b = s.
Proof.
  unfold utf8_encode, utf8_decode. revert b.
  induction s as [|c s IH]; intros b.
  - by intros [= <-].
  - cbn [mapM]. destruct (utf8_char c) as [bs|] eqn:Ec; [|done].
    cbn [mbind option_bind]. destruct (mapM utf8_char s) as [bss|]; [|done].
    cbn. intros [= <-]. rewrite (utf8_decode_char _ _ _ Ec). f_equal.
    by apply IH.
Qed.

End Codec.

(** ** Line ends *)

Section Newlines.
Import OnDisk.

Implicit Types (s a b t : str) (f w : bool).





Lemma newlines_id s : 13 ∉ s → newlines_from false s = s.
Proof.
  induction s as [|c s IH]; [done|].
  intros [Hc Hs]%not_elem_of_cons. cbn [newlines_from].
  destruct (N.eqb_spec c 13) as [->|_]; [done|].
  rewrite andb_false_r. by rewrite IH.
Qed.


Lemma translate_cons w c s :
  translate_newlines w (c :: s)
  = (if c =? 10 then linesep w else [c]) ++ translate_newlines w s.
Proof. done. Qed.

(** A text without CR is read back as it is, on either platform. *)
Lemma read_back_id w s : 13 ∉ s → read_back w s = s.
Proof.
  unfold read_back, universal_newlines.
  induction s as [|c s IH]; [done|].
  intros [Hc Hs]%not_elem_of_cons. rewrite translate_cons.
  destruct (N.eqb_spec c 10) as [->|H10].
  - destruct w; cbn; by rewrite IH.
  - cbn [app newlines_from].
    destruct (N.eqb_spec c 13) as [->|_]; [done|].
    destruct (N.eqb_spec c 10) as [->|_]; [done|].
    cbn [andb]. by rewrite IH.
Qed.







(** What is read from a file that was written. *)
Lemma text_of_bytes_of w t b : bytes_of w t = Some b → text_of b = read_back w t.
Proof.
  unfold bytes_of, text_of, read_back. by intros ->%utf8_decode_encode.
Qed.


End Newlines.

(** ** The lines of a text without CR *)

Section Lines.

Implicit Types (s l : str) (L : list str).





Lemma terminated_closed l : terminated l → closed l.
Proof.
  intros (b & t & -> & _ & Ht). right.
  destruct Ht as [->|(c & -> & Hc)].
  - exists 10. change [13; 10] with ([13] ++ [10]).
    by rewrite !app_assoc, last_snoc.
  - exists c. by rewrite last_snoc.
Qed.



End Lines.

(** * The parser and the writer on the bytes *)

Section OnDiskFacts.

Implicit Types (d σ : Fs.fs) (p q : Fs.path) (w : bool).

(** Whether a file can be written does not depend on what is written. *)
Lemma write_text_any p a b d d' :
  Fs.write_text p a d = (d', Ok ()) →
  ∃ q, Fs.resolve Fs.link_fuel d p = Some q ∧ q ≠ []
    ∧ ¬ is_link (Fs.lstat d q)
    ∧ d' = <[q := Fs.File a]> d
    ∧ Fs.write_text p b d = (<[q := Fs.File b]> d, Ok ()).
Proof.
  intros H. pose proof (write_text_Ok _ _ _ _ H) as (q & Hr & Hq & Hl & ->).
  exists q. repeat split; try done.
  revert H. unfold Fs.write_text. rewrite Hr.
  destruct (Fs.lstat d q) as [[]|]; try done.
  by destruct (Fs.is_dir d (Fs.parent q)).
Qed.

Lemma write_text_twice p a b d d1 :
  Fs.write_text p a d = (d1, Ok ()) →
  Fs.write_text p b d1 = Fs.write_text p b d.
Proof.
  intros (q & Hr & Hq & Hl & -> & Hb)%(write_text_any _ _ b). rewrite Hb.
  unfold Fs.write_text.
  rewrite resolve_insert, Hr by (done || apply not_link_file).
  rewrite lstat_insert, decide_True by done.
  by rewrite insert_insert_eq.
Qed.

(** A [write_text] that succeeds puts the bytes of the text. *)
Lemma ondisk_write_text_Ok w p t d d' :
  OnDisk.write_text w p t d = (d', Ok ()) →
  ∃ b, OnDisk.bytes_of w t = Some b ∧ Fs.write_text p b d = (d', Ok ()).
Proof.
  unfold OnDisk.write_text, mbind, Fs.io_bind.
  destruct (Fs.write_text p [] d) as [d1 [[]|e]] eqn:E1; [|done].
  destruct (OnDisk.bytes_of w t) as [b|]; [|done].
  intros H. exists b. split; [done|].
  by rewrite <- (write_text_twice _ _ _ _ _ E1).
Qed.

(** One that raises leaves the disk as it is, or, when the text cannot be
    encoded, leaves the file empty. *)
Lemma ondisk_write_text_Raise w p t d d' e :
  OnDisk.write_text w p t d = (d', Raise e) →
  d' = d
  ∨ (e = UnicodeEncodeError ∧ OnDisk.bytes_of w t = None
     ∧ Fs.write_text p [] d = (d', Ok ())).
Proof.
  unfold OnDisk.write_text, mbind, Fs.io_bind.
  destruct (Fs.write_text p [] d) as [d1 [[]|e1]] eqn:E1.
  - destruct (OnDisk.bytes_of w t) as [b|].
    + rewrite (write_text_twice _ _ _ _ _ E1).
      intros ->%write_text_state. by left.
    + intros [= <- <-]. right. done.
  - intros [= <- <-]. left. by apply write_text_state in E1.
Qed.

Lemma ondisk_read_text_Ok p d d' t :
  OnDisk.read_text p d = (d', Ok t) →
  d' = d ∧ ∃ b, Fs.read_text p d = (d, Ok b) ∧ t = OnDisk.text_of b.
Proof.
  unfold OnDisk.read_text, mbind, Fs.io_bind.
  destruct (Fs.read_text p d) as [d1 [b|e]] eqn:E; [|done].
  apply read_text_Ok in E as E'. destruct E' as [-> _].
  intros [= <- <-]. eauto.
Qed.


Lemma ondisk_parse_Ok p d d' lines idxs stations :
  OnDisk.parse_live_streams p d = (d', Ok (lines, idxs, stations)) →
  d' = d ∧ ∃ b, Fs.read_text p d = (d, Ok b)
    ∧ lines = splitlines (OnDisk.text_of b)
    ∧ scan_lines 0 lines = (idxs, stations) ∧ stations ≠ [].
Proof.
  unfold OnDisk.parse_live_streams, mbind, Fs.io_bind, Fs.get.
  destruct (Fs.exists_ d p); [|done]. cbn [negb].
  destruct (OnDisk.read_text p d) as [d1 [text|e]] eqn:Hr; [|done].
  apply ondisk_read_text_Ok in Hr as (-> & b & Hb & ->).
  destruct (scan_lines 0 (splitlines (OnDisk.text_of b)))
    as [idxs' [|s sts]] eqn:E; [done|].
  intros [= <- <- <- <-]. split; [done|]. exists b. by rewrite E.
Qed.

(** The steps of a write that succeeds. *)
Lemma ondisk_write_Ok w now p lines idxs stations strategy d d' b :
  OnDisk.write_live_streams w now p lines idxs stations strategy d
  = (d', Ok b) →
  ∃ d1 d2 out data data',
    Fs.mkdir_parents (backup_dir_of p) d = (d1, Ok ())
    ∧ OnDisk.bytes_of w (concat lines) = Some data
    ∧ Fs.write_text (backup_file_of p now) data d1 = (d2, Ok ())
    ∧ rewrite_lines lines idxs stations strategy = Ok out
    ∧ OnDisk.bytes_of w (concat out) = Some data'
    ∧ Fs.write_text p data' d2 = (d', Ok ())
    ∧ b = backup_file_of p now.
Proof.
  unfold OnDisk.write_live_streams, mbind, Fs.io_bind, Fs.lift, Fs.pure.
  destruct (Fs.mkdir_parents _ d) as [d1 [[]|]] eqn:E1; [|done].
  destruct (OnDisk.write_text w _ _ d1) as [d2 [[]|]] eqn:E2; [|done].
  destruct (rewrite_lines _ _ _ _) as [out|] eqn:E3; [|done].
  destruct (OnDisk.write_text w p _ d2) as [d3 [[]|]] eqn:E4; [|done].
  intros [= <- <-].
  apply ondisk_write_text_Ok in E2 as (data & Hd & E2).
  apply ondisk_write_text_Ok in E4 as (data' & Hd' & E4).
  by exists d1, d2, out, data, data'.
Qed.


End OnDiskFacts.

(** * The count line among the lines *)

Section CountLine.

Implicit Types (l line : str) (L W A B Y : list str) (n : nat).











End CountLine.

(** * The lines of the written file *)

Section ReadBack.

Implicit Types (w : bool) (s l : str) (A B Y L W : list str) (n : nat).







(** ** What the count update keeps *)





(** ** The lines that are kept, in the file *)




End ReadBack.

Section KeptLines.

Implicit Types (w : bool) (s l : str) (A B Y L W K : list str) (n : nat).






End KeptLines.

(** ** Preservation of the other lines *)


(** * The specified properties, on the bytes *)

Lemma read_text_state (p : Fs.path) (σ : Fs.fs) : (Fs.read_text p σ).1 = σ.
Proof. unfold Fs.read_text. by destruct (Fs.stat σ p) as [[]|]. Qed.

Lemma ondisk_read_text_state (p : Fs.path) (d : Fs.fs) :
  (OnDisk.read_text p d).1 = d.
Proof.
  unfold OnDisk.read_text, mbind, Fs.io_bind.
  pose proof (read_text_state p d) as H.
  destruct (Fs.read_text p d) as [d1 [b|e]]; exact H.
Qed.

Lemma ondisk_parse_state (p : Fs.path) (d : Fs.fs) :
  (OnDisk.parse_live_streams p d).1 = d.
Proof.
  unfold OnDisk.parse_live_streams, mbind, Fs.io_bind, Fs.get.
  destruct (Fs.exists_ d p); [|done]. cbn [negb].
  pose proof (ondisk_read_text_state p d) as H.
  destruct (OnDisk.read_text p d) as [d1 [text|e]]; cbn [fst] in H; subst d1;
    [|done].
  by destruct (scan_lines 0 (splitlines text)) as [idxs [|s sts]].
Qed.

Ltac run_disk :=
  apply io_pair;
  [ lazymatch goal with
    | |- (OnDisk.parse_live_streams _ _).1 = _ => apply ondisk_parse_state
    | |- (OnDisk.read_text _ _).1 = _ => apply ondisk_read_text_state
    | |- (Fs.read_text _ _).1 = _ => apply read_text_state
    | |- (parse_live_streams _ _).1 = _ => apply parse_live_streams_state
    | |- _ => reflexivity
    end
  | vm_compute; reflexivity ].

(** ** Preservation of the other lines *)



(** ** Backups *)

(** C4, as the code has it: a write that succeeds returns the backup path
    [<directory-of-file>/live_streams_backup/<filename>.bak_<stamp>] with
    the stamp of [strftime("%Y%m%d_%H%M%S")]; unless that path and the
    target are links to one file, the backup holds the bytes that
    [write_text] gives for the lines of the document, joined.  These are
    the bytes of the target when the document is the parse of the target as
    it is before the write and the target is what [write_text] gives for a
    text without CR: well-formed UTF-8 with the line ends of the
    platform. *)
Theorem backup_holds_document (windows : bool) (now : datetime)
    (p : Fs.path) (lines : list str) (idxs : list nat)
    (stations : list Station) (strategy : str) (d d' : Fs.fs)
    (b : Fs.path) :
  OnDisk.write_live_streams windows now p lines idxs stations strategy d
  = (d', Ok b) →
  b = Fs.parent p
        ++ [lit "live_streams_backup";
            Fs.name p ++ lit ".bak_" ++ strftime_seconds now]
  ∧ ∃ data,
      OnDisk.bytes_of windows (concat lines) = Some data
      ∧ (Fs.resolve Fs.link_fuel d b ≠ Fs.resolve Fs.link_fuel d p →
         Fs.read_text b d' = (d', Ok data))
      ∧ (∀ target text idxs' st',
           Fs.read_text p d = (d, Ok target) →
           OnDisk.parse_live_streams p d = (d, Ok (lines, idxs', st')) →
           13 ∉ text → OnDisk.bytes_of windows text = Some target →
           data = target).
Proof.
  intros (d1 & d2 & out & data & data' & Hmk & Hd & Hwb & _ & _ & Hwp & ->)
    %ondisk_write_Ok.
  split; [by unfold backup_file_of, backup_dir_of; rewrite <- app_assoc|].
  exists data. split; [done|]. split.
  - intros Hne.
    apply mkdir_from_state in Hmk as [Hres _].
    pose proof (write_text_read _ _ _ _ Hwb) as Hrb.
    apply write_text_Ok in Hwb as (r & Hr & Hrne & Hrl & ->).
    apply write_text_Ok in Hwp as (q & Hq & Hqne & Hql & ->).
    rewrite resolve_insert in Hq by (done || apply not_link_file).
    apply read_text_other; try done.
    rewrite resolve_insert by (done || apply not_link_file).
    rewrite Hr. rewrite !Hres in Hr, Hq. congruence.
  - intros target text idxs' st' Hread
      (_ & bs & Hb & -> & _)%ondisk_parse_Ok Hcr Hbytes.
    rewrite Hread in Hb. injection Hb as <-.
    rewrite concat_splitlines in Hd.
    rewrite (text_of_bytes_of _ _ _ Hbytes), read_back_id in Hd by done.
    congruence.
Qed.

Lemma backup_holds_document_witness :
  Example.backup
  = Fs.parent Example.file
      ++ [lit "live_streams_backup";
          Fs.name Example.file ++ lit ".bak_" ++ strftime_seconds Example.now]
  ∧ Fs.read_text Example.file DiskExample.disk_crlf
    = (DiskExample.disk_crlf, Ok DiskExample.crlf_bytes)
  ∧ Fs.read_text Example.backup DiskExample.written_crlf
    = (DiskExample.written_crlf, Ok DiskExample.crlf_bytes).
Proof.
  destruct (backup_holds_document true Example.now Example.file Example.lines
              Example.idxs [Example.alpha; Example.gamma] Example.in_place
              DiskExample.disk_crlf DiskExample.written_crlf Example.backup)
    as (H1 & data & Hd & H2 & H3); [run_disk|].
  split; [exact H1|]. split; [run_disk|].
  rewrite <- (H3 DiskExample.crlf_bytes Example.text Example.idxs
                [Example.alpha; Example.beta]).
  - apply H2. vm_compute. discriminate.
  - run_disk.
  - run_disk.
  - apply contains_char_false. vm_compute. reflexivity.
  - vm_compute. reflexivity.
Defined.

(** C4 as stated fails.  The backup directory is named after neither the
    file nor its stem.  The backup is no copy of the target: it is written
    from the lines that are passed in, so that on Windows the backup of a
    file with LF at the end of its lines has CR LF there, the backup of a
    file with a byte that is no UTF-8 has the bytes of U+FFFD for it, and
    the backup of a write of another document holds that document. *)
Lemma backup_not_a_copy :
  OnDisk.write_live_streams true Example.now Example.file Example.lines
    Example.idxs [Example.alpha; Example.beta] Example.in_place Example.disk
  = (DiskExample.written_windows, Ok Example.backup)
  ∧ Example.backup
    = Example.dir
        ++ [lit "live_streams_backup"; lit "radio.sii.bak_20240307_090500"]
  ∧ Fs.lstat DiskExample.written_windows
      (Example.dir
         ++ [lit "radio.sii_backup"; lit "radio.sii.bak_20240307_090500"])
    = None
  ∧ Fs.lstat DiskExample.written_windows
      (Example.dir ++ [lit "radio_backup"; lit "radio.sii.bak_20240307_090500"])
    = None
  ∧ OnDisk.parse_live_streams Example.file Example.disk
    = (Example.disk,
       Ok (Example.lines, Example.idxs, [Example.alpha; Example.beta]))
  ∧ Fs.read_text Example.file Example.disk = (Example.disk, Ok Example.text)
  ∧ Fs.read_text Example.backup DiskExample.written_windows
    = (DiskExample.written_windows, Ok DiskExample.crlf_bytes)
  ∧ DiskExample.crlf_bytes ≠ Example.text
  ∧ OnDisk.write_live_streams false Example.now Example.file
      DiskExample.other_lines [3%nat] [Example.gamma] Example.in_place
      Example.disk
    = (DiskExample.written_stale, Ok Example.backup)
  ∧ Fs.read_text Example.backup DiskExample.written_stale
    = (DiskExample.written_stale, Ok CopyExample.other_text)
  ∧ CopyExample.other_text ≠ Example.text
  ∧ OnDisk.parse_live_streams Example.file DiskExample.disk_bad
    = (DiskExample.disk_bad,
       Ok (DiskExample.bad_lines, Example.idxs, [Example.alpha; Example.beta]))
  ∧ OnDisk.write_live_streams false Example.now Example.file
      DiskExample.bad_lines Example.idxs [Example.alpha; Example.beta]
      Example.in_place DiskExample.disk_bad
    = (DiskExample.written_bad, Ok Example.backup)
  ∧ Fs.read_text Example.file DiskExample.disk_bad
    = (DiskExample.disk_bad, Ok (255 :: Example.text))
  ∧ Fs.read_text Example.backup DiskExample.written_bad
    = (DiskExample.written_bad, Ok ([239; 191; 189] ++ Example.text)).
Proof.
  split; [run_disk|]. split; [vm_compute; reflexivity|].
  split; [vm_compute; reflexivity|]. split; [vm_compute; reflexivity|].
  split; [run_disk|]. split; [run_disk|]. split; [run_disk|].
  split; [vm_compute; discriminate|].
  split; [run_disk|]. split; [run_disk|].
  split; [vm_compute; discriminate|].
  split; [run_disk|]. split; [run_disk|]. split; run_disk.
Qed.

(** ** The errors of the parser *)

Section ParseErrors.





End ParseErrors.

(** ** The bitrate *)

Section Bitrate.

(** C9, as the code has it: the bitrate of a parsed station is the integer
    that [int] reads from the fifth field of the payload of the line it was
    decoded from, the line at its station-line index, and 0 when [int]
    rejects the field; it is not negative when the field holds no minus
    sign. *)
Theorem parse_bitrate (p : Fs.path) (σ σ' : Fs.fs) (lines : list str)
    (idxs : list nat) (stations : list Station) :
  parse_live_streams p σ = (σ', Ok (lines, idxs, stations)) →
  Forall2 (λ i s, ∃ line m u n g l b f,
             lines !! i = Some line
             ∧ decode_line line = Some s
             ∧ re_match STREAM_RE (rstrip_char 10 line) = Some m
             ∧ Py.split 124 (group 2 m) = [u; n; g; l; b; f]
             ∧ bitrate s = default 0%Z (int_of_str b)
             ∧ (45 ∉ b → (0 ≤ bitrate s)%Z)) idxs stations.
Proof.
  intros (_ & text & _ & -> & Hscan & _)%parse_live_streams_Ok.
  pose proof (scan_lines_zip 0 (splitlines text)) as Hzip.
  rewrite Hscan in Hzip. cbn [fst snd] in Hzip.
  eapply Forall2_impl; [exact Hzip|].
  intros i s (line & _ & Hi & Hd). rewrite Nat.sub_0_r in Hi.
  pose proof Hd as Hd'.
  apply decode_line_Some in Hd' as (m & u & n & g & l & b & f & Hm & Hsp & ->).
  exists line, m, u, n, g, l, b, f. repeat (split; [done|]). cbn [bitrate].
  intros H45. destruct (int_of_str b) as [z|] eqn:Hz; cbn [default]; [|done].
  destruct (Z.neg_nonneg_cases z) as [Hneg|]; [|done].
  destruct H45. by eapply int_of_str_negative.
Qed.

Lemma parse_bitrate_witness :
  Forall2 (λ i s, ∃ line m u n g l b f,
             Example.lines !! i = Some line
             ∧ decode_line line = Some s
             ∧ re_match STREAM_RE (rstrip_char 10 line) = Some m
             ∧ Py.split 124 (group 2 m) = [u; n; g; l; b; f]
             ∧ bitrate s = default 0%Z (int_of_str b)
             ∧ (45 ∉ b → (0 ≤ bitrate s)%Z))
    [3; 4]%nat [Example.alpha; Example.beta].
Proof.
  apply (parse_bitrate Example.file Example.disk Example.disk Example.lines
           Example.idxs).
  run_io.
Defined.

End Bitrate.

(** ** More than one count line *)

Lemma later_count_lines_untouched_witness :
  ∃ W out,
    arrange_lines CountExample.lines CountExample.idxs [Example.gamma]
      Example.in_place = Ok W
    ∧ Fs.read_text Example.file CountExample.written
      = (CountExample.written, Ok (concat out))
    ∧ length out = length W
    ∧ (∀ i j li lj,
         W !! i = Some li → is_Some (count_match li) → (i < j)%nat →
         W !! j = Some lj → out !! j = Some lj)
    ∧ (∀ j, out !! j ≠ W !! j →
         ∃ lj, W !! j = Some lj ∧ is_Some (count_match lj)
           ∧ ∀ i li, (i < j)%nat → W !! i = Some li → count_match li = None)
    ∧ W !! 1%nat = Some (lit " stream_data: 2" ++ [10])
    ∧ W !! 3%nat = Some (lit " stream_data: 7" ++ [10])
    ∧ out !! 3%nat = Some (lit " stream_data: 7" ++ [10])
    ∧ concat out = CountExample.written_text.
Proof.
  destruct (later_count_lines_untouched Example.now Example.file
              CountExample.lines CountExample.idxs [Example.gamma]
              Example.in_place CountExample.disk CountExample.written
              Example.backup)
    as (W & out & HW & Hr & Hl & H1 & H2); [run_io|].
  assert (HW' : arrange_lines CountExample.lines CountExample.idxs
                  [Example.gamma] Example.in_place
                = Ok [lit "SiiNunit" ++ [10]; lit " stream_data: 2" ++ [10];
                      lit "stream_data[0]: " ++ [34]
                      ++ lit "http://c.example/s|Gamma|jazz|fr|96|1"
                      ++ [34; 10];
                      lit " stream_data: 7" ++ [10]; lit "}" ++ [10]])
    by (vm_compute; reflexivity).
  assert (Hr' : Fs.read_text Example.file CountExample.written
                = (CountExample.written, Ok CountExample.written_text))
    by run_disk.
  exists W, out. split; [exact HW|]. split; [exact Hr|]. split; [exact Hl|].
  split; [exact H1|]. split; [exact H2|].
  rewrite HW' in HW. injection HW as <-.
  split; [reflexivity|]. split; [reflexivity|]. split.
  - apply (H1 1%nat 3%nat (lit " stream_data: 2" ++ [10])); [reflexivity| |lia|reflexivity].
    eexists. vm_compute. reflexivity.
  - rewrite Hr in Hr'. by injection Hr'.
Defined.

(** ** What a write leaves of the disk *)

Section WriteEffects.

Implicit Types (d σ : Fs.fs) (p q : Fs.path) (w : bool).

Lemma ondisk_write_text_frame w p t d d' r q :
  OnDisk.write_text w p t d = (d', r) →
  Fs.resolve Fs.link_fuel d p ≠ Some q → d' !! q = d !! q.
Proof.
  unfold OnDisk.write_text, mbind, Fs.io_bind. intros H Hq.
  destruct (Fs.write_text p [] d) as [d1 [[]|e1]] eqn:E1.
  - pose proof (write_text_frame _ _ _ _ _ q E1 Hq) as F1.
    destruct (OnDisk.bytes_of w t) as [b|].
    + rewrite (write_text_twice _ _ _ _ _ E1) in H.
      by eapply write_text_frame.
    + by injection H as <- _.
  - injection H as <- _. by eapply write_text_frame.
Qed.

(** After a [write_text], whatever its outcome, the paths lead where they
    led. *)
Lemma ondisk_write_text_resolve w p t d d' r q :
  OnDisk.write_text w p t d = (d', r) →
  Fs.resolve Fs.link_fuel d' q = Fs.resolve Fs.link_fuel d q.
Proof.
  destruct r as [[]|e].
  - intros (b & _ & (t' & Ht & Hne & Hl & ->)%write_text_Ok)%ondisk_write_text_Ok.
    by rewrite resolve_insert by (done || apply not_link_file).
  - intros [->|(_ & _ & (t' & Ht & Hne & Hl & ->)%write_text_Ok)]%ondisk_write_text_Raise;
      [done|].
    by rewrite resolve_insert by (done || apply not_link_file).
Qed.

(** X12: whatever its outcome, [write_live_streams] makes, removes and
    retypes no entry of the disk but in the backup directory (made with its
    parents when missing) and at the files that the backup path and the
    target path lead to: every other path has an entry of the kind it had,
    a link with the target it had.  (The content of other files is not
    covered: a second name of the target file shows the new content.) *)
Theorem write_touches_three_places (windows : bool) (now : datetime)
    (p : Fs.path) (lines : list str) (idxs : list nat)
    (stations : list Station) (strategy : str) (d d' : Fs.fs)
    (r : result Fs.path) (q : Fs.path) :
  OnDisk.write_live_streams windows now p lines idxs stations strategy d
  = (d', r) →
  ¬ q `prefix_of` backup_dir_of p →
  Fs.resolve Fs.link_fuel d (backup_file_of p now) ≠ Some q →
  Fs.resolve Fs.link_fuel d p ≠ Some q →
  kind_of <$> d' !! q = kind_of <$> d !! q.
Proof.
  unfold OnDisk.write_live_streams, mbind, Fs.io_bind, Fs.lift,
    Fs.mkdir_parents.
  intros H Hdir Hb Hp. f_equal.
  destruct (Fs.mkdir_from [] (backup_dir_of p) d) as [d1 [[]|e1]] eqn:E1.
  2: { injection H as <- _. by eapply mkdir_from_frame. }
  pose proof (mkdir_from_frame _ _ _ _ _ q E1 Hdir) as F1.
  apply mkdir_from_state in E1 as [R1 _].
  destruct (OnDisk.write_text windows _ _ d1) as [d2 r2] eqn:E2.
  assert (F2 : d2 !! q = d1 !! q).
  { eapply ondisk_write_text_frame; [exact E2|]. by rewrite R1. }
  pose proof (ondisk_write_text_resolve _ _ _ _ _ _ p E2) as R2.
  destruct r2 as [[]|e2].
  2: { injection H as <- _. by rewrite F2. }
  destruct (rewrite_lines lines idxs stations strategy) as [out|e3].
  2: { injection H as <- _. by rewrite F2. }
  destruct (OnDisk.write_text windows p (concat out) d2) as [d3 r3] eqn:E3.
  assert (F3 : d3 !! q = d2 !! q).
  { eapply ondisk_write_text_frame; [exact E3|]. by rewrite R2, R1. }
  destruct r3 as [[]|e4]; injection H as <- _; by rewrite F3, F2.
Qed.

Lemma write_touches_three_places_witness :
  kind_of <$>
    (OnDisk.write_live_streams true Example.now Example.file Example.lines
       Example.idxs [Example.gamma] Example.new_slot Example.disk_notes).1
    !! Example.notes
  = kind_of <$> Example.disk_notes !! Example.notes.
Proof.
  eapply (write_touches_three_places true Example.now Example.file
            Example.lines Example.idxs [Example.gamma] Example.new_slot
            Example.disk_notes _ _ Example.notes).
  - apply surjective_pairing.
  - intros [k Hk]. vm_compute in Hk. discriminate Hk.
  - vm_compute. discriminate.
  - vm_compute. discriminate.
Defined.

(** X13: a write that raises leaves the bytes of the target as they were,
    with one exception: the last step opens the target, which empties it,
    before it encodes the new text, so that a text that UTF-8 cannot
    encode (a lone surrogate in a station) raises UnicodeEncodeError and
    leaves the target empty.  (The backup path is taken not to lead to the
    file of the target; the errors are those of opening and of encoding,
    not those of a failing device.) *)
Theorem failed_write_keeps_target (windows : bool) (now : datetime)
    (p : Fs.path) (lines : list str) (idxs : list nat)
    (stations : list Station) (strategy : str) (d d' : Fs.fs) (e : exn)
    (data : OnDisk.bytes) :
  OnDisk.write_live_streams windows now p lines idxs stations strategy d
  = (d', Raise e) →
  Fs.resolve Fs.link_fuel d (backup_file_of p now)
  ≠ Fs.resolve Fs.link_fuel d p →
  Fs.read_text p d = (d, Ok data) →
  Fs.read_text p d' = (d', Ok data)
  ∨ (e = UnicodeEncodeError
     ∧ (∃ out, rewrite_lines lines idxs stations strategy = Ok out
               ∧ OnDisk.bytes_of windows (concat out) = None)
     ∧ Fs.read_text p d' = (d', Ok [])).
Proof.
  unfold OnDisk.write_live_streams, mbind, Fs.io_bind, Fs.lift,
    Fs.mkdir_parents.
  intros H Hne Hr.
  destruct (Fs.mkdir_from [] (backup_dir_of p) d) as [d1 [[]|e1]] eqn:E1.
  2: { injection H as <- _. apply mkdir_from_state in E1 as [H1 H2].
       left. by apply (read_text_preserved d). }
  apply mkdir_from_state in E1 as [H1 H2].
  assert (Hr1 : Fs.read_text p d1 = (d1, Ok data))
    by (by apply (read_text_preserved d)).
  rewrite <- (H1 p), <- (H1 (backup_file_of p now)) in Hne.
  assert (Hkeep : ∀ t d2, Fs.write_text (backup_file_of p now) t d1 = (d2, Ok ()) →
                          Fs.read_text p d2 = (d2, Ok data)).
  { intros t d2 (t' & Ht & Htne & Hl & ->)%write_text_Ok.
    apply read_text_other; [done..| |done]. congruence. }
  destruct (OnDisk.write_text windows _ _ d1) as [d2 [[]|e2]] eqn:E2.
  2: { injection H as <- _. left.
       apply ondisk_write_text_Raise in E2 as [->|(_ & _ & E2)]; eauto. }
  apply ondisk_write_text_Ok in E2 as (bk & _ & E2).
  pose proof (Hkeep _ _ E2) as Hr2.
  destruct (rewrite_lines lines idxs stations strategy) as [out|e3].
  2: { injection H as <- _. by left. }
  destruct (OnDisk.write_text windows p (concat out) d2)
    as [d3 [[]|e4]] eqn:E3; [done|].
  injection H as <- <-.
  apply ondisk_write_text_Raise in E3 as [->|(-> & Hnone & E3)]; [by left|].
  right. split; [done|]. split; [by exists out|].
  apply write_text_Ok in E3 as (t' & Ht & Htne & Hl & ->).
  by apply read_text_inserted.
Qed.

Lemma failed_write_keeps_target_witness :
  (Fs.read_text Example.file SurrogateExample.attempt.1
   = (SurrogateExample.attempt.1, Ok Example.text)
   ∨ (UnicodeEncodeError = UnicodeEncodeError
      ∧ (∃ out, rewrite_lines Example.lines Example.idxs
                  [SurrogateExample.station] Example.in_place = Ok out
                ∧ OnDisk.bytes_of false (concat out) = None)
      ∧ Fs.read_text Example.file SurrogateExample.attempt.1
        = (SurrogateExample.attempt.1, Ok [])))
  ∧ SurrogateExample.attempt.2 = Raise UnicodeEncodeError
  ∧ Fs.read_text Example.file SurrogateExample.attempt.1
    = (SurrogateExample.attempt.1, Ok []).
Proof.
  split; [|split].
  - apply (failed_write_keeps_target false Example.now Example.file
             Example.lines Example.idxs [SurrogateExample.station]
             Example.in_place Example.disk).
    + apply io_pair; [reflexivity|vm_compute; reflexivity].
    + vm_compute. discriminate.
    + run_disk.
  - vm_compute. reflexivity.
  - run_disk.
Defined.

End WriteEffects.

(** ** The two layers *)

Section Layers.

Implicit Types (d : Fs.fs) (p : Fs.path).

Lemma lstat_text_view d p :
  Fs.lstat (text_view d) p = node_text <$> Fs.lstat d p.
Proof. destruct p; [done|]. apply lookup_fmap. Qed.

Lemma resolve_text_view fuel d p :
  Fs.resolve fuel (text_view d) p = Fs.resolve fuel d p.
Proof.
  revert p. induction fuel as [|f IH]; intros p;
    rewrite !(resolve_unfold _ _ p), lstat_text_view;
    destruct (Fs.lstat d p) as [[]|]; try done. apply IH.
Qed.

Lemma stat_text_view d p :
  Fs.stat (text_view d) p = node_text <$> Fs.stat d p.
Proof.
  unfold Fs.stat. rewrite resolve_text_view.
  destruct (Fs.resolve Fs.link_fuel d p) as [q|]; [|done].
  apply lstat_text_view.
Qed.

(** The parser on the bytes of a disk gives what the parser on texts gives
    on the disk as it is read. *)
Lemma parse_text_view p d :
  (OnDisk.parse_live_streams p d).2 = (parse_live_streams p (text_view d)).2.
Proof.
  rewrite parse_by_stat, stat_text_view.
  unfold OnDisk.parse_live_streams, OnDisk.read_text, mbind, Fs.io_bind,
    Fs.get, Fs.exists_, Fs.read_text. cbv beta.
  destruct (Fs.stat d p) as [[b| |t]|] eqn:E; cbn [negb fmap option_fmap option_map node_text];
    cbv beta; rewrite ?E; try done.
  cbn [Fs.pure].
  by destruct (scan_lines 0 (splitlines (OnDisk.text_of b))) as [idxs [|s sts]].
Qed.

End Layers.
